(** * JsRpc: the correlation engine, the session read loop and the load balancer

    A shallow embedding of [core/engine.go] (GQueryFunc, getRandomClient,
    getHealthyClient) and of the session half of the API file (Clients,
    readFromMap, writeToMap, NewClient, ws, checkRequestParam, getResult,
    execjs, getList, getClientDetails, kickClient).

    The Go program is concurrent.  Every goroutine is a thread with a program
    counter; one transition of the machine below is one lock-protected region
    or one statement between two regions, so that two goroutines interleave
    exactly where the Go scheduler can interleave them.  Results of calls
    that leave the process (the socket, the clock, the UUID and random
    sources) are inputs of the transition that makes the call.  Log output is
    not part of the state. *)

From stdpp Require Import gmap strings list fin_maps.
From Stdlib Require Import ZArith Lia.

(** ** Go values *)

(** [int] on the supported 64-bit targets: two's complement wrap-around. *)
Definition wrap64 (z : Z) : Z := ((z + 2 ^ 63) mod 2 ^ 64 - 2 ^ 63)%Z.

(** A [chan string]: the buffered values, the capacity given to [make] and
    whether [close] was called.  Channels are reference values: they live in
    the heap [chans] of the state and are named by their index; the nil
    channel is [None]. *)
Record Chan := mkChan { buf : list string; cap : nat; closed : bool }.

Definition make_chan (n : nat) : Chan := mkChan [] n false.

Inductive SendResult := Sent (c : Chan) | SendBlocks | SendPanics.

(** [ch <- v] on a non-nil channel: panics when closed, proceeds while the
    buffer has room, blocks otherwise. *)
Definition chan_send (c : Chan) (v : string) : SendResult :=
  if closed c then SendPanics
  else if decide (length (buf c) < cap c)
       then Sent (mkChan (buf c ++ [v]) (cap c) false)
       else SendBlocks.

Inductive RecvResult := Received (v : string) (c : Chan) | RecvBlocks.

(** [<-ch]: the oldest buffered value; the zero value once a closed channel
    is drained; blocks on an open empty channel. *)
Definition chan_recv (c : Chan) : RecvResult :=
  match buf c with
  | v :: rest => Received v (mkChan rest (cap c) (closed c))
  | [] => if closed c then Received "" c else RecvBlocks
  end.

(** [close(ch)]: [None] is the panic of closing a closed channel. *)
Definition chan_close (c : Chan) : option Chan :=
  if closed c then None else Some (mkChan (buf c) (cap c) true).

(** [close(ch)] wrapped in [defer recover()]: the panic is swallowed. *)
Definition chan_close_recover (c : Chan) : Chan :=
  default c (chan_close c).

(** ** Wire structures *)

Record Message := mkMessage
  { Action : string; MessageId : string; Param : string }.

Record MessageResponse := mkMessageResponse
  { rAction : string; rMessageId : string; ResponseData : string }.

Inductive Frame := TextFrame (data : string) | PingFrame.

(** A [*websocket.Conn]: whether [Close] was called and what was written. *)
Record Conn := mkConn { conn_closed : bool; conn_out : list Frame }.

Inductive WriteOutcome := WriteOk | WriteErr | WritePanic.

(** A write on a closed connection fails whatever the network would do. *)
Definition conn_write (cn : Conn) (f : Frame) (o : WriteOutcome)
  : WriteOutcome * Conn :=
  if conn_closed cn then (WriteErr, cn)
  else match o with
       | WriteOk => (WriteOk, mkConn false (conn_out cn ++ [f]))
       | _ => (o, cn)
       end.

Definition conn_close (cn : Conn) : Conn := mkConn true (conn_out cn).

(** ** Clients *)

Record Clients := mkClients
  { clientGroup : string;
    clientId : string;
    clientIp : string;
    actionData : gmap string (gmap string nat);
    clientWs : nat;
    lastPingTime : Z;
    failCount : Z;
    isHealthy : bool;
    wsMu : bool;
    registeredActions : list string }.

Definition set_actionData (a : gmap string (gmap string nat)) (c : Clients) :=
  mkClients (clientGroup c) (clientId c) (clientIp c) a (clientWs c)
    (lastPingTime c) (failCount c) (isHealthy c) (wsMu c)
    (registeredActions c).

Definition set_lastPingTime (t : Z) (c : Clients) :=
  mkClients (clientGroup c) (clientId c) (clientIp c) (actionData c)
    (clientWs c) t (failCount c) (isHealthy c) (wsMu c)
    (registeredActions c).

Definition set_health (n : Z) (h : bool) (c : Clients) :=
  mkClients (clientGroup c) (clientId c) (clientIp c) (actionData c)
    (clientWs c) (lastPingTime c) n h (wsMu c) (registeredActions c).

Definition set_isHealthy (h : bool) (c : Clients) :=
  set_health (failCount c) h c.

Definition set_wsMu (l : bool) (c : Clients) :=
  mkClients (clientGroup c) (clientId c) (clientIp c) (actionData c)
    (clientWs c) (lastPingTime c) (failCount c) (isHealthy c) l
    (registeredActions c).

Definition set_registeredActions (l : list string) (c : Clients) :=
  mkClients (clientGroup c) (clientId c) (clientIp c) (actionData c)
    (clientWs c) (lastPingTime c) (failCount c) (isHealthy c) (wsMu c) l.

(** [readFromMap]: indexing a missing key, at either level, gives nil. *)
Definition readFromMap (c : Clients) (funcName mid : string) : option nat :=
  actionData c !! funcName ≫= λ inner, inner !! mid.

Definition NewClient (group uid : string) (ws : nat) (ip : string) (now : Z)
  : Clients :=
  mkClients group uid ip ∅ ws now 0 true false [].

(** The two updates of the health pair made by the select in GQueryFunc. *)
Definition on_success (c : Clients) : Clients := set_health 0 true c.

Definition on_timeout (c : Clients) : Clients :=
  let n := wrap64 (failCount c + 1) in
  set_health n (if decide (3 ≤ n)%Z then false else isHealthy c) c.

(** The registry key of [hlSyncMap]. *)
Definition reg_key (group cid : string) : string := group +:+ "->" +:+ cid.

(** ** Result strings *)

Definition msg_internal : string := "内部错误".
Definition msg_marshal : string := "JSON序列化失败".
Definition msg_send : string := "rpc发送数据失败".
Definition msg_nochan : string := "消息ID对应的管道不存在".
Definition msg_timeout : string := "获取结果超时 timeout".

Definition dquote : string := String (Ascii.ascii_of_nat 34) EmptyString.

(** The handshake text [{"registerId":"<id>"}]. *)
Definition clientNameJson (cid : string) : string :=
  "{" +:+ dquote +:+ "registerId" +:+ dquote +:+ ":" +:+ dquote +:+ cid
      +:+ dquote +:+ "}".

(** ** Threads *)

(** Program counter of one GQueryFunc goroutine (engine.go line numbers). *)
Inductive GPc :=
  | G_CheckMap                 (* 30: unlocked test of actionData[funcName] *)
  | G_MakeMap                  (* 31-33 *)
  | G_GenId                    (* 37-38: GetUUID, readFromMap *)
  | G_Insert                   (* 39-41, then the defer of 47 is armed *)
  | G_Send                     (* 74-95 *)
  | G_Lookup                   (* 97-103 *)
  | G_Wait (resultChan : nat)  (* 104-118 *)
  | G_Reply (res : string)     (* the pending [resChan <- res] *)
  | G_Cleanup (panicking : bool)   (* 48-62 *)
  | G_CloseRes (panicking : bool)  (* 63-70 *)
  | G_Recover                  (* 17-27 *)
  | G_Done.

Record GThread := mkGThread
  { g_client : nat;
    g_funcName : string;
    g_param : string;
    g_resChan : nat;
    g_clientIp : string;
    g_MessageId : string;
    g_pc : GPc }.

Definition g_at (pc : GPc) (th : GThread) : GThread :=
  mkGThread (g_client th) (g_funcName th) (g_param th) (g_resChan th)
    (g_clientIp th) (g_MessageId th) pc.

Definition g_with_id (mid : string) (pc : GPc) (th : GThread) : GThread :=
  mkGThread (g_client th) (g_funcName th) (g_param th) (g_resChan th)
    (g_clientIp th) mid pc.

(** Program counter of one [ws] handler, from the Store of line 131 on. *)
Inductive WPc :=
  | W_Ack                                  (* 133-168 *)
  | W_Read                                 (* 172-195 *)
  | W_Lookup (r : MessageResponse)         (* 197 *)
  | W_Deliver (r : MessageResponse)        (* 200: writeToMap *)
  | W_Parked (ch : option nat) (msg : string)  (* blocked in line 73 *)
  | W_StopHb                               (* deferred close(stopHeartbeat) *)
  | W_Close                                (* 124 *)
  | W_Delete                               (* 126 *)
  | W_Done.

Record WThread := mkWThread
  { w_group : string;
    w_clientId : string;
    w_clientIP : string;
    w_conn : nat;
    w_client : nat;
    w_stop : option nat;
    w_pc : WPc }.

Definition w_at (pc : WPc) (th : WThread) : WThread :=
  mkWThread (w_group th) (w_clientId th) (w_clientIP th) (w_conn th)
    (w_client th) (w_stop th) pc.

Definition w_key (th : WThread) : string :=
  reg_key (w_group th) (w_clientId th).

(** The heartbeat goroutine of lines 151-168. *)
Record HThread := mkHThread
  { h_client : nat; h_conn : nat; h_stop : nat; h_done : bool }.

(** ** The shared state *)

Record State := mkState
  { hlSyncMap : gmap string nat;
    rwMu : bool;
    clients : list Clients;
    chans : list Chan;
    conns : list Conn;
    gthreads : list GThread;
    wthreads : list WThread;
    hthreads : list HThread }.

Definition init : State := mkState ∅ false [] [] [] [] [] [].

Definition set_hlSyncMap (m : gmap string nat) (s : State) :=
  mkState m (rwMu s) (clients s) (chans s) (conns s) (gthreads s)
    (wthreads s) (hthreads s).

Definition set_rwMu (b : bool) (s : State) :=
  mkState (hlSyncMap s) b (clients s) (chans s) (conns s) (gthreads s)
    (wthreads s) (hthreads s).

Definition set_clients (l : list Clients) (s : State) :=
  mkState (hlSyncMap s) (rwMu s) l (chans s) (conns s) (gthreads s)
    (wthreads s) (hthreads s).

Definition set_chans (l : list Chan) (s : State) :=
  mkState (hlSyncMap s) (rwMu s) (clients s) l (conns s) (gthreads s)
    (wthreads s) (hthreads s).

Definition set_conns (l : list Conn) (s : State) :=
  mkState (hlSyncMap s) (rwMu s) (clients s) (chans s) l (gthreads s)
    (wthreads s) (hthreads s).

Definition set_gthreads (l : list GThread) (s : State) :=
  mkState (hlSyncMap s) (rwMu s) (clients s) (chans s) (conns s) l
    (wthreads s) (hthreads s).

Definition set_wthreads (l : list WThread) (s : State) :=
  mkState (hlSyncMap s) (rwMu s) (clients s) (chans s) (conns s)
    (gthreads s) l (hthreads s).

Definition set_hthreads (l : list HThread) (s : State) :=
  mkState (hlSyncMap s) (rwMu s) (clients s) (chans s) (conns s)
    (gthreads s) (wthreads s) l.

(** In-place updates through a pointer. *)
Definition upd_client (p : nat) (f : Clients → Clients) (s : State) : State :=
  set_clients (alter f p (clients s)) s.

Definition upd_chan (r : nat) (f : Chan → Chan) (s : State) : State :=
  set_chans (alter f r (chans s)) s.

Definition upd_conn (r : nat) (f : Conn → Conn) (s : State) : State :=
  set_conns (alter f r (conns s)) s.

Definition g_goto (t : nat) (pc : GPc) (s : State) : State :=
  set_gthreads (alter (g_at pc) t (gthreads s)) s.

Definition w_goto (t : nat) (pc : WPc) (s : State) : State :=
  set_wthreads (alter (w_at pc) t (wthreads s)) s.

(** [make(chan string, n)]: the new channel and the state holding it. *)
Definition alloc_chan (n : nat) (s : State) : nat * State :=
  (length (chans s), set_chans (chans s ++ [make_chan n]) s).

(** ** The transitions *)

Inductive GInput :=
  | GI_run
  | GI_uuid (id : string)          (* what utils.GetUUID returned *)
  | GI_write (o : WriteOutcome)    (* what clientWs.WriteMessage did *)
  | GI_recv                        (* select takes [<-resultChan] *)
  | GI_timeout.                    (* select takes [<-ctx.Done()] *)

Inductive ReadEvent :=
  | RE_error
  | RE_pong (now : Z)              (* pong handler run at time [now] *)
  | RE_message (message : string).

Inductive WInput :=
  | WI_run
  | WI_ack (o : WriteOutcome)   (* what the handshake write did *)
  | WI_read (ev : ReadEvent).   (* what ReadMessage returned *)

Inductive HInput := HI_tick (ok : bool) | HI_stop.

Inductive Label :=
  | Connect (group cid ip uuid : string) (now : Z)
  | WStep (t : nat) (i : WInput)
  | HStep (t : nat) (i : HInput)
  | Call (group cid action param : string) (Intn : nat → nat)
  | GStep (t : nat) (i : GInput)
  | Kick (group cid : string).

Definition is_announcement (r : MessageResponse) : bool :=
  bool_decide (rAction r = "_registerActions" ∧ rMessageId r = "").

(** The send of writeToMap line 73 on the channel value [ch]. *)
Inductive Delivery := Delivered (s : State) | Recovered | Stuck.

Definition deliver (ch : option nat) (msg : string) (s : State) : Delivery :=
  match ch with
  | None => Stuck
  | Some r =>
      match chans s !! r with
      | None => Stuck
      | Some c =>
          match chan_send c msg with
          | Sent c' => Delivered (upd_chan r (λ _, c') s)
          | SendPanics => Recovered
          | SendBlocks => Stuck
          end
      end
  end.

(** The callback of [hlSyncMap.Range] in getHealthyClient, on one entry. *)
Definition classify (group exclude : string) (acc : list nat * list nat)
    (e : nat * Clients) : list nat * list nat :=
  if decide (clientGroup e.2 = group) then
    if decide (exclude ≠ "" ∧ clientId e.2 = exclude) then acc
    else if isHealthy e.2 && bool_decide (failCount e.2 < 3)%Z
         then (acc.1 ++ [e.1], acc.2)
         else (acc.1, acc.2 ++ [e.1])
  else acc.

(** The values of the registry in the order Range visits them. *)
Definition range_values (s : State) : list (nat * Clients) :=
  omap (λ kv, (kv.2,.) <$> clients s !! kv.2) (map_to_list (hlSyncMap s)).

Definition partition_group (group exclude : string) (s : State)
  : list nat * list nat :=
  foldl (classify group exclude) ([], []) (range_values s).

Definition candidates_of (hu : list nat * list nat) : list nat :=
  if decide (length hu.1 = 0) then hu.2 else hu.1.

(** [Intn] is the freshly seeded generator's [Intn]. *)
Definition getHealthyClient (Intn : nat → nat) (group exclude : string)
    (s : State) : option nat :=
  let candidates := candidates_of (partition_group group exclude s) in
  if decide (length candidates = 0) then None
  else candidates !! Intn (length candidates).

Definition getRandomClient (Intn : nat → nat) (group cid : string)
    (s : State) : option nat :=
  if decide (cid ≠ "") then hlSyncMap s !! reg_key group cid
  else getHealthyClient Intn group "" s.

(** [ws] up to line 132: upgrade, NewClient, Store. *)
Definition ws_connect (group cid ip uuid : string) (now : Z) (s : State)
  : State :=
  if decide (group = "") then s
  else
    let cid := if decide (cid = "") then uuid else cid in
    let cn := length (conns s) in
    let p := length (clients s) in
    set_wthreads (wthreads s ++ [mkWThread group cid ip cn p None W_Ack])
      (set_hlSyncMap (<[reg_key group cid := p]> (hlSyncMap s))
         (set_clients (clients s ++ [NewClient group cid cn ip now])
            (set_conns (conns s ++ [mkConn false []]) s))).

(** [getResult] up to the go statement of line 341: parameter checks,
    session selection, [go GQueryFunc].  The handler then waits in the
    receive of line 351, [caller_recv] on the call it has spawned, and
    answers when that returns. *)
Definition getResult (group cid action param : string) (Intn : nat → nat)
    (s : State) : State :=
  if decide (action = "") then s
  else if decide (group = "") then s
  else
    match getRandomClient Intn group cid s with
    | None => s
    | Some p =>
        match clients s !! p with
        | None => s
        | Some c =>
            set_gthreads
              (gthreads s ++
                 [mkGThread p action param (length (chans s)) (clientIp c)
                    "" G_CheckMap])
              (alloc_chan 1 s).2
        end
    end.

(** [<-c2], the receive of getResult line 351 (and of execjs line 390), by
    the handler that spawned call [t]: the state after it and the data the
    handler then answers with, under status 200.  [None]: the receive
    blocks, and nothing is answered. *)
Definition caller_recv (t : nat) (s : State) : option (State * string) :=
  th ← gthreads s !! t;
  rc ← chans s !! g_resChan th;
  match chan_recv rc with
  | Received v rc' => Some (upd_chan (g_resChan th) (λ _, rc') s, v)
  | RecvBlocks => None
  end.

(** [kickClient] and the HTTP status it answers with. *)
Definition kickClient (group cid : string) (s : State) : State * Z :=
  if decide (group = "" ∨ cid = "") then (s, 400%Z)
  else
    match hlSyncMap s !! reg_key group cid with
    | None => (s, 404%Z)
    | Some p =>
        match clients s !! p with
        | None => (s, 500%Z)
        | Some c => (upd_conn (clientWs c) conn_close s, 200%Z)
        end
    end.

Definition h_step (t : nat) (i : HInput) (s : State) : option State :=
  th ← hthreads s !! t;
  if h_done th then None
  else
    match i with
    | HI_tick ok =>
        c ← clients s !! h_client th;
        if wsMu c then None
        else
          cn ← conns s !! h_conn th;
          match conn_write cn PingFrame (if ok then WriteOk else WriteErr) with
          | (WriteOk, cn') => Some (upd_conn (h_conn th) (λ _, cn') s)
          | _ => Some (upd_client (h_client th) (set_isHealthy false) s)
          end
    | HI_stop =>
        c ← chans s !! h_stop th;
        if closed c
        then Some (set_hthreads
                     (alter (λ h, mkHThread (h_client h) (h_conn h)
                                    (h_stop h) true) t (hthreads s)) s)
        else None
    end.

(** ** The other handlers of the API *)

(** [getList]: the callback of Range, [data[group] = append(data[group],
    client.clientId)], and the map the handler answers with. *)
Definition list_entry (data : gmap string (list string)) (e : nat * Clients)
  : gmap string (list string) :=
  let group := clientGroup e.2 in
  <[group := default [] (data !! group) ++ [clientId e.2]]> data.

Definition getList (s : State) : gmap string (list string) :=
  foldl list_entry ∅ (range_values s).

(** [getClientDetails]: one [ClientInfo] per session, grouped the same way.
    A nil [registeredActions] and an empty one are the same list here. *)
Record ClientInfo := mkClientInfo
  { ci_ClientId : string;
    ci_ClientIp : string;
    ci_IsHealthy : bool;
    ci_FailCount : Z;
    ci_Actions : list string }.

Definition client_info (c : Clients) : ClientInfo :=
  mkClientInfo (clientId c) (clientIp c) (isHealthy c) (failCount c)
    (registeredActions c).

Definition details_entry (data : gmap string (list ClientInfo))
    (e : nat * Clients) : gmap string (list ClientInfo) :=
  let group := clientGroup e.2 in
  <[group := default [] (data !! group) ++ [client_info e.2]]> data.

Definition getClientDetails (s : State) : gmap string (list ClientInfo) :=
  foldl details_entry ∅ (range_values s).

Definition msg_need_group : string := "需要传入group".
Definition msg_no_client : string :=
  "没有找到对应的group或clientId,请通过list接口查看现有的注入".

(** [checkRequestParam] once the request is bound: the session, or the
    empty session and the error text. *)
Definition checkRequestParam (Intn : nat → nat) (group cid : string)
    (s : State) : option nat * string :=
  if decide (group = "") then (None, msg_need_group)
  else
    match getRandomClient Intn group cid s with
    | None => (None, msg_no_client)
    | Some p => (Some p, "")
    end.

(** [execjs], once the request is bound, up to the go statement of line
    381.  [Some status] is an answer given on the way: 400 for a missing
    code or session (a dangling session would panic and be answered 500 by
    the deferred recover).  [None] is no answer yet: the call is spawned
    with the action _execjs and the code as its param, and the handler goes
    on to the receive of line 390, [caller_recv] on the new call, to answer
    200 with what arrives. *)
Definition execjs (group cid code : string) (Intn : nat → nat) (s : State)
  : State * option Z :=
  if decide (code = "") then (s, Some 400%Z)
  else
    match checkRequestParam Intn group cid s with
    | (Some p, _) =>
        match clients s !! p with
        | None => (s, Some 500%Z)
        | Some c =>
            (set_gthreads
               (gthreads s ++
                  [mkGThread p "_execjs" code (length (chans s)) (clientIp c)
                     "" G_CheckMap])
               (alloc_chan 1 s).2, None)
        end
    | (None, _) => (s, Some 400%Z)
    end.

Section Machine.

(** encoding/json, as far as the program uses it. *)
Context (json_marshal : Message → option string).
Context (json_unmarshal_response : string → option MessageResponse).
Context (json_unmarshal_strings : string → option (list string)).

Definition g_step (t : nat) (i : GInput) (s : State) : option State :=
  th ← gthreads s !! t;
  c ← clients s !! g_client th;
  let p := g_client th in
  let f := g_funcName th in
  let mid := g_MessageId th in
  match g_pc th, i with
  | G_CheckMap, GI_run =>
      Some (g_goto t (if actionData c !! f is None then G_MakeMap
                      else G_GenId) s)
  | G_MakeMap, GI_run =>
      if rwMu s then None
      else Some (g_goto t G_GenId
                   (upd_client p (set_actionData (<[f := ∅]> (actionData c)))
                      s))
  | G_GenId, GI_uuid id =>
      if rwMu s then None
      else Some (set_gthreads
                   (alter (g_with_id id
                             (if readFromMap c f id is None then G_Insert
                              else G_GenId)) t (gthreads s)) s)
  | G_Insert, GI_run =>
      if rwMu s then None
      else
        match actionData c !! f with
        | None => Some (g_goto t G_Recover (set_rwMu true s))
        | Some inner =>
            Some (g_goto t G_Send
                    (upd_client p
                       (set_actionData
                          (<[f := <[mid := length (chans s)]> inner]>
                             (actionData c)))
                       (alloc_chan 1 s).2))
        end
  | G_Send, GI_write o =>
      match json_marshal (mkMessage f mid (g_param th)) with
      | None => Some (g_goto t (G_Reply msg_marshal) s)
      | Some data =>
          if wsMu c then None
          else
            cn ← conns s !! clientWs c;
            match conn_write cn (TextFrame data) o with
            | (WriteOk, cn') =>
                Some (g_goto t G_Lookup (upd_conn (clientWs c) (λ _, cn') s))
            | (WriteErr, _) =>
                Some (g_goto t (G_Reply msg_send)
                        (upd_client p (set_isHealthy false) s))
            | (WritePanic, _) =>
                Some (g_goto t (G_Cleanup true)
                        (upd_client p (set_wsMu true) s))
            end
      end
  | G_Lookup, GI_run =>
      if rwMu s then None
      else Some (g_goto t (match readFromMap c f mid with
                           | None => G_Reply msg_nochan
                           | Some ch => G_Wait ch
                           end) s)
  | G_Wait ch, GI_recv =>
      rc ← chans s !! ch;
      match chan_recv rc with
      | Received v rc' =>
          Some (g_goto t (G_Reply v)
                  (upd_client p on_success (upd_chan ch (λ _, rc') s)))
      | RecvBlocks => None
      end
  | G_Wait ch, GI_timeout =>
      Some (g_goto t (G_Reply msg_timeout) (upd_client p on_timeout s))
  | G_Reply res, GI_run =>
      rc ← chans s !! g_resChan th;
      match chan_send rc res with
      | Sent rc' =>
          Some (g_goto t (G_Cleanup false)
                  (upd_chan (g_resChan th) (λ _, rc') s))
      | SendPanics => Some (g_goto t (G_Cleanup true) s)
      | SendBlocks => None
      end
  | G_Cleanup pn, GI_run =>
      if rwMu s then None
      else
        Some (g_goto t (G_CloseRes pn)
                match actionData c !! f with
                | None => s
                | Some inner =>
                    match inner !! mid with
                    | None => s
                    | Some ch =>
                        upd_chan ch chan_close_recover
                          (upd_client p
                             (set_actionData
                                (<[f := delete mid inner]> (actionData c)))
                             s)
                    end
                end)
  | G_CloseRes pn, GI_run =>
      Some (g_goto t (if pn then G_Recover else G_Done)
              (upd_chan (g_resChan th) chan_close_recover s))
  | G_Recover, GI_run =>
      rc ← chans s !! g_resChan th;
      match chan_send rc msg_internal with
      | Sent rc' =>
          Some (g_goto t G_Done
                  (upd_chan (g_resChan th)
                     (λ _, chan_close_recover rc') s))
      | SendPanics => Some (g_goto t G_Done s)
      | SendBlocks => None
      end
  | _, _ => None
  end.

Definition w_step (t : nat) (i : WInput) (s : State) : option State :=
  th ← wthreads s !! t;
  c ← clients s !! w_client th;
  let p := w_client th in
  match w_pc th, i with
  | W_Ack, WI_ack o =>
      cn ← conns s !! w_conn th;
      match conn_write cn (TextFrame (clientNameJson (w_clientId th))) o with
      | (WriteOk, cn') =>
          let s1 := (alloc_chan 0 (upd_conn (w_conn th) (λ _, cn') s)).2 in
          let stop := length (chans s) in
          Some (set_hthreads
                  (hthreads s1 ++ [mkHThread p (w_conn th) stop false])
                  (set_wthreads
                     (alter (λ w, mkWThread (w_group w) (w_clientId w)
                                    (w_clientIP w) (w_conn w) (w_client w)
                                    (Some stop) W_Read) t (wthreads s1)) s1))
      | _ => Some (w_goto t W_Close s)
      end
  | W_Read, WI_read ev =>
      cn ← conns s !! w_conn th;
      match (if conn_closed cn then RE_error else ev) with
      | RE_error => Some (w_goto t W_StopHb s)
      | RE_pong now => Some (upd_client p (set_lastPingTime now) s)
      | RE_message m =>
          match json_unmarshal_response m with
          | None => Some s
          | Some r =>
              if is_announcement r then
                match json_unmarshal_strings (ResponseData r) with
                | Some acts =>
                    Some (upd_client p (set_registeredActions acts) s)
                | None => Some s
                end
              else Some (w_goto t (W_Lookup r) s)
          end
      end
  | W_Lookup r, WI_run =>
      if rwMu s then None
      else Some (w_goto t (if readFromMap c (rAction r) (rMessageId r) is None
                           then W_Read else W_Deliver r) s)
  | W_Deliver r, WI_run =>
      if rwMu s then None
      else
        let ch := readFromMap c (rAction r) (rMessageId r) in
        Some match deliver ch (ResponseData r) s with
             | Delivered s' => w_goto t W_Read s'
             | Recovered => w_goto t W_Read s
             | Stuck => w_goto t (W_Parked ch (ResponseData r))
                          (set_rwMu true s)
             end
  | W_Parked ch msg, WI_run =>
      match deliver ch msg s with
      | Delivered s' => Some (w_goto t W_Read (set_rwMu false s'))
      | Recovered => Some (w_goto t W_Read (set_rwMu false s))
      | Stuck => None
      end
  | W_StopHb, WI_run =>
      Some (w_goto t W_Close
              match w_stop th with
              | Some stop => upd_chan stop chan_close_recover s
              | None => s
              end)
  | W_Close, WI_run =>
      Some (w_goto t W_Delete (upd_conn (w_conn th) conn_close s))
  | W_Delete, WI_run =>
      Some (w_goto t W_Done
              (set_hlSyncMap (delete (w_key th) (hlSyncMap s)) s))
  | _, _ => None
  end.

Definition step (s : State) (l : Label) : option State :=
  match l with
  | Connect group cid ip uuid now => Some (ws_connect group cid ip uuid now s)
  | WStep t i => w_step t i s
  | HStep t i => h_step t i s
  | Call group cid action param Intn =>
      Some (getResult group cid action param Intn s)
  | GStep t i => g_step t i s
  | Kick group cid => Some (kickClient group cid s).1
  end.

Fixpoint exec (s : State) (ls : list Label) : option State :=
  match ls with
  | [] => Some s
  | l :: ls => s' ← step s l; exec s' ls
  end.

Definition reachable (s : State) : Prop := ∃ ls, exec init ls = Some s.

End Machine.

(** ** The program together with its callers

    An event is a transition of the machine, or the receive of line 351 by
    the handler that spawned call [t]. *)
Inductive Event := Ev (l : Label) | Recv (t : nat).

Definition api_step (jm : Message → option string)
    (ur : string → option MessageResponse)
    (us : string → option (list string)) (s : State) (e : Event)
  : option State :=
  match e with
  | Ev l => step jm ur us s l
  | Recv t => fst <$> caller_recv t s
  end.

Fixpoint api_exec (jm : Message → option string)
    (ur : string → option MessageResponse)
    (us : string → option (list string)) (s : State) (es : list Event)
  : option State :=
  match es with
  | [] => Some s
  | e :: es => s' ← api_step jm ur us s e; api_exec jm ur us s' es
  end.

Definition api_reachable (jm : Message → option string)
    (ur : string → option MessageResponse)
    (us : string → option (list string)) (s : State) : Prop :=
  ∃ es, api_exec jm ur us init es = Some s.

(** ** Concrete runs

    A stand-in for encoding/json on the texts the runs below exchange.  The
    request is written as Go writes a [Message] whose strings need no
    escaping; of the inbound texts only [wire_reply] and [wire_announce]
    are decoded, every other text is refused. *)

Definition jstr (s : string) : string := dquote +:+ s +:+ dquote.

Definition jfield (k v : string) : string := jstr k +:+ ":" +:+ v.

Definition demo_marshal (m : Message) : option string :=
  Some ("{" +:+ jfield "action" (jstr (Action m)) +:+ ","
            +:+ jfield "message_id" (jstr (MessageId m)) +:+ ","
            +:+ jfield "param" (jstr (Param m)) +:+ "}").

Definition wire_response (a mid data : string) : string :=
  "{" +:+ jfield "action" (jstr a) +:+ ","
      +:+ jfield "message_id" (jstr mid) +:+ ","
      +:+ jfield "response_data" data +:+ "}".

(** [["dom","cookie"]], and the same text as a JSON string. *)
Definition actions_text : string :=
  "[" +:+ jstr "dom" +:+ "," +:+ jstr "cookie" +:+ "]".

Definition actions_quoted : string :=
  dquote +:+ "[\" +:+ dquote +:+ "dom\" +:+ dquote +:+ ",\" +:+ dquote
         +:+ "cookie\" +:+ dquote +:+ "]" +:+ dquote.

Definition wire_reply : string := wire_response "act" "id" (jstr "x").

Definition wire_announce : string :=
  wire_response "_registerActions" "" actions_quoted.

Definition demo_unmarshal_response (s : string) : option MessageResponse :=
  if decide (s = wire_reply) then Some (mkMessageResponse "act" "id" "x")
  else if decide (s = wire_announce)
       then Some (mkMessageResponse "_registerActions" "" actions_text)
       else None.

Definition demo_unmarshal_strings (s : string) : option (list string) :=
  if decide (s = actions_text) then Some ["dom"; "cookie"] else None.

Definition demo_exec : State → list Label → option State :=
  exec demo_marshal demo_unmarshal_response demo_unmarshal_strings.

Definition first_candidate : nat → nat := λ _, 0.

(** Agent [A] of group [g] connects and receives its handshake. *)
Definition boot : list Label :=
  [Connect "g" "A" "10.0.0.1" "uuid-0" 100; WStep 0 (WI_ack WriteOk)].

(** One caller asks [A] for action [act]; the request is on the wire and the
    goroutine sits in its select. *)
Definition to_wait : list Label :=
  boot ++
  [Call "g" "A" "act" "p" first_candidate;
   GStep 0 GI_run; GStep 0 GI_run; GStep 0 (GI_uuid "id"); GStep 0 GI_run;
   GStep 0 (GI_write WriteOk); GStep 0 GI_run].

Definition s_open : State :=
  Eval vm_compute in default init (demo_exec init boot).

Definition s_wait : State :=
  Eval vm_compute in default init (demo_exec init to_wait).

(** The agent's reply has been read and delivered into the slot. *)
Definition s_replied : State :=
  Eval vm_compute in
    default init
      (demo_exec s_wait
         [WStep 0 (WI_read (RE_message wire_reply)); WStep 0 WI_run;
          WStep 0 WI_run]).

(** The call has taken the reply from its slot and sent it on resChan; and
    then the handler that spawned it has received it (line 351). *)
Definition to_sent : list Event :=
  Ev <$> (to_wait ++
          [WStep 0 (WI_read (RE_message wire_reply)); WStep 0 WI_run;
           WStep 0 WI_run; GStep 0 GI_recv; GStep 0 GI_run]).

Definition s_sent : State :=
  Eval vm_compute in
    default init
      (api_exec demo_marshal demo_unmarshal_response demo_unmarshal_strings
         init to_sent).

Definition s_answered : State :=
  Eval vm_compute in
    default init
      (api_exec demo_marshal demo_unmarshal_response demo_unmarshal_strings
         init (to_sent ++ [Recv 0])).

(** The agent connected, nothing written to it yet. *)
Definition s_stored : State :=
  Eval vm_compute in
    default init
      (demo_exec init [Connect "g" "A" "10.0.0.1" "uuid-0" 100]).

(** ** The specification's wording of three claims, to be compared with
    the program *)


(** The handshake text of session [p] is among the frames written to it. *)
Definition handshake_sent (s : State) (p : nat) : Prop :=
  ∃ c cn, clients s !! p = Some c ∧ conns s !! clientWs c = Some cn ∧
          TextFrame (clientNameJson (clientId c)) ∈ conn_out cn.

(** "A registry entry is added when its session completes the handshake." *)
Definition registered_after_handshake (reach : State → Prop) : Prop :=
  ∀ s k p, reach s → hlSyncMap s !! k = Some p → handshake_sent s p.

(** "No registry entry ever outlives its session's socket." *)
Definition entry_socket_open (reach : State → Prop) : Prop :=
  ∀ s k p c cn, reach s → hlSyncMap s !! k = Some p →
    clients s !! p = Some c → conns s !! clientWs c = Some cn →
    conn_closed cn = false.

(** "Kick causes the targeted session's read loop to terminate and its
    registry entry to be removed": after a kick that answered 200, some run
    of the program ends the handler of the session and removes the entry. *)
Definition kick_ends_session (run : State → list Label → option State)
    (reach : State → Prop) : Prop :=
  ∀ s g cid p t th, reach s →
    hlSyncMap s !! reg_key g cid = Some p →
    wthreads s !! t = Some th → w_client th = p →
    (kickClient g cid s).2 = 200%Z →
    ∃ ls s' th', run (kickClient g cid s).1 ls = Some s' ∧
      wthreads s' !! t = Some th' ∧ w_pc th' = W_Done ∧
      hlSyncMap s' !! reg_key g cid = None.

(** "Invoking Kick twice is safe and the second call reports NotFound." *)
Definition second_kick_not_found (reach : State → Prop) : Prop :=
  ∀ s g cid, reach s →
    (kickClient g cid s).2 = 200%Z →
    (kickClient g cid (kickClient g cid s).1).2 = 404%Z.

(** Group [a->b], id [c]: its key is also the key of group [a], id [b->c]. *)
Definition s_collide : State :=
  Eval vm_compute in
    default init (demo_exec init [Connect "a->b" "c" "10.0.0.2" "uuid-0" 7]).

(** Two callers of the same action on [A] whose UUIDs coincide: both pass
    the test of line 38 before either stores its slot. *)
Definition race_ids : list Label :=
  boot ++
  [Call "g" "A" "act" "p" first_candidate;
   Call "g" "A" "act" "q" first_candidate;
   GStep 0 GI_run; GStep 0 GI_run; GStep 1 GI_run;
   GStep 0 (GI_uuid "id"); GStep 1 (GI_uuid "id");
   GStep 0 GI_run].

Definition s_race_pre : State :=
  Eval vm_compute in default init (demo_exec init race_ids).

Definition s_race : State :=
  Eval vm_compute in default init (demo_exec s_race_pre [GStep 1 GI_run]).

(** Two first callers of one action: the second replaces the inner map the
    first has already put its slot in. *)
Definition clobber : list Label :=
  boot ++
  [Call "g" "A" "act" "p" first_candidate;
   Call "g" "A" "act" "q" first_candidate;
   GStep 0 GI_run; GStep 1 GI_run; GStep 0 GI_run;
   GStep 0 (GI_uuid "id1"); GStep 0 GI_run; GStep 0 (GI_write WriteOk);
   GStep 1 GI_run].

Definition s_clobbered : State :=
  Eval vm_compute in default init (demo_exec init clobber).

(** WriteMessage panics in the call's write. *)
Definition to_panic : list Label :=
  boot ++
  [Call "g" "A" "act" "p" first_candidate;
   GStep 0 GI_run; GStep 0 GI_run; GStep 0 (GI_uuid "id"); GStep 0 GI_run;
   GStep 0 (GI_write WritePanic)].

Definition s_panicking : State :=
  Eval vm_compute in default init (demo_exec init to_panic).

Definition s_panicked : State :=
  Eval vm_compute in
    default init
      (demo_exec s_panicking [GStep 0 GI_run; GStep 0 GI_run; GStep 0 GI_run]).

(** The reply arrives while the call times out: the read loop has seen the
    slot (line 197), the call then removes it, and writeToMap runs last. *)
Definition late_reply : list Label :=
  [WStep 0 (WI_read (RE_message wire_reply)); WStep 0 WI_run;
   GStep 0 GI_timeout; GStep 0 GI_run; GStep 0 GI_run; GStep 0 GI_run;
   WStep 0 WI_run].

Definition s_parked : State :=
  Eval vm_compute in default init (demo_exec s_wait late_reply).

(** The frame of the call is written (line 87); the lookup of line 99 is
    next. *)
Definition to_written : list Label :=
  boot ++
  [Call "g" "A" "act" "p" first_candidate;
   GStep 0 GI_run; GStep 0 GI_run; GStep 0 (GI_uuid "id"); GStep 0 GI_run;
   GStep 0 (GI_write WriteOk)].

Definition s_written : State :=
  Eval vm_compute in default init (demo_exec init to_written).

(** Two calls on [A].  The first waits in its select, the second has
    written its frame, when the late reply to the first parks the read loop
    inside writeToMap. *)
Definition to_blocked : list Label :=
  boot ++
  [Call "g" "A" "act" "p" first_candidate;
   Call "g" "A" "act" "q" first_candidate;
   GStep 0 GI_run; GStep 0 GI_run; GStep 0 (GI_uuid "id"); GStep 0 GI_run;
   GStep 0 (GI_write WriteOk); GStep 0 GI_run;
   GStep 1 GI_run; GStep 1 (GI_uuid "id2"); GStep 1 GI_run;
   GStep 1 (GI_write WriteOk)] ++ late_reply.

Definition s_blocked : State :=
  Eval vm_compute in default init (demo_exec init to_blocked).

(** The read loop of [A] has read the reply and stands before the lookup of
    line 197. *)
Definition s_frame_read : State :=
  Eval vm_compute in
    default init
      (demo_exec s_wait [WStep 0 (WI_read (RE_message wire_reply))]).

(** The administrator kicks [A] while its read loop waits in ReadMessage,
    and while it is parked. *)
Definition s_kicked : State :=
  Eval vm_compute in default init (demo_exec s_open [Kick "g" "A"]).

Definition s_parked_kicked : State :=
  Eval vm_compute in default init (demo_exec s_parked [Kick "g" "A"]).

(** ** Predicates of the proofs *)

(** Membership in the group scanned by getHealthyClient, and its score. *)
Definition in_group (group exclude : string) (e : nat * Clients) : bool :=
  bool_decide (clientGroup e.2 = group) &&
  negb (bool_decide (exclude ≠ "" ∧ clientId e.2 = exclude)).

Definition scores_healthy (e : nat * Clients) : bool :=
  isHealthy e.2 && bool_decide (failCount e.2 < 3)%Z.

(** The fields of a session that no transition changes. *)
Definition same_identity (c c' : Clients) : Prop :=
  clientGroup c' = clientGroup c ∧ clientId c' = clientId c ∧
  clientWs c' = clientWs c.

Definition extends (s s' : State) : Prop :=
  (∀ p c, clients s !! p = Some c →
     ∃ c', clients s' !! p = Some c' ∧ same_identity c c') ∧
  (∀ r cn, conns s !! r = Some cn → is_Some (conns s' !! r)).

(** Every registry entry belongs to a handler that has not finished, and
    names the session that handler created. *)
Definition entry_ok (s : State) (k : string) (p : nat) : Prop :=
  ∃ t th c cn,
    wthreads s !! t = Some th ∧ w_client th = p ∧ w_key th = k ∧
    w_pc th ≠ W_Done ∧
    clients s !! p = Some c ∧ clientGroup c = w_group th ∧
    clientId c = w_clientId th ∧ clientWs c = w_conn th ∧
    conns s !! w_conn th = Some cn.

Definition registry_inv (s : State) : Prop :=
  ∀ k p, hlSyncMap s !! k = Some p → entry_ok s k p.

(** Handler [t] sits in the send of writeToMap on a nil channel, inside the
    write lock, and no other handler is inside writeToMap. *)
Definition parked_on_nil (s : State) (t : nat) : Prop :=
  rwMu s = true ∧
  (∃ th msg, wthreads s !! t = Some th ∧ w_pc th = W_Parked None msg) ∧
  (∀ t' th' ch m,
     wthreads s !! t' = Some th' → w_pc th' = W_Parked ch m → t' = t).

(** ** Invariants of the reachable states *)

(** Each handler owns the session and the connection of its own index. *)
Definition aligned (s : State) : Prop :=
  length (clients s) = length (wthreads s) ∧
  length (conns s) = length (wthreads s) ∧
  ∀ t th, wthreads s !! t = Some th → w_client th = t ∧ w_conn th = t.

(** [ch] is the channel stored under (f, mid) in the table of session [p]. *)
Definition slot (s : State) (p : nat) (f mid : string) (ch : nat) : Prop :=
  ∃ c, clients s !! p = Some c ∧ readFromMap c f mid = Some ch.

(** Channels that some goroutine may close: the result channel of a call
    and the stop channel of a handler. *)
Definition closable (s : State) (r : nat) : Prop :=
  (∃ t th, gthreads s !! t = Some th ∧ g_resChan th = r) ∨
  (∃ t th, wthreads s !! t = Some th ∧ w_stop th = Some r).

(** A send or a receive: the channel stays as open as it was. *)
Definition benign (rc rc' : Chan) : Prop :=
  closed rc' = closed rc ∧ cap rc' = cap rc ∧
  (length (buf rc') ≤ length (buf rc) ∨ length (buf rc') ≤ cap rc).

(** The channels of the tables are open, of capacity 1 and hold at most one
    message; a channel is stored under one key only; result and stop
    channels exist and are stored in no table; calls do not share result
    channels. *)
Definition chan_inv (s : State) : Prop :=
  (∀ p f mid ch, slot s p f mid ch →
     ∃ rc, chans s !! ch = Some rc ∧ closed rc = false ∧ cap rc = 1 ∧
           length (buf rc) ≤ 1) ∧
  (∀ p f mid p' f' mid' ch,
     slot s p f mid ch → slot s p' f' mid' ch →
     p = p' ∧ f = f' ∧ mid = mid') ∧
  (∀ r, closable s r →
     r < length (chans s) ∧ ∀ p f mid, ¬ slot s p f mid r) ∧
  (∀ t t' th th',
     gthreads s !! t = Some th → gthreads s !! t' = Some th' →
     g_resChan th = g_resChan th' → t = t').

(** What one transition may do to the tables and the channels: store at
    most one new slot, on a fresh channel; leave a channel as open as it
    was, unless the channel is closable or its slot is removed. *)
Definition frame (s s' : State) : Prop :=
  (∃ key0 : nat * string * string, ∀ p f mid ch,
     slot s' p f mid ch →
     slot s p f mid ch ∨
     ((p, f, mid) = key0 ∧ ch = length (chans s) ∧
      chans s' !! ch = Some (make_chan 1))) ∧
  length (chans s) ≤ length (chans s') ∧
  (∀ r rc, chans s !! r = Some rc →
     ∃ rc', chans s' !! r = Some rc' ∧
       (benign rc rc' ∨ closable s r ∨
        ∃ p f mid, slot s p f mid r ∧ ∀ ch', ¬ slot s' p f mid ch')).

(** No slot is added. *)
Definition slots_kept (s s' : State) : Prop :=
  ∀ p f mid ch, slot s' p f mid ch → slot s p f mid ch.

(** The call is in the loop of lines 36-45. *)
Definition ready_pc (pc : GPc) : Prop := pc = G_GenId ∨ pc = G_Insert.

(** The session of a call exists, and a call that is choosing its id or
    about to store its slot finds the inner map of its action. *)
Definition map_ready (s : State) : Prop :=
  ∀ t th, gthreads s !! t = Some th →
    ∃ c, clients s !! g_client th = Some c ∧
         (ready_pc (g_pc th) → is_Some (actionData c !! g_funcName th)).

(** The handler is blocked in the send of writeToMap. *)
Definition is_parked (pc : WPc) : bool :=
  match pc with W_Parked _ _ => true | _ => false end.

(** The write lock is held between transitions exactly while one handler is
    blocked in the send of writeToMap. *)
Definition lock_inv (s : State) : Prop :=
  (rwMu s = true →
   ∃ t th, wthreads s !! t = Some th ∧ is_parked (w_pc th) = true) ∧
  (∀ t th, wthreads s !! t = Some th → is_parked (w_pc th) = true →
     rwMu s = true) ∧
  (∀ t t' th th',
     wthreads s !! t = Some th → is_parked (w_pc th) = true →
     wthreads s !! t' = Some th' → is_parked (w_pc th') = true → t = t').

(** No inner map is removed from a table. *)
Definition keys_kept (s s' : State) : Prop :=
  ∀ p c f, clients s !! p = Some c → is_Some (actionData c !! f) →
    ∃ c', clients s' !! p = Some c' ∧ is_Some (actionData c' !! f).

(** Some goroutine holds [r] as the channel it is about to receive from or
    send to: a call in its select, or a handler blocked in writeToMap. *)
Definition waits (s : State) (r : nat) : Prop :=
  (∃ t th, gthreads s !! t = Some th ∧ g_pc th = G_Wait r) ∨
  (∃ t th m, wthreads s !! t = Some th ∧ w_pc th = W_Parked (Some r) m).

(** What the result channel of a call holds at each point of GQueryFunc.
    After the send of the result the channel holds it until the caller has
    received it. *)
Definition res_state (pc : GPc) (rc : Chan) : Prop :=
  match pc with
  | G_Cleanup false | G_CloseRes false =>
      closed rc = false ∧ length (buf rc) ≤ 1
  | G_Recover => closed rc = true ∧ buf rc = []
  | G_Done => closed rc = true ∧ length (buf rc) ≤ 1
  | _ => closed rc = false ∧ buf rc = []
  end.

(** Result channels are as [res_state] says; the channels goroutines wait
    on exist and are not closable; stop channels are unbuffered. *)
Definition res_inv (s : State) : Prop :=
  (∀ t th, gthreads s !! t = Some th →
     ∃ rc, chans s !! g_resChan th = Some rc ∧ cap rc = 1 ∧
           res_state (g_pc th) rc) ∧
  (∀ r, waits s r → r < length (chans s) ∧ ¬ closable s r) ∧
  (∀ t th r, wthreads s !! t = Some th → w_stop th = Some r →
     ∃ rc, chans s !! r = Some rc ∧ cap rc = 0).

(** Session [p] was built by ws for the connection of the same index, under
    a group that is not empty. *)
Definition sess_inv (s : State) : Prop :=
  ∀ p c, clients s !! p = Some c → clientWs c = p ∧ clientGroup c ≠ "".

(** The write lock of session [p] is held between two transitions. *)
Definition ws_locked (s : State) (p : nat) : Prop :=
  ∃ c, clients s !! p = Some c ∧ wsMu c = true.

(** The handler has run its deferred [close(stopHeartbeat)]. *)
Definition after_stop (pc : WPc) : bool :=
  match pc with W_Close | W_Delete | W_Done => true | _ => false end.

(** Heartbeat [h] was started by handler [th]. *)
Definition started_by (th : WThread) (h : HThread) : Prop :=
  w_stop th = Some (h_stop h) ∧ w_client th = h_client h ∧
  w_conn th = h_conn h.

(** A handler has no stop channel before its handshake; its stop channel
    is closed exactly after the deferred close; handlers do not share stop
    channels; every heartbeat has the handler that started it, and has
    returned only after that handler closed the stop channel. *)
Definition stop_inv (s : State) : Prop :=
  (∀ t th, wthreads s !! t = Some th → w_pc th = W_Ack → w_stop th = None) ∧
  (∀ t th r, wthreads s !! t = Some th → w_stop th = Some r →
     ∃ rc, chans s !! r = Some rc ∧ closed rc = after_stop (w_pc th)) ∧
  (∀ t t' th th' r,
     wthreads s !! t = Some th → wthreads s !! t' = Some th' →
     w_stop th = Some r → w_stop th' = Some r → t = t') ∧
  (∀ j h, hthreads s !! j = Some h →
     ∃ t th, wthreads s !! t = Some th ∧ started_by th h ∧
             (h_done h = true → after_stop (w_pc th) = true)).

(** How one transition may change the health pair of a session. *)
Inductive HealthChange (c c' : Clients) : Prop :=
  | health_kept : isHealthy c' = isHealthy c → failCount c' = failCount c →
                  HealthChange c c'
  | health_lost : isHealthy c' = false → failCount c' = failCount c →
                  HealthChange c c'
  | health_timeout : c' = on_timeout c → HealthChange c c'.

(** The part of GQueryFunc between the insert of line 40 and the delete of
    line 51: the call's slot may be in the table. *)
Definition holds_slot (pc : GPc) : bool :=
  match pc with
  | G_Send | G_Lookup | G_Wait _ | G_Reply _ | G_Cleanup _ => true
  | _ => false
  end.

(** Some call on session [p] for action [f] with id [mid] is in that
    part. *)
Definition owner (s : State) (p : nat) (f mid : string) : Prop :=
  ∃ t th, gthreads s !! t = Some th ∧ g_client th = p ∧
          g_funcName th = f ∧ g_MessageId th = mid ∧
          holds_slot (g_pc th) = true.

(** Every slot has an owner. *)
Definition own_inv (s : State) : Prop :=
  ∀ p f mid ch, slot s p f mid ch → owner s p f mid.

(** The call is past the write of line 87. *)
Definition sent_pc (pc : GPc) : bool :=
  match pc with
  | G_Lookup | G_Wait _ | G_Reply _ | G_Cleanup _ | G_CloseRes _
  | G_Recover | G_Done => true
  | _ => false
  end.

(** Where a frame found on connection [r] comes from: a heartbeat ping, the
    handshake of the handler of [r], or the request of a call on the
    session of [r]. *)
Definition frame_ok (jm : Message → option string) (s : State) (r : nat)
    (fr : Frame) : Prop :=
  fr = PingFrame ∨
  (∃ t th, wthreads s !! t = Some th ∧ w_conn th = r ∧ w_pc th ≠ W_Ack ∧
           fr = TextFrame (clientNameJson (w_clientId th))) ∨
  (∃ t th c data,
     gthreads s !! t = Some th ∧ clients s !! g_client th = Some c ∧
     clientWs c = r ∧ sent_pc (g_pc th) = true ∧
     jm (mkMessage (g_funcName th) (g_MessageId th) (g_param th))
     = Some data ∧
     fr = TextFrame data).

(** Every frame written so far is accounted for. *)
Definition wire_inv (jm : Message → option string) (s : State) : Prop :=
  ∀ r cn fr, conns s !! r = Some cn → fr ∈ conn_out cn → frame_ok jm s r fr.

(** Agent [A] connects a second time while its first session is open. *)
Definition reconnect : list Label :=
  boot ++ [Connect "g" "A" "10.0.0.9" "uuid-1" 200; WStep 1 (WI_ack WriteOk)].

Definition s_twice : State :=
  Eval vm_compute in default init (demo_exec init reconnect).

(** The heartbeat of [A] fails while the reply of its call is in the slot. *)
Definition s_unhealthy : State :=
  Eval vm_compute in
    default init (demo_exec s_replied [HStep 0 (HI_tick false)]).


(** * Properties *)

(** ** Reading the heaps after an update *)

Lemma alter_lookup_Some {A} (f : A → A) (l : list A) (i j : nat) (x y : A) :
  l !! j = Some x → alter f i l !! j = Some y →
  y = if decide (i = j) then f x else x.
Proof.
  intros Hx. rewrite list_lookup_alter.
  destruct (decide (i = j)) as [->|]; rewrite ?Hx; simpl; congruence.
Qed.

Lemma wrap64_small (z : Z) : (- 2 ^ 63 ≤ z < 2 ^ 63)%Z → wrap64 z = z.
Proof. intros H. unfold wrap64. rewrite Z.mod_small; lia. Qed.

(** ** The health pair *)



Lemma on_timeout_failCount (c : Clients) :
  (0 ≤ failCount c < 2 ^ 63 - 1)%Z →
  failCount (on_timeout c) = (failCount c + 1)%Z.
Proof. intros H. unfold on_timeout. simpl. apply wrap64_small. lia. Qed.



(** ** Single transitions of GQueryFunc *)

Ltac fields :=
  unfold alloc_chan, g_goto, w_goto, upd_client, upd_chan, upd_conn in *;
  unfold set_hlSyncMap, set_rwMu, set_clients, set_chans, set_conns,
    set_gthreads, set_wthreads, set_hthreads in *;
  cbn [hlSyncMap rwMu clients chans conns gthreads wthreads hthreads
       fst snd] in *.

Lemma g_goto_thread (s : State) (t : nat) (th : GThread) (pc : GPc) :
  gthreads s !! t = Some th →
  gthreads (g_goto t pc s) !! t = Some (g_at pc th).
Proof. intros Ht. fields. by rewrite list_lookup_alter_eq, Ht. Qed.

Section Transitions.

Context (jm : Message → option string).
Context (s : State) (t : nat) (th : GThread) (c : Clients).
Hypothesis Ht : gthreads s !! t = Some th.
Hypothesis Hc : clients s !! g_client th = Some c.

Lemma g_lookup_step :
  g_pc th = G_Lookup → rwMu s = false →
  g_step jm t GI_run s
  = Some (g_goto t (match readFromMap c (g_funcName th) (g_MessageId th) with
                    | None => G_Reply msg_nochan
                    | Some ch => G_Wait ch
                    end) s).
Proof.
  intros Hpc Hmu. unfold g_step. rewrite Ht. cbn [mbind option_bind].
  rewrite Hc. cbn [mbind option_bind]. by rewrite Hpc, Hmu.
Qed.

Lemma g_reply_step (res : string) (rc : Chan) :
  g_pc th = G_Reply res → chans s !! g_resChan th = Some rc →
  closed rc = false → length (buf rc) < cap rc →
  g_step jm t GI_run s
  = Some (g_goto t (G_Cleanup false)
            (upd_chan (g_resChan th)
               (λ _, mkChan (buf rc ++ [res]) (cap rc) false) s)).
Proof.
  intros Hpc Hr Hopen Hroom. unfold g_step. rewrite Ht.
  cbn [mbind option_bind]. rewrite Hc. cbn [mbind option_bind].
  rewrite Hpc, Hr. cbn [mbind option_bind]. unfold chan_send.
  by rewrite Hopen, decide_True.
Qed.

Lemma g_cleanup_step (pn : bool) :
  g_pc th = G_Cleanup pn → rwMu s = false →
  g_step jm t GI_run s
  = Some (g_goto t (G_CloseRes pn)
            match actionData c !! g_funcName th with
            | None => s
            | Some inner =>
                match inner !! g_MessageId th with
                | None => s
                | Some ch =>
                    upd_chan ch chan_close_recover
                      (upd_client (g_client th)
                         (set_actionData
                            (<[g_funcName th := delete (g_MessageId th) inner]>
                               (actionData c))) s)
                end
            end).
Proof.
  intros Hpc Hmu. unfold g_step. rewrite Ht. cbn [mbind option_bind].
  rewrite Hc. cbn [mbind option_bind]. by rewrite Hpc, Hmu.
Qed.

Lemma g_closeres_step (pn : bool) :
  g_pc th = G_CloseRes pn →
  g_step jm t GI_run s
  = Some (g_goto t (if pn then G_Recover else G_Done)
            (upd_chan (g_resChan th) chan_close_recover s)).
Proof.
  intros Hpc. unfold g_step. rewrite Ht. cbn [mbind option_bind].
  rewrite Hc. cbn [mbind option_bind]. by rewrite Hpc.
Qed.

Lemma g_recover_step (rc : Chan) :
  g_pc th = G_Recover → chans s !! g_resChan th = Some rc →
  closed rc = true →
  g_step jm t GI_run s = Some (g_goto t G_Done s).
Proof.
  intros Hpc Hr Hcl. unfold g_step. rewrite Ht. cbn [mbind option_bind].
  rewrite Hc. cbn [mbind option_bind]. rewrite Hpc, Hr.
  cbn [mbind option_bind]. unfold chan_send. by rewrite Hcl.
Qed.

End Transitions.


Ltac step_cases :=
  repeat (first [progress simplify_option_eq
                | case_match; simplify_eq
                | progress simpl in * ]).

Lemma extends_refl s : extends s s.
Proof. split; [intros p c H; exists c; repeat split; done|eauto]. Qed.

Lemma alter_identity (f : Clients → Clients) (q : nat) (l : list Clients)
    (p : nat) (c : Clients) :
  (∀ x, same_identity x (f x)) →
  l !! p = Some c → ∃ c', alter f q l !! p = Some c' ∧ same_identity c c'.
Proof.
  intros Hf Hp. rewrite list_lookup_alter. case_decide; subst.
  - rewrite Hp. simpl. eauto.
  - exists c. repeat split; done.
Qed.

Lemma alter_is_Some {A} (f : A → A) (q : nat) (l : list A) r x :
  l !! r = Some x → is_Some (alter f q l !! r).
Proof.
  intros Hr. rewrite list_lookup_alter.
  case_decide; subst; rewrite ?Hr; simpl; eauto.
Qed.

Lemma app_identity (l k : list Clients) p c :
  l !! p = Some c → ∃ c', (l ++ k) !! p = Some c' ∧ same_identity c c'.
Proof. intros H. exists c. split; [by apply lookup_app_l_Some|done]. Qed.

Ltac ext_solve :=
  split;
  [ intros ?p ?c ?Hp; fields;
    first [ by (eexists; split; [eassumption|done])
          | by (apply alter_identity; [intros []; done|done])
          | by apply app_identity ]
  | intros ?r ?cn ?Hr; fields;
    first [ by eauto
          | by eapply alter_is_Some
          | by (eexists; apply lookup_app_l_Some) ] ].


(** ** The load balancer *)

Lemma in_group_no_exclude (group : string) (e : nat * Clients) :
  in_group group "" e = bool_decide (clientGroup e.2 = group).
Proof.
  unfold in_group.
  rewrite (bool_decide_eq_false_2 ("" ≠ "" ∧ clientId e.2 = ""));
    [by rewrite andb_true_r|].
  intros [H _]. by apply H.
Qed.

Lemma classify_foldl (group exclude : string) (l : list (nat * Clients))
    (acc : list nat * list nat) :
  foldl (classify group exclude) acc l
  = (acc.1 ++
       (filter (λ e, in_group group exclude e && scores_healthy e) l).*1,
     acc.2 ++
       (filter (λ e, in_group group exclude e && negb (scores_healthy e))
          l).*1).
Proof.
  revert acc. induction l as [|e l IH]; intros [h u].
  - simpl. by rewrite !app_nil_r.
  - cbn [foldl]. rewrite IH. rewrite !filter_cons.
    unfold classify, in_group, scores_healthy. simpl.
    destruct (decide (clientGroup e.2 = group)) as [Hg|Hg];
      [rewrite (bool_decide_eq_true_2 _ Hg)
      |rewrite (bool_decide_eq_false_2 _ Hg)];
      simpl; [|done].
    destruct (decide (exclude ≠ "" ∧ clientId e.2 = exclude)) as [Hx|Hx];
      [rewrite (bool_decide_eq_true_2 _ Hx)
      |rewrite (bool_decide_eq_false_2 _ Hx)];
      simpl; [done|].
    destruct (isHealthy e.2 && bool_decide (failCount e.2 < 3)%Z); simpl;
      by rewrite <- ?app_assoc.
Qed.

Lemma range_values_spec (s : State) (p : nat) (c : Clients) :
  (p, c) ∈ range_values s ↔
  (∃ k, hlSyncMap s !! k = Some p) ∧ clients s !! p = Some c.
Proof.
  unfold range_values. rewrite list_elem_of_omap. split.
  - intros ([k q] & Hin & Heq). apply elem_of_map_to_list in Hin. simpl in Heq.
    destruct (clients s !! q) as [c'|] eqn:Hq; simplify_eq/=. eauto.
  - intros [[k Hk] Hc]. exists (k, p). split; [by apply elem_of_map_to_list|].
    simpl. by rewrite Hc.
Qed.

(** What getHealthyClient does when no session is excluded: the two
    buckets split the sessions of the group by their score, the healthy
    bucket is preferred, and the generator's draw indexes the chosen one. *)
Lemma getHealthyClient_spec (Intn : nat → nat) (group : string) (s : State) :
  let members := filter (λ e, in_group group "" e) (range_values s) in
  let healthy := (filter (λ e, scores_healthy e) members).*1 in
  let unhealthy := (filter (λ e, negb (scores_healthy e)) members).*1 in
  let candidates := if decide (healthy = []) then unhealthy else healthy in
  partition_group group "" s = (healthy, unhealthy) ∧
  getHealthyClient Intn group "" s
  = (if decide (candidates = []) then None
     else candidates !! Intn (length candidates)) ∧
  (∀ p, p ∈ candidates →
     ∃ c, clients s !! p = Some c ∧ clientGroup c = group ∧
          (∃ k, hlSyncMap s !! k = Some p) ∧
          (scores_healthy (p, c) = false → healthy = [])).
Proof.
  intros members healthy unhealthy candidates.
  assert (Hpart : partition_group group "" s = (healthy, unhealthy)).
  { unfold partition_group. rewrite classify_foldl. simpl.
    unfold healthy, unhealthy, members. rewrite !list_filter_filter.
    f_equal; f_equal; apply list_filter_iff; intros e;
      rewrite andb_True; tauto. }
  split; [done|]. split.
  - unfold getHealthyClient, candidates_of. rewrite Hpart. simpl.
    fold candidates.
    assert (Hc : (if decide (length healthy = 0) then unhealthy else healthy)
                 = candidates).
    { unfold candidates. destruct healthy; done. }
    rewrite Hc. destruct candidates; done.
  - intros p Hp.
    assert (Hin : ∃ c, (p, c) ∈ members ∧
                       (scores_healthy (p, c) = false → healthy = [])).
    { unfold candidates in Hp. case_decide as Hh.
      - apply list_elem_of_fmap in Hp as ([q c] & -> & Hin).
        apply list_elem_of_filter in Hin as [_ Hin]. simpl. eauto.
      - apply list_elem_of_fmap in Hp as ([q c] & -> & Hin).
        apply list_elem_of_filter in Hin as [Hs Hin]. simpl.
        exists c. split; [exact Hin|].
        intros Hf. rewrite Hf in Hs. destruct Hs. }
    destruct Hin as (c & Hin & Hh).
    apply list_elem_of_filter in Hin as [Hg Hin].
    apply range_values_spec in Hin as [Hk Hc].
    exists c. repeat split; try done.
    rewrite in_group_no_exclude in Hg. by apply bool_decide_unpack in Hg.
Qed.

(** Without an explicit id the session returned belongs to the group asked
    for, and is an unhealthy one only when the group has no healthy one. *)
Lemma getRandomClient_no_id (Intn : nat → nat) (group : string) (s : State)
    (p : nat) :
  getRandomClient Intn group "" s = Some p →
  ∃ c, clients s !! p = Some c ∧ clientGroup c = group ∧
       (∃ k, hlSyncMap s !! k = Some p) ∧
       (scores_healthy (p, c) = false →
        ∀ q d, (∃ k, hlSyncMap s !! k = Some q) →
               clients s !! q = Some d → clientGroup d = group →
               scores_healthy (q, d) = false).
Proof.
  unfold getRandomClient. rewrite decide_False by (intros H; by apply H).
  destruct (getHealthyClient_spec Intn group s) as (_ & -> & Hcand).
  intros Hp. case_decide; [discriminate Hp|].
  apply list_elem_of_lookup_2 in Hp.
  destruct (Hcand p Hp) as (c & Hc & Hg & Hk & Hh).
  exists c. repeat split; try done.
  intros Hf q d Hq Hd Hgd. specialize (Hh Hf).
  destruct (scores_healthy (q, d)) eqn:Hs; [exfalso|done].
  assert (Hin : q ∈ (filter (λ e, scores_healthy e)
                       (filter (λ e, in_group group "" e)
                          (range_values s))).*1).
  { apply list_elem_of_fmap. exists (q, d). split; [done|].
    apply list_elem_of_filter. split; [by rewrite Hs|].
    apply list_elem_of_filter. split; [|by apply range_values_spec].
    rewrite in_group_no_exclude. simpl. by rewrite bool_decide_eq_true_2. }
  rewrite Hh in Hin. by apply elem_of_nil in Hin.
Qed.

Section Properties.

Context (json_marshal : Message → option string).
Context (json_unmarshal_response : string → option MessageResponse).
Context (json_unmarshal_strings : string → option (list string)).

Local Abbreviation gstep := (g_step json_marshal).
Local Abbreviation wstep :=
  (w_step json_unmarshal_response json_unmarshal_strings).
Local Abbreviation mstep :=
  (step json_marshal json_unmarshal_response json_unmarshal_strings).
Local Abbreviation run :=
  (exec json_marshal json_unmarshal_response json_unmarshal_strings).


(** Every transition that changes the failCount of a session is an outcome
    of the select in a GQueryFunc call on that session. *)
Lemma step_failCount (s s' : State) (l : Label) (p : nat) (c c' : Clients) :
  mstep s l = Some s' →
  clients s !! p = Some c → clients s' !! p = Some c' →
  failCount c' ≠ failCount c →
  ∃ t th ch,
    gthreads s !! t = Some th ∧ g_client th = p ∧ g_pc th = G_Wait ch ∧
    ((l = GStep t GI_recv ∧ c' = on_success c) ∨
     (l = GStep t GI_timeout ∧ c' = on_timeout c)).
Proof.
  intros Hstep Hc Hc' Hne.
  destruct l as [g cid ip u now|t i|t i|g cid a prm rnd|t i|g cid];
    simpl in Hstep.
  - exfalso. injection Hstep as <-. unfold ws_connect in Hc'.
    case_decide; simpl in Hc'; [congruence|].
    erewrite lookup_app_l_Some in Hc' by done. congruence.
  - exfalso. unfold w_step in Hstep.
    destruct (wthreads s !! t) as [th|]; [simpl in Hstep|done].
    destruct (clients s !! w_client th) as [c0|] eqn:Hc0; [simpl in Hstep|done].
    unfold deliver in Hstep.
    step_cases; try congruence;
      try (pose proof (alter_lookup_Some _ _ _ _ _ _ Hc Hc') as ->;
           case_decide; simpl in *; congruence).
  - exfalso. unfold h_step in Hstep.
    step_cases; try congruence;
      try (pose proof (alter_lookup_Some _ _ _ _ _ _ Hc Hc') as ->;
           case_decide; simpl in *; congruence).
  - exfalso. injection Hstep as <-. unfold getResult in Hc'.
    step_cases; congruence.
  - unfold g_step in Hstep.
    destruct (gthreads s !! t) as [th|] eqn:Ht; [simpl in Hstep|done].
    destruct (clients s !! g_client th) as [c0|] eqn:Hc0; [simpl in Hstep|done].
    destruct (g_pc th) eqn:Hpc, i; try done;
      step_cases; try congruence;
      try (pose proof (alter_lookup_Some _ _ _ _ _ _ Hc Hc') as ->;
           case_decide; simpl in *; try congruence).
    all: try (erewrite lookup_app_l_Some in Hc' by done; congruence).
    all: subst; exists t, th; eexists; repeat split; eauto; simplify_eq; eauto.
  - exfalso. unfold kickClient in Hstep.
    step_cases; congruence.
Qed.

(** C8.  A heartbeat whose ping cannot be written sets isHealthy to false
    and leaves failCount as it was; the pong handler changes lastPingTime
    and nothing else; and the only transitions of the whole program that
    change the failCount of a session are the two branches of the select of
    a GQueryFunc call on that session, of which the receive branch sets it
    to 0. *)
Theorem heartbeat_scoring :
  (∀ s t th c cn ok,
     hthreads s !! t = Some th → h_done th = false →
     clients s !! h_client th = Some c → wsMu c = false →
     conns s !! h_conn th = Some cn →
     ok = false ∨ conn_closed cn = true →
     ∃ s' c', h_step t (HI_tick ok) s = Some s' ∧
       s' = upd_client (h_client th) (set_isHealthy false) s ∧
       clients s' !! h_client th = Some c' ∧
       isHealthy c' = false ∧ failCount c' = failCount c) ∧
  (∀ s t th c cn now,
     wthreads s !! t = Some th → w_pc th = W_Read →
     clients s !! w_client th = Some c →
     conns s !! w_conn th = Some cn → conn_closed cn = false →
     ∃ s' c', wstep t (WI_read (RE_pong now)) s = Some s' ∧
       s' = upd_client (w_client th) (set_lastPingTime now) s ∧
       clients s' !! w_client th = Some c' ∧
       c' = set_lastPingTime now c ∧
       failCount c' = failCount c ∧ isHealthy c' = isHealthy c) ∧
  (∀ s s' l p c c',
     mstep s l = Some s' →
     clients s !! p = Some c → clients s' !! p = Some c' →
     failCount c' ≠ failCount c →
     ∃ t th ch,
       gthreads s !! t = Some th ∧ g_client th = p ∧ g_pc th = G_Wait ch ∧
       ((l = GStep t GI_recv ∧ failCount c' = 0%Z) ∨
        (l = GStep t GI_timeout ∧
         failCount c' = wrap64 (failCount c + 1)))).
Proof.
  split; [|split].
  - intros s t th c cn ok Ht Hd Hc Hmu Hcn Hfail.
    unfold h_step. rewrite Ht. simpl. rewrite Hd, Hc. simpl.
    rewrite Hmu, Hcn. simpl.
    exists (upd_client (h_client th) (set_isHealthy false) s),
      (set_isHealthy false c).
    repeat split.
    + unfold conn_write.
      destruct Hfail as [->| ->]; [destruct (conn_closed cn)|]; done.
    + simpl. by rewrite list_lookup_alter_eq, Hc.
  - intros s t th c cn now Ht Hpc Hc Hcn Hopen.
    unfold w_step. rewrite Ht. simpl. rewrite Hc. simpl.
    rewrite Hpc, Hcn. simpl. rewrite Hopen.
    eexists _, (set_lastPingTime now c). repeat split.
    simpl. by rewrite list_lookup_alter_eq, Hc.
  - intros s s' l p c c' Hstep Hc Hc' Hne.
    destruct (step_failCount s s' l p c c' Hstep Hc Hc' Hne)
      as (t & th & ch & Ht & Hp & Hpc & [[-> ->]|[-> ->]]);
      exists t, th, ch; repeat split; auto.
Qed.

(** C6.  On a frame with action [_registerActions] and empty message id the
    read loop replaces registeredActions by the list decoded from
    response_data (and keeps the old list when decoding fails); actionData,
    failCount and isHealthy of the session, every other session, the
    channels, the registry and the threads are unchanged, and the transition
    is the same whatever the pending tables and channels hold: it does not
    read them. *)
Theorem announcement_replaces_capabilities (s : State) (t : nat)
    (th : WThread) (c : Clients) (cn : Conn) (m : string)
    (r : MessageResponse) :
  wthreads s !! t = Some th → w_pc th = W_Read →
  clients s !! w_client th = Some c →
  conns s !! w_conn th = Some cn → conn_closed cn = false →
  json_unmarshal_response m = Some r →
  rAction r = "_registerActions" → rMessageId r = "" →
  ∃ s' c',
    wstep t (WI_read (RE_message m)) s = Some s' ∧
    clients s' !! w_client th = Some c' ∧
    registeredActions c'
    = default (registeredActions c)
        (json_unmarshal_strings (ResponseData r)) ∧
    actionData c' = actionData c ∧
    failCount c' = failCount c ∧ isHealthy c' = isHealthy c ∧
    clients s' = <[w_client th := c']> (clients s) ∧
    chans s' = chans s ∧ rwMu s' = rwMu s ∧ hlSyncMap s' = hlSyncMap s ∧
    wthreads s' = wthreads s ∧ gthreads s' = gthreads s ∧
    (∀ (tables : nat → gmap string (gmap string nat)) (chs : list Chan),
       let scramble x :=
         set_chans chs
           (set_clients
              (imap (λ i k, set_actionData (tables i) k) (clients x)) x) in
       wstep t (WI_read (RE_message m)) (scramble s) = Some (scramble s')).
Proof.
  intros Ht Hpc Hc Hcn Hopen Hr Ha Hm.
  assert (Hann : is_announcement r = true).
  { unfold is_announcement. by rewrite bool_decide_eq_true. }
  assert (Hid : <[w_client th := c]> (clients s) = clients s)
    by by apply list_insert_id.
  unfold w_step. rewrite Ht. simpl. rewrite Hc. simpl.
  rewrite Hpc, Hcn. simpl. rewrite Hopen, Hr, Hann.
  destruct (json_unmarshal_strings (ResponseData r)) as [acts|] eqn:Hacts.
  - exists (upd_client (w_client th) (set_registeredActions acts) s),
      (set_registeredActions acts c).
    simpl. rewrite list_lookup_alter_eq, Hc. simpl.
    repeat split.
    + apply list_eq. intros i. rewrite list_lookup_alter, list_lookup_insert.
      case_decide as Hi; [subst; rewrite Hc|]; simpl.
      * rewrite decide_True; [done|]. split; [done|]. by eapply lookup_lt_Some.
      * rewrite decide_False; [done|]. intros [? _]; done.
    + intros tables chs. simpl. rewrite Ht. simpl.
      rewrite list_lookup_imap, Hc. simpl. rewrite Hpc, Hcn. simpl.
      rewrite Hopen, Hr, Hann, Hacts.
      unfold upd_client, set_chans, set_clients. simpl.
      do 2 f_equal. apply list_eq. intros i.
      rewrite list_lookup_imap, !list_lookup_alter.
      case_decide; [subst|by rewrite list_lookup_imap].
      rewrite list_lookup_imap. by destruct (clients s !! w_client th).
  - exists s, c. rewrite Hc, Hid. repeat split.
    intros tables chs. simpl. rewrite Ht. simpl.
    rewrite list_lookup_imap, Hc. simpl. rewrite Hpc, Hcn. simpl.
    by rewrite Hopen, Hr, Hann, Hacts.
Qed.

(** C10.  When, after a successful write, readFromMap finds no slot under
    (funcName, MessageId), the call makes the text of line 101, spelled out
    below, its result without entering the select, sends it on the caller's
    channel, runs its cleanup and ends; no field of any session changes on
    the way, so failCount and isHealthy are as before.  The text is none of
    the texts of the other failures (marshalling, write, timeout, recovered
    panic), spelled out as well. *)
Theorem lookup_missing_slot (s : State) (t : nat) (th : GThread)
    (c : Clients) :
  gthreads s !! t = Some th → g_pc th = G_Lookup →
  clients s !! g_client th = Some c → rwMu s = false →
  readFromMap c (g_funcName th) (g_MessageId th) = None →
  chans s !! g_resChan th = Some (make_chan 1) →
  ∃ s1 s2 s4,
    gstep t GI_run s = Some s1 ∧
    gthreads s1 !! t = Some (g_at (G_Reply "消息ID对应的管道不存在") th) ∧
    gstep t GI_run s1 = Some s2 ∧
    chans s2 !! g_resChan th
      = Some (mkChan ["消息ID对应的管道不存在"] 1 false) ∧
    clients s2 = clients s ∧
    run s2 [GStep t GI_run; GStep t GI_run] = Some s4 ∧
    gthreads s4 !! t = Some (g_at G_Done th) ∧
    chans s4 !! g_resChan th
      = Some (mkChan ["消息ID对应的管道不存在"] 1 true) ∧
    clients s4 = clients s ∧
    ("消息ID对应的管道不存在"
       ∉ ["JSON序列化失败"; "rpc发送数据失败"; "获取结果超时 timeout";
          "内部错误"]) ∧
    [msg_marshal; msg_send; msg_timeout; msg_internal]
      = ["JSON序列化失败"; "rpc发送数据失败"; "获取结果超时 timeout";
         "内部错误"].
Proof.
  change "消息ID对应的管道不存在" with msg_nochan.
  intros Ht Hpc Hc Hmu Hslot Hres.
  set (s1 := g_goto t (G_Reply msg_nochan) s).
  set (s2 := g_goto t (G_Cleanup false)
               (upd_chan (g_resChan th)
                  (λ _, mkChan [msg_nochan] 1 false) s1)).
  set (s3 := g_goto t (G_CloseRes false) s2).
  set (s4 := g_goto t G_Done (upd_chan (g_resChan th) chan_close_recover s3)).
  assert (H1 : gstep t GI_run s = Some s1).
  { rewrite (g_lookup_step _ s t th c Ht Hc Hpc Hmu). by rewrite Hslot. }
  assert (Ht1 : gthreads s1 !! t = Some (g_at (G_Reply msg_nochan) th))
    by by apply g_goto_thread.
  assert (H2 : gstep t GI_run s1 = Some s2).
  { rewrite (g_reply_step _ s1 t _ c Ht1 Hc msg_nochan (make_chan 1));
      try done. simpl; lia. }
  assert (Ht2 : gthreads s2 !! t = Some (g_at (G_Cleanup false) th)).
  { exact (g_goto_thread (upd_chan _ _ s1) t _ _ Ht1). }
  assert (H3 : gstep t GI_run s2 = Some s3).
  { rewrite (g_cleanup_step _ s2 t _ c Ht2 Hc false eq_refl Hmu).
    cbn [g_funcName g_MessageId g_at]. unfold readFromMap in Hslot.
    destruct (actionData c !! g_funcName th) as [inner|];
      cbn [mbind option_bind] in Hslot; [by rewrite Hslot|done]. }
  assert (Ht3 : gthreads s3 !! t = Some (g_at (G_CloseRes false) th)).
  { exact (g_goto_thread s2 t _ _ Ht2). }
  assert (H4 : gstep t GI_run s3 = Some s4).
  { by rewrite (g_closeres_step _ s3 t _ c Ht3 Hc false eq_refl). }
  exists s1, s2, s4. repeat split; try done.
  - unfold s2, s1. fields. by rewrite list_lookup_alter_eq, Hres.
  - cbn [exec step]. rewrite H3. cbn [mbind option_bind]. by rewrite H4.
  - exact (g_goto_thread (upd_chan _ _ s3) t _ _ Ht3).
  - unfold s4, s3, s2, s1. fields. by rewrite !list_lookup_alter_eq, Hres.
  - intros H.
    repeat (apply elem_of_cons in H as [H|H]; [discriminate H|]).
    by apply elem_of_nil in H.
Qed.

Lemma step_extends (s s' : State) (l : Label) :
  mstep s l = Some s' → extends s s'.
Proof.
  intros Hstep.
  destruct l as [g cid ip u now|t i|t i|g cid a prm rnd|t i|g cid];
    simpl in Hstep.
  - injection Hstep as <-. unfold ws_connect.
    case_decide; [apply extends_refl|]. ext_solve.
  - unfold w_step, deliver in Hstep.
    destruct (wthreads s !! t) as [th|]; [simpl in Hstep|done].
    destruct (clients s !! w_client th) as [c0|] eqn:Hc0; [simpl in Hstep|done].
    destruct (w_pc th), i; try done; step_cases;
      try apply extends_refl; try ext_solve.
  - unfold h_step in Hstep. step_cases; try apply extends_refl; ext_solve.
  - injection Hstep as <-. unfold getResult.
    repeat case_match; try apply extends_refl; ext_solve.
  - unfold g_step in Hstep.
    destruct (gthreads s !! t) as [th|]; [simpl in Hstep|done].
    destruct (clients s !! g_client th) as [c0|] eqn:Hc0; [simpl in Hstep|done].
    destruct (g_pc th), i; try done; step_cases;
      try apply extends_refl; try ext_solve.
  - injection Hstep as <-. unfold kickClient.
    repeat case_match; try apply extends_refl; ext_solve.
Qed.

Lemma entry_ok_extends (s s' : State) (k : string) (p : nat) :
  extends s s' →
  (∀ t th, wthreads s !! t = Some th → w_client th = p → w_key th = k →
     w_pc th ≠ W_Done →
     ∃ th', wthreads s' !! t = Some th' ∧ w_client th' = p ∧
       w_key th' = k ∧ w_pc th' ≠ W_Done ∧ w_group th' = w_group th ∧
       w_clientId th' = w_clientId th ∧ w_conn th' = w_conn th) →
  entry_ok s k p → entry_ok s' k p.
Proof.
  intros [Hcl Hcn] Hth
    (t & th & c & cn & Ht & Hp & Hk & Hpc & Hc & Hg & Hi & Hw & Hconn).
  destruct (Hth t th Ht Hp Hk Hpc)
    as (th' & Ht' & Hp' & Hk' & Hpc' & Hg' & Hi' & Hw').
  destruct (Hcl p c Hc) as (c' & Hc' & Hg2 & Hi2 & Hw2).
  destruct (Hcn _ _ Hconn) as [cn' Hconn'].
  exists t, th', c', cn'. rewrite Hw'. repeat split; try done; congruence.
Qed.

Lemma w_step_thread (s s' : State) (t : nat) (i : WInput) :
  wstep t i s = Some s' →
  ∃ th th',
    wthreads s !! t = Some th ∧ wthreads s' = <[t := th']> (wthreads s) ∧
    w_client th' = w_client th ∧ w_group th' = w_group th ∧
    w_clientId th' = w_clientId th ∧ w_conn th' = w_conn th ∧
    ((w_pc th = W_Delete ∧ w_pc th' = W_Done ∧
      hlSyncMap s' = delete (w_key th) (hlSyncMap s)) ∨
     (w_pc th' ≠ W_Done ∧ hlSyncMap s' = hlSyncMap s)).
Proof.
  intros Hstep. unfold w_step, deliver in Hstep.
  destruct (wthreads s !! t) as [th|] eqn:Ht; [simpl in Hstep|done].
  destruct (clients s !! w_client th) as [c0|] eqn:Hc0; [simpl in Hstep|done].
  assert (Hlt : t < length (wthreads s)) by by eapply lookup_lt_Some.
  assert (Hal : ∀ f, alter f t (wthreads s) = <[t := f th]> (wthreads s)).
  { intros f. apply list_eq. intros j.
    rewrite list_lookup_alter, list_lookup_insert.
    case_decide; subst;
      [rewrite Ht, decide_True by done
      |rewrite decide_False by (intros [? ?]; done)]; done. }
  assert (Hid : wthreads s = <[t := th]> (wthreads s))
    by by rewrite list_insert_id.
  exists th.
  destruct (w_pc th) eqn:Hpc, i; try done; step_cases; fields;
    try (eexists; split; [done|]; split; [apply Hal|]; simpl; rewrite ?Hpc;
         repeat split; auto; done);
    try (exists th; split; [done|]; split; [apply Hid|]; rewrite ?Hpc;
         repeat split; auto; done).
Qed.

Lemma step_keeps_registry (s s' : State) (l : Label) :
  mstep s l = Some s' →
  match l with
  | Connect _ _ _ _ _ | WStep _ _ => True
  | _ => hlSyncMap s' = hlSyncMap s ∧ wthreads s' = wthreads s
  end.
Proof.
  intros Hstep.
  destruct l as [g cid ip u now|t i|t i|g cid a prm rnd|t i|g cid];
    simpl in Hstep; try done.
  - unfold h_step in Hstep. step_cases; done.
  - injection Hstep as <-. unfold getResult. repeat case_match; done.
  - unfold g_step in Hstep.
    destruct (gthreads s !! t) as [th|]; [simpl in Hstep|done].
    destruct (clients s !! g_client th) as [c0|] eqn:Hc0; [simpl in Hstep|done].
    destruct (g_pc th), i; try done; step_cases; done.
  - injection Hstep as <-. unfold kickClient. repeat case_match; done.
Qed.

Lemma exec_app (s : State) (l1 l2 : list Label) :
  run s (l1 ++ l2) = run s l1 ≫= λ s1, run s1 l2.
Proof.
  revert s. induction l1 as [|l l1 IH]; intros s; simpl; [done|].
  destruct (mstep s l); simpl; [apply IH|done].
Qed.

Lemma reachable_ind (P : State → Prop) :
  P init →
  (∀ s l s',
     reachable json_marshal json_unmarshal_response json_unmarshal_strings s →
     P s → mstep s l = Some s' → P s') →
  ∀ s, reachable json_marshal json_unmarshal_response json_unmarshal_strings s
       → P s.
Proof.
  intros H0 Hs s [ls Hls]. revert s Hls.
  induction ls as [|l ls IH] using rev_ind; intros s Hls.
  - simpl in Hls. by injection Hls as <-.
  - rewrite exec_app in Hls.
    destruct (run init ls) as [s0|] eqn:Hs0; [simpl in Hls|done].
    destruct (mstep s0 l) as [s1|] eqn:Hs1; [simpl in Hls|done].
    injection Hls as <-. eapply Hs; [by exists ls|by apply IH|done].
Qed.

Lemma registry_inv_step (s s' : State) (l : Label) :
  registry_inv s → mstep s l = Some s' → registry_inv s'.
Proof.
  intros Hinv Hstep k p Hk.
  pose proof (step_extends _ _ _ Hstep) as Hext.
  pose proof (step_keeps_registry _ _ _ Hstep) as Hkeep.
  destruct l as [g cid ip u now|t i|t i|g cid a prm rnd|t i|g cid];
    [| |destruct Hkeep as [Hr Hw]; rewrite Hr in Hk;
         (eapply entry_ok_extends; [done| |by apply Hinv]);
         rewrite Hw; intros; eexists; repeat split; done ..].
  - simpl in Hstep. injection Hstep as <-. unfold ws_connect in *.
    case_decide; [by apply Hinv|]. fields.
    destruct (decide (k = reg_key g (if decide (cid = "") then u else cid)))
      as [->|Hne].
    + rewrite lookup_insert_eq in Hk. injection Hk as <-.
      unfold entry_ok. fields.
      exists (length (wthreads s)). eexists _, _, _.
      rewrite !lookup_app_r, !Nat.sub_diag by done. simpl.
      split; [reflexivity|]. simpl. do 3 (split; [done|]).
      split; [reflexivity|]. simpl. do 3 (split; [done|]).
      by rewrite lookup_app_r, Nat.sub_diag.
    + rewrite lookup_insert_ne in Hk by done.
      eapply entry_ok_extends; [done| |by apply Hinv].
      intros t th Ht ?. exists th. fields.
      rewrite lookup_app_l_Some with (x := th) by done. repeat split; done.
  - simpl in Hstep.
    destruct (w_step_thread _ _ _ _ Hstep)
      as (th & th' & Ht & Hw & Hcl & Hg & Hi & Hcn & Hcase).
    assert (Hkey : w_key th' = w_key th) by (unfold w_key; congruence).
    assert (Hold : hlSyncMap s !! k = Some p ∧
                   (w_pc th' = W_Done → k ≠ w_key th)).
    { destruct Hcase as [(Hpc & Hpc' & Hr)|[Hpc' Hr]]; rewrite Hr in Hk.
      - apply lookup_delete_Some in Hk as [Hne Hk]. split; [done|congruence].
      - split; [done|]. intros; contradiction. }
    destruct Hold as [Hk0 Hdone].
    eapply entry_ok_extends; [done| |by apply Hinv].
    intros t0 th0 Ht0 Hp0 Hk0' Hpc0. rewrite Hw.
    destruct (decide (t0 = t)) as [->|Hne].
    + assert (th0 = th) as -> by congruence.
      exists th'. rewrite list_lookup_insert_eq by by eapply lookup_lt_Some.
      repeat split; try congruence.
      intros Hd. by apply Hdone.
    + exists th0. rewrite list_lookup_insert_ne by done. repeat split; done.
Qed.

Lemma reachable_registry_inv (s : State) :
  reachable json_marshal json_unmarshal_response json_unmarshal_strings s →
  registry_inv s.
Proof.
  apply reachable_ind.
  - intros k p Hk. cbn [init hlSyncMap] in Hk. by rewrite lookup_empty in Hk.
  - intros s0 l s' _ Hinv Hstep. by eapply registry_inv_step.
Qed.

(** *** The teardown of a handler *)

Lemma w_goto_thread (s : State) (t : nat) (th : WThread) (pc : WPc) :
  wthreads s !! t = Some th →
  wthreads (w_goto t pc s) !! t = Some (w_at pc th).
Proof. intros Ht. fields. by rewrite list_lookup_alter_eq, Ht. Qed.

Section WTransitions.

Context (s : State) (t : nat) (th : WThread) (c : Clients).
Hypothesis Ht : wthreads s !! t = Some th.
Hypothesis Hc : clients s !! w_client th = Some c.

Lemma w_ack_fail_step (cn : Conn) (o : WriteOutcome) :
  w_pc th = W_Ack → conns s !! w_conn th = Some cn →
  o ≠ WriteOk ∨ conn_closed cn = true →
  wstep t (WI_ack o) s = Some (w_goto t W_Close s).
Proof.
  intros Hpc Hcn Hfail. unfold w_step. rewrite Ht. cbn [mbind option_bind].
  rewrite Hc. cbn [mbind option_bind]. rewrite Hpc, Hcn.
  cbn [mbind option_bind]. unfold conn_write.
  destruct Hfail as [Ho| ->]; [|done].
  destruct (conn_closed cn); [done|]. by destruct o.
Qed.

Lemma w_read_error_step (cn : Conn) (ev : ReadEvent) :
  w_pc th = W_Read → conns s !! w_conn th = Some cn →
  ev = RE_error ∨ conn_closed cn = true →
  wstep t (WI_read ev) s = Some (w_goto t W_StopHb s).
Proof.
  intros Hpc Hcn Hfail. unfold w_step. rewrite Ht. cbn [mbind option_bind].
  rewrite Hc. cbn [mbind option_bind]. rewrite Hpc, Hcn.
  cbn [mbind option_bind].
  destruct Hfail as [->| ->]; [by destruct (conn_closed cn)|done].
Qed.

Lemma w_stophb_step :
  w_pc th = W_StopHb →
  wstep t WI_run s
  = Some (w_goto t W_Close
            match w_stop th with
            | Some stop => upd_chan stop chan_close_recover s
            | None => s
            end).
Proof.
  intros Hpc. unfold w_step. rewrite Ht. cbn [mbind option_bind].
  rewrite Hc. cbn [mbind option_bind]. by rewrite Hpc.
Qed.

Lemma w_close_step :
  w_pc th = W_Close →
  wstep t WI_run s
  = Some (w_goto t W_Delete (upd_conn (w_conn th) conn_close s)).
Proof.
  intros Hpc. unfold w_step. rewrite Ht. cbn [mbind option_bind].
  rewrite Hc. cbn [mbind option_bind]. by rewrite Hpc.
Qed.

Lemma w_delete_step :
  w_pc th = W_Delete →
  wstep t WI_run s
  = Some (w_goto t W_Done
            (set_hlSyncMap (delete (w_key th) (hlSyncMap s)) s)).
Proof.
  intros Hpc. unfold w_step. rewrite Ht. cbn [mbind option_bind].
  rewrite Hc. cbn [mbind option_bind]. by rewrite Hpc.
Qed.

End WTransitions.

Lemma teardown_from_close (s : State) (t : nat) (th : WThread) (c : Clients) :
  wthreads s !! t = Some th → w_pc th = W_Close →
  clients s !! w_client th = Some c →
  ∃ s', run s [WStep t WI_run; WStep t WI_run] = Some s' ∧
    hlSyncMap s' = delete (w_key th) (hlSyncMap s) ∧
    conns s' = alter conn_close (w_conn th) (conns s) ∧
    clients s' = clients s ∧ chans s' = chans s ∧
    wthreads s' !! t = Some (w_at W_Done th).
Proof.
  intros Ht Hpc Hc.
  set (s1 := w_goto t W_Delete (upd_conn (w_conn th) conn_close s)).
  assert (Ht1 : wthreads s1 !! t = Some (w_at W_Delete th))
    by exact (w_goto_thread (upd_conn _ _ s) t _ _ Ht).
  eexists. split.
  { cbn [exec step]. rewrite (w_close_step s t th c Ht Hc Hpc).
    cbn [mbind option_bind]. fold s1.
    rewrite (w_delete_step s1 t _ c Ht1 Hc eq_refl).
    reflexivity. }
  repeat split.
  exact (w_goto_thread (set_hlSyncMap _ s1) t _ _ Ht1).
Qed.

Lemma teardown_from_read (s : State) (t : nat) (th : WThread) (c : Clients)
    (cn : Conn) (ev : ReadEvent) :
  wthreads s !! t = Some th → w_pc th = W_Read →
  clients s !! w_client th = Some c → conns s !! w_conn th = Some cn →
  ev = RE_error ∨ conn_closed cn = true →
  ∃ s', run s [WStep t (WI_read ev); WStep t WI_run; WStep t WI_run;
               WStep t WI_run] = Some s' ∧
    hlSyncMap s' = delete (w_key th) (hlSyncMap s) ∧
    conns s' = alter conn_close (w_conn th) (conns s) ∧
    clients s' = clients s ∧
    wthreads s' !! t = Some (w_at W_Done th).
Proof.
  intros Ht Hpc Hc Hcn Hfail.
  set (s1 := w_goto t W_StopHb s).
  assert (Ht1 : wthreads s1 !! t = Some (w_at W_StopHb th))
    by exact (w_goto_thread s t _ _ Ht).
  set (s2 := w_goto t W_Close
               match w_stop th with
               | Some stop => upd_chan stop chan_close_recover s1
               | None => s1
               end).
  assert (Hg2 : wthreads s2 !! t = Some (w_at W_Close th)).
  { unfold s2. destruct (w_stop th);
      [exact (w_goto_thread (upd_chan _ _ s1) t _ _ Ht1)
      |exact (w_goto_thread s1 t _ _ Ht1)]. }
  assert (Hc2 : clients s2 !! w_client th = Some c).
  { unfold s2. by destruct (w_stop th). }
  destruct (teardown_from_close s2 t _ c Hg2 eq_refl Hc2)
    as (s' & Hrun & Hreg & Hconns & Hcl & Hch & Hth).
  exists s'. split.
  { change [WStep t (WI_read ev); WStep t WI_run; WStep t WI_run;
            WStep t WI_run]
      with ([WStep t (WI_read ev); WStep t WI_run] ++
            [WStep t WI_run; WStep t WI_run]).
    rewrite exec_app. cbn [exec step].
    rewrite (w_read_error_step s t th c Ht Hc cn ev Hpc Hcn Hfail).
    cbn [mbind option_bind]. fold s1.
    rewrite (w_stophb_step s1 t _ c Ht1 Hc eq_refl).
    cbn [mbind option_bind w_stop w_at]. fold s2. exact Hrun. }
  rewrite Hreg, Hconns, Hcl. unfold s2.
  destruct (w_stop th); repeat split; done.
Qed.

(** C7, as amended.  The registry entry of a session is stored right after
    the upgrade, before the handshake text is written.  It is removed by the
    handler of the session: when the write of the handshake fails, or when a
    call of ReadMessage fails (error or close from the peer, or the socket
    closed locally, as kickClient does), the handler closes the socket and
    then deletes its key.  kickClient itself closes the socket of a
    registered session and leaves the registry as it is, so that an entry
    can outlive its socket.  In every reachable state each registry entry
    names a session whose handler has not finished. *)
Theorem registry_entry_lifetime :
  (∀ s g cid ip u now,
     g ≠ "" →
     let id := if decide (cid = "") then u else cid in
     let s' := ws_connect g cid ip u now s in
     hlSyncMap s' !! reg_key g id = Some (length (clients s)) ∧
     clients s' !! length (clients s)
     = Some (NewClient g id (length (conns s)) ip now) ∧
     conns s' !! length (conns s) = Some (mkConn false []) ∧
     wthreads s' !! length (wthreads s)
     = Some (mkWThread g id ip (length (conns s)) (length (clients s))
               None W_Ack)) ∧
  (∀ s t th c cn o,
     wthreads s !! t = Some th → w_pc th = W_Ack →
     clients s !! w_client th = Some c → conns s !! w_conn th = Some cn →
     o ≠ WriteOk ∨ conn_closed cn = true →
     ∃ s', run s [WStep t (WI_ack o); WStep t WI_run; WStep t WI_run]
           = Some s' ∧
       hlSyncMap s' = delete (w_key th) (hlSyncMap s) ∧
       conns s' !! w_conn th = Some (conn_close cn) ∧
       wthreads s' !! t = Some (w_at W_Done th)) ∧
  (∀ s t th c cn ev,
     wthreads s !! t = Some th → w_pc th = W_Read →
     clients s !! w_client th = Some c → conns s !! w_conn th = Some cn →
     ev = RE_error ∨ conn_closed cn = true →
     ∃ s', run s [WStep t (WI_read ev); WStep t WI_run; WStep t WI_run;
                  WStep t WI_run] = Some s' ∧
       hlSyncMap s' = delete (w_key th) (hlSyncMap s) ∧
       conns s' !! w_conn th = Some (conn_close cn) ∧
       wthreads s' !! t = Some (w_at W_Done th)) ∧
  (∀ s g cid p,
     reachable json_marshal json_unmarshal_response json_unmarshal_strings s →
     g ≠ "" → cid ≠ "" → hlSyncMap s !! reg_key g cid = Some p →
     ∃ c cn, clients s !! p = Some c ∧ conns s !! clientWs c = Some cn ∧
       (kickClient g cid s).2 = 200%Z ∧
       conns (kickClient g cid s).1 !! clientWs c = Some (conn_close cn) ∧
       hlSyncMap (kickClient g cid s).1 = hlSyncMap s) ∧
  (∀ s k p,
     reachable json_marshal json_unmarshal_response json_unmarshal_strings s →
     hlSyncMap s !! k = Some p →
     ∃ t th, wthreads s !! t = Some th ∧ w_client th = p ∧ w_key th = k ∧
             w_pc th ≠ W_Done).
Proof.
  split; [|split; [|split; [|split]]].
  - intros s g cid ip u now Hg id s'. unfold s', ws_connect.
    rewrite decide_False by done. fold id. fields.
    rewrite lookup_insert_eq, !lookup_app_r, !Nat.sub_diag by done. done.
  - intros s t th c cn o Ht Hpc Hc Hcn Hfail.
    assert (Ht1 : wthreads (w_goto t W_Close s) !! t = Some (w_at W_Close th))
      by by apply w_goto_thread.
    destruct (teardown_from_close (w_goto t W_Close s) t _ c Ht1 eq_refl Hc)
      as (s' & Hrun & Hreg & Hconns & _ & _ & Hth).
    exists s'. split; [|split; [done|split; [|done]]].
    + cbn [exec step].
      rewrite (w_ack_fail_step s t th c Ht Hc cn o Hpc Hcn Hfail).
      exact Hrun.
    + rewrite Hconns. cbn [w_conn w_at]. fields.
      by rewrite list_lookup_alter_eq, Hcn.
  - intros s t th c cn ev Ht Hpc Hc Hcn Hfail.
    destruct (teardown_from_read s t th c cn ev Ht Hpc Hc Hcn Hfail)
      as (s' & Hrun & Hreg & Hconns & _ & Hth).
    exists s'. repeat split; try done.
    by rewrite Hconns, list_lookup_alter_eq, Hcn.
  - intros s g cid p Hreach Hg Hcid Hk.
    destruct (reachable_registry_inv s Hreach _ p Hk)
      as (t & th & c & cn & _ & _ & _ & _ & Hc & _ & _ & Hws & Hcn).
    exists c, cn. rewrite Hws. unfold kickClient.
    rewrite decide_False, Hk, Hc, Hws by (intros [?|?]; done).
    repeat split; try done. fields. by rewrite list_lookup_alter_eq, Hcn.
  - intros s k p Hreach Hk.
    destruct (reachable_registry_inv s Hreach k p Hk)
      as (t & th & c & cn & Ht & Hp & Hkey & Hpc & _).
    by exists t, th.
Qed.

(** *** What a run keeps of a closed socket and of a handler *)

Lemma alter_keeps_closed (f : Conn → Conn) (q r : nat) (l : list Conn)
    (cn : Conn) :
  (∀ x, conn_closed x = true → conn_closed (f x) = true) →
  l !! r = Some cn → conn_closed cn = true →
  ∃ cn', alter f q l !! r = Some cn' ∧ conn_closed cn' = true.
Proof.
  intros Hf Hr Hcl. rewrite list_lookup_alter. case_decide.
  - subst q. rewrite Hr. simpl. eauto.
  - eauto.
Qed.

Lemma step_keeps_closed (s s' : State) (l : Label) (r : nat) (cn : Conn) :
  mstep s l = Some s' → conns s !! r = Some cn → conn_closed cn = true →
  ∃ cn', conns s' !! r = Some cn' ∧ conn_closed cn' = true.
Proof.
  intros Hstep Hr Hcl.
  assert (Hw : ∀ q x f o x', conns s !! q = Some x →
            conn_write x f o = (WriteOk, x') →
            ∃ cn', alter (λ _, x') q (conns s) !! r = Some cn' ∧
                   conn_closed cn' = true).
  { intros q x f o x' Hq Hwr. rewrite list_lookup_alter. case_decide.
    - subst q. rewrite Hr in Hq. injection Hq as <-.
      unfold conn_write in Hwr. rewrite Hcl in Hwr. discriminate Hwr.
    - eauto. }
  destruct l as [g cid ip u now|t i|t i|g cid a prm rnd|t i|g cid];
    simpl in Hstep.
  - injection Hstep as <-. unfold ws_connect. case_decide; [eauto|].
    fields. exists cn. split; [by apply lookup_app_l_Some|done].
  - unfold w_step, deliver in Hstep.
    destruct (wthreads s !! t) as [th|]; [simpl in Hstep|done].
    destruct (clients s !! w_client th) as [c0|]; [simpl in Hstep|done].
    destruct (w_pc th) eqn:Hpc, i; try done.
    + destruct (conns s !! w_conn th) as [x|] eqn:Hx; [simpl in Hstep|done].
      destruct (conn_write x _ o) as [[] x'] eqn:Hwr;
        injection Hstep as <-; fields; eauto.
    + step_cases; fields; eauto.
    + step_cases; fields; eauto.
    + step_cases; fields; eauto.
    + step_cases; fields; eauto.
    + step_cases; fields; eauto.
    + injection Hstep as <-. fields.
      eapply alter_keeps_closed; [done|exact Hr|exact Hcl].
    + step_cases; fields; eauto.
  - unfold h_step in Hstep.
    destruct (hthreads s !! t) as [ht|]; [simpl in Hstep|done].
    destruct (h_done ht); [done|]. destruct i.
    + destruct (clients s !! h_client ht) as [c0|]; [simpl in Hstep|done].
      destruct (wsMu c0); [done|].
      destruct (conns s !! h_conn ht) as [x|] eqn:Hx; [simpl in Hstep|done].
      destruct (conn_write x PingFrame _) as [[] x'] eqn:Hwr;
        step_cases; fields; eauto.
    + step_cases; fields; eauto.
  - injection Hstep as <-. unfold getResult.
    repeat case_match; fields; eauto.
  - unfold g_step in Hstep.
    destruct (gthreads s !! t) as [th|]; [simpl in Hstep|done].
    destruct (clients s !! g_client th) as [c0|]; [simpl in Hstep|done].
    destruct (g_pc th) eqn:Hpc, i; try done; step_cases; fields; eauto.
  - injection Hstep as <-. unfold kickClient.
    repeat case_match; fields; eauto.
    eapply alter_keeps_closed; [done|exact Hr|exact Hcl].
Qed.

Lemma step_keeps_handler (s s' : State) (l : Label) (t : nat)
    (th : WThread) :
  mstep s l = Some s' → wthreads s !! t = Some th →
  ∃ th', wthreads s' !! t = Some th' ∧ w_client th' = w_client th ∧
         w_group th' = w_group th ∧ w_clientId th' = w_clientId th ∧
         w_conn th' = w_conn th.
Proof.
  intros Hstep Ht.
  pose proof (step_keeps_registry _ _ _ Hstep) as Hkeep.
  destruct l as [g cid ip u now|t0 i|t0 i|g cid a prm rnd|t0 i|g cid];
    [| |destruct Hkeep as [_ ->]; by exists th ..].
  - simpl in Hstep. injection Hstep as <-. unfold ws_connect.
    case_decide; [by exists th|]. fields. exists th.
    split; [by apply lookup_app_l_Some|done].
  - simpl in Hstep.
    destruct (w_step_thread _ _ _ _ Hstep)
      as (th0 & th0' & Ht0 & -> & H1 & H2 & H3 & H4 & _).
    destruct (decide (t0 = t)) as [->|Hne].
    + rewrite Ht in Ht0. injection Ht0 as <-. exists th0'.
      rewrite list_lookup_insert_eq by by eapply lookup_lt_Some. done.
    + exists th. by rewrite list_lookup_insert_ne.
Qed.

(** After a socket was closed, the handler of its session keeps its
    identity, the session stays, and the socket stays closed, whatever the
    program does. *)
Lemma run_after_close (s s' : State) (ls : list Label) (t : nat)
    (th : WThread) (c : Clients) (cn : Conn) :
  run s ls = Some s' →
  wthreads s !! t = Some th → clients s !! w_client th = Some c →
  conns s !! w_conn th = Some cn → conn_closed cn = true →
  ∃ th' c' cn',
    wthreads s' !! t = Some th' ∧ w_client th' = w_client th ∧
    w_group th' = w_group th ∧ w_clientId th' = w_clientId th ∧
    w_conn th' = w_conn th ∧
    clients s' !! w_client th = Some c' ∧
    conns s' !! w_conn th = Some cn' ∧ conn_closed cn' = true.
Proof.
  revert s th c cn. induction ls as [|l ls IH];
    intros s th c cn Hrun Ht Hc Hcn Hcl; simpl in Hrun.
  - injection Hrun as <-. by exists th, c, cn.
  - destruct (mstep s l) as [s1|] eqn:Hs1; [simpl in Hrun|done].
    destruct (step_keeps_handler _ _ _ _ _ Hs1 Ht)
      as (th1 & Ht1 & E1 & E2 & E3 & E4).
    destruct (step_extends _ _ _ Hs1) as [Hcl1 _].
    destruct (Hcl1 _ _ Hc) as (c1 & Hc1 & _).
    destruct (step_keeps_closed _ _ _ _ _ Hs1 Hcn Hcl) as (cn1 & Hcn1 & Hcl').
    destruct (IH s1 th1 c1 cn1 Hrun Ht1) as (th' & c' & cn' & H);
      [by rewrite E1|by rewrite E4|done|].
    exists th', c', cn'. rewrite <- E1, <- E2, <- E3, <- E4. exact H.
Qed.

(** C9, as amended.  kickClient on a registered session closes the socket
    of that session, answers 200 and leaves the registry as it is; a second
    kick at that point does the same again and changes nothing.  Whenever
    the read loop of the session is in ReadMessage afterwards (at once, if
    it was waiting there when the kick came), its read fails whatever the
    peer sent, the loop ends, and its teardown deletes the entry; from then
    on kickClient answers 404. *)
Theorem kick_then_teardown (s : State) (g cid : string) (p : nat) :
  reachable json_marshal json_unmarshal_response json_unmarshal_strings s →
  g ≠ "" → cid ≠ "" →
  hlSyncMap s !! reg_key g cid = Some p →
  ∃ t th c s1,
    wthreads s !! t = Some th ∧ w_client th = p ∧
    w_key th = reg_key g cid ∧
    clients s !! p = Some c ∧ clientWs c = w_conn th ∧
    kickClient g cid s = (s1, 200%Z) ∧
    s1 = upd_conn (w_conn th) conn_close s ∧
    conn_closed <$> conns s1 !! w_conn th = Some true ∧
    hlSyncMap s1 = hlSyncMap s ∧ wthreads s1 = wthreads s ∧
    kickClient g cid s1 = (s1, 200%Z) ∧
    (∀ ls s2 th2,
       run s1 ls = Some s2 →
       wthreads s2 !! t = Some th2 → w_pc th2 = W_Read →
       ∀ ev,
         ∃ s5, run s2 [WStep t (WI_read ev); WStep t WI_run; WStep t WI_run;
                       WStep t WI_run] = Some s5 ∧
           wthreads s5 !! t = Some (w_at W_Done th2) ∧
           hlSyncMap s5 !! reg_key g cid = None ∧
           kickClient g cid s5 = (s5, 404%Z)).
Proof.
  intros Hreach Hg Hcid Hk.
  destruct (reachable_registry_inv s Hreach _ p Hk)
    as (t & th & c & cn & Ht & Hp & Hkey & Hpc & Hc & _ & _ & Hws & Hcn).
  set (s1 := upd_conn (w_conn th) conn_close s).
  assert (Hne : ¬ (g = "" ∨ cid = "")) by (intros [?|?]; done).
  assert (Hcn1 : conns s1 !! w_conn th = Some (conn_close cn)).
  { unfold s1. fields. by rewrite list_lookup_alter_eq, Hcn. }
  exists t, th, c, s1. repeat split; try done.
  - unfold kickClient. rewrite decide_False, Hk, Hc, Hws by done. done.
  - by rewrite Hcn1.
  - unfold kickClient. rewrite decide_False by done.
    change (hlSyncMap s1) with (hlSyncMap s).
    change (clients s1) with (clients s). rewrite Hk, Hc, Hws.
    f_equal. unfold s1. fields. f_equal.
    apply list_eq. intros j. rewrite !list_lookup_alter.
    case_decide; [subst j|done]. rewrite decide_True by done.
    by destruct (conns s !! w_conn th).
  - intros ls s2 th2 Hrun Ht2 Hread ev.
    assert (Hc1 : clients s1 !! w_client th = Some c) by by rewrite Hp.
    destruct (run_after_close s1 s2 ls t th c (conn_close cn) Hrun Ht Hc1
                Hcn1 eq_refl)
      as (th' & c2 & cn2 & Ht' & E1 & E2 & E3 & E4 & Hc2 & Hcn2 & Hcl2).
    rewrite Ht2 in Ht'. injection Ht' as <-.
    destruct (teardown_from_read s2 t th2 c2 cn2 ev Ht2 Hread)
      as (s5 & Hrun5 & Hreg & _ & _ & Hth);
      [by rewrite E1|by rewrite E4|by right|].
    assert (Hgone : hlSyncMap s5 !! reg_key g cid = None).
    { rewrite Hreg. unfold w_key. rewrite E2, E3. fold (w_key th).
      rewrite Hkey. apply lookup_delete_eq. }
    exists s5. repeat split; try done.
    unfold kickClient. by rewrite decide_False, Hgone by done.
Qed.

(** *** A read loop parked on the nil channel *)

Lemma step_keeps_lock (s s' : State) (l : Label) :
  mstep s l = Some s' → rwMu s = true →
  match l with
  | WStep _ _ => True
  | _ => rwMu s' = true
  end.
Proof.
  intros Hstep Hmu.
  destruct l as [g cid ip u now|t i|t i|g cid a prm rnd|t i|g cid];
    simpl in Hstep; try done.
  - injection Hstep as <-. unfold ws_connect. by case_decide.
  - unfold h_step in Hstep. step_cases; done.
  - injection Hstep as <-. unfold getResult. repeat case_match; done.
  - unfold g_step in Hstep.
    destruct (gthreads s !! t) as [th|]; [simpl in Hstep|done].
    destruct (clients s !! g_client th) as [c0|] eqn:Hc0; [simpl in Hstep|done].
    rewrite Hmu in Hstep.
    destruct (g_pc th), i; try done; step_cases; done.
  - injection Hstep as <-. unfold kickClient. repeat case_match; done.
Qed.

Lemma w_step_locked (s s' : State) (t : nat) (i : WInput) (th : WThread) :
  wstep t i s = Some s' → rwMu s = true → wthreads s !! t = Some th →
  (∀ msg, w_pc th ≠ W_Parked None msg) ∧
  ((∀ ch m, w_pc th ≠ W_Parked ch m) →
   rwMu s' = true ∧
   ∃ th', wthreads s' = <[t := th']> (wthreads s) ∧
          ∀ ch m, w_pc th' ≠ W_Parked ch m).
Proof.
  intros Hstep Hmu Ht. unfold w_step, deliver in Hstep.
  rewrite Ht in Hstep. simpl in Hstep.
  destruct (clients s !! w_client th) as [c0|] eqn:Hc0; [simpl in Hstep|done].
  rewrite Hmu in Hstep.
  assert (Hal : ∀ f, alter f t (wthreads s) = <[t := f th]> (wthreads s)).
  { intros f. apply list_eq. intros j.
    rewrite list_lookup_alter, list_lookup_insert.
    case_decide; subst;
      [rewrite Ht, decide_True by (split; [done|by eapply lookup_lt_Some])
      |rewrite decide_False by (intros [? ?]; done)]; done. }
  assert (Hid : wthreads s = <[t := th]> (wthreads s))
    by by rewrite list_insert_id.
  split.
  - intros msg Hpc. rewrite Hpc in Hstep. by destruct i.
  - intros Hnp.
    destruct (w_pc th) eqn:Hpc, i; try done; step_cases; fields;
      try (by exfalso; eapply Hnp);
      (split; [done|]);
      first [ by (eexists; split; [apply Hal|]; simpl; done)
            | by (exists th; split; [apply Hid|]; rewrite Hpc; done) ].
Qed.

Lemma parked_on_nil_step (s s' : State) (l : Label) (t : nat) :
  parked_on_nil s t → mstep s l = Some s' → parked_on_nil s' t.
Proof.
  intros (Hmu & (th & msg & Ht & Hpc) & Huniq) Hstep.
  pose proof (step_keeps_lock _ _ _ Hstep Hmu) as Hlock.
  pose proof (step_keeps_registry _ _ _ Hstep) as Hkeep.
  destruct l as [g cid ip u now|t0 i|t0 i|g cid a prm rnd|t0 i|g cid];
    [| |destruct Hkeep as [_ Hw]; unfold parked_on_nil; rewrite Hw;
         eauto 10 ..].
  - simpl in Hstep. injection Hstep as <-.
    split; [done|]. unfold ws_connect in *.
    case_decide; [eauto 10|]. fields. split.
    + exists th, msg. by rewrite lookup_app_l_Some with (x := th).
    + intros t' th' ch m Ht' Hpc'.
      apply lookup_app_Some in Ht' as [Ht'|[_ Ht']]; [by eapply Huniq|].
      apply list_lookup_singleton_Some in Ht' as [_ <-]. done.
  - simpl in Hstep.
    destruct (wthreads s !! t0) as [th0|] eqn:Ht0;
      [|unfold w_step in Hstep; by rewrite Ht0 in Hstep].
    destruct (w_step_locked _ _ _ _ _ Hstep Hmu Ht0) as [Hnil Hother].
    assert (Hne : t0 ≠ t).
    { intros ->. assert (th0 = th) as -> by congruence. by eapply Hnil. }
    destruct Hother as (Hmu' & th0' & Hw & Hnp).
    { intros ch m Hp. apply Hne. by eapply Huniq. }
    split; [done|]. rewrite Hw. split.
    + exists th, msg. by rewrite list_lookup_insert_ne.
    + intros t' th' ch m Ht' Hpc'.
      destruct (decide (t' = t0)) as [->|Hne'].
      * rewrite list_lookup_insert_eq in Ht' by by eapply lookup_lt_Some.
        injection Ht' as <-. by eapply Hnp in Hpc'.
      * rewrite list_lookup_insert_ne in Ht' by done. by eapply Huniq.
Qed.

Lemma parked_on_nil_forever (s s' : State) (ls : list Label) (t : nat) :
  parked_on_nil s t → run s ls = Some s' → parked_on_nil s' t.
Proof.
  revert s. induction ls as [|l ls IH]; intros s Hp Hrun; simpl in Hrun.
  - by injection Hrun as <-.
  - destruct (mstep s l) as [s1|] eqn:Hs1; [simpl in Hrun|done].
    eapply IH; [|done]. by eapply parked_on_nil_step.
Qed.



End Properties.

(** ** The slot of a call: stored before the send, removed by the cleanup *)

Lemma slot_inserted_before_send (jm : Message → option string) (s : State)
    (t : nat) (th : GThread) (c : Clients)
    (inner : gmap string nat) :
  gthreads s !! t = Some th → clients s !! g_client th = Some c →
  g_pc th = G_Insert → rwMu s = false →
  actionData c !! g_funcName th = Some inner →
  ∃ s' c',
    g_step jm t GI_run s = Some s' ∧
    clients s' !! g_client th = Some c' ∧
    readFromMap c' (g_funcName th) (g_MessageId th)
    = Some (length (chans s)) ∧
    chans s' !! length (chans s) = Some (make_chan 1) ∧
    conns s' = conns s ∧
    gthreads s' !! t = Some (g_at G_Send th).
Proof.
  intros Ht Hc Hpc Hmu Hin. unfold g_step. rewrite Ht.
  cbn [mbind option_bind]. rewrite Hc. cbn [mbind option_bind].
  rewrite Hpc, Hmu, Hin. eexists _, _. split; [reflexivity|]. fields.
  rewrite !list_lookup_alter_eq, Hc, Ht. cbn [fmap option_fmap option_map].
  split; [reflexivity|]. split.
  { unfold readFromMap. cbn [actionData set_actionData].
    rewrite lookup_insert_eq. cbn [mbind option_bind].
    by rewrite lookup_insert_eq. }
  split; [|done]. by rewrite lookup_app_r, Nat.sub_diag.
Qed.

Lemma cleanup_removes_slot (jm : Message → option string) (s : State)
    (t : nat) (th : GThread) (c : Clients) (pn : bool) :
  gthreads s !! t = Some th → clients s !! g_client th = Some c →
  g_pc th = G_Cleanup pn → rwMu s = false →
  ∃ s' c',
    g_step jm t GI_run s = Some s' ∧
    clients s' !! g_client th = Some c' ∧
    readFromMap c' (g_funcName th) (g_MessageId th) = None ∧
    (∀ ch rc, readFromMap c (g_funcName th) (g_MessageId th) = Some ch →
              chans s !! ch = Some rc →
              chans s' !! ch = Some (chan_close_recover rc)) ∧
    gthreads s' !! t = Some (g_at (G_CloseRes pn) th).
Proof.
  intros Ht Hc Hpc Hmu.
  rewrite (g_cleanup_step jm s t th c Ht Hc pn Hpc Hmu).
  unfold readFromMap.
  destruct (actionData c !! g_funcName th) as [inner|] eqn:Hin;
    cbn [mbind option_bind];
    [destruct (inner !! g_MessageId th) as [ch|] eqn:Hch|].
  - eexists _, _. split; [reflexivity|]. fields.
    rewrite !list_lookup_alter_eq, Hc, Ht. cbn [fmap option_fmap option_map].
    split; [reflexivity|]. cbn [actionData set_actionData].
    rewrite lookup_insert_eq. cbn [mbind option_bind].
    rewrite lookup_delete_eq. repeat split.
    intros ch' rc Heq Hrc. injection Heq as <-.
    by rewrite list_lookup_alter_eq, Hrc.
  - exists (g_goto t (G_CloseRes pn) s), c. fields.
    rewrite list_lookup_alter_eq, Ht, Hc, Hin. cbn [mbind option_bind].
    repeat split; try done.
  - exists (g_goto t (G_CloseRes pn) s), c. fields.
    rewrite list_lookup_alter_eq, Ht, Hc, Hin. repeat split; done.
Qed.

(** A pending result on the channel the HTTP handler made, followed by the
    cleanup: the call ends with its slot removed, the channel of the slot
    closed, and the result, once, in the closed channel of the caller. *)
Lemma reply_then_cleanup (jm : Message → option string)
    (ju : string → option MessageResponse)
    (js : string → option (list string)) (s : State) (t : nat)
    (th : GThread) (c : Clients) (res : string) :
  gthreads s !! t = Some th → clients s !! g_client th = Some c →
  g_pc th = G_Reply res → rwMu s = false →
  chans s !! g_resChan th = Some (make_chan 1) →
  readFromMap c (g_funcName th) (g_MessageId th) ≠ Some (g_resChan th) →
  ∃ s' c',
    exec jm ju js s [GStep t GI_run; GStep t GI_run; GStep t GI_run]
    = Some s' ∧
    gthreads s' !! t = Some (g_at G_Done th) ∧
    chans s' !! g_resChan th = Some (mkChan [res] 1 true) ∧
    clients s' !! g_client th = Some c' ∧
    readFromMap c' (g_funcName th) (g_MessageId th) = None ∧
    (∀ ch rc, readFromMap c (g_funcName th) (g_MessageId th) = Some ch →
              chans s !! ch = Some rc →
              chans s' !! ch = Some (chan_close_recover rc)).
Proof.
  intros Ht Hc Hpc Hmu Hres Hne.
  set (s1 := g_goto t (G_Cleanup false)
               (upd_chan (g_resChan th)
                  (λ _, mkChan [res] 1 false) s)).
  assert (H1 : g_step jm t GI_run s = Some s1).
  { rewrite (g_reply_step jm s t th c Ht Hc res (make_chan 1)); try done.
    simpl; lia. }
  assert (Ht1 : gthreads s1 !! t = Some (g_at (G_Cleanup false) th))
    by exact (g_goto_thread (upd_chan _ _ s) t _ _ Ht).
  destruct (cleanup_removes_slot jm s1 t _ c false Ht1 Hc eq_refl Hmu)
    as (s2 & c2 & H2 & Hc2 & Hgone & Hclosed & Ht2).
  assert (Hres1 : chans s1 !! g_resChan th = Some (mkChan [res] 1 false)).
  { unfold s1. fields. by rewrite list_lookup_alter_eq, Hres. }
  assert (Hres2 : chans s2 !! g_resChan th = Some (mkChan [res] 1 false)).
  { rewrite (g_cleanup_step jm s1 t _ c Ht1 Hc false eq_refl Hmu) in H2.
    injection H2 as <-. cbn [g_funcName g_MessageId g_at g_client].
    unfold readFromMap in Hne.
    destruct (actionData c !! g_funcName th) as [inner|];
      cbn [mbind option_bind] in Hne; [|exact Hres1].
    destruct (inner !! g_MessageId th) as [ch|]; [|exact Hres1].
    fields. rewrite list_lookup_alter_ne by congruence. exact Hres1. }
  exists (g_goto t G_Done (upd_chan (g_resChan th) chan_close_recover s2)), c2.
  split.
  { cbn [exec step]. rewrite H1. cbn [mbind option_bind]. rewrite H2.
    cbn [mbind option_bind].
    by rewrite (g_closeres_step jm s2 t _ c2 Ht2 Hc2 false eq_refl). }
  split; [exact (g_goto_thread (upd_chan _ _ s2) t _ _ Ht2)|].
  split; [fields; by rewrite list_lookup_alter_eq, Hres2|].
  split; [exact Hc2|]. split; [exact Hgone|].
  intros ch rc Hslot Hrc.
  assert (Hch : ch ≠ g_resChan th) by congruence.
  fields. rewrite list_lookup_alter_ne by congruence.
  apply (Hclosed ch rc Hslot).
  unfold s1. fields. by rewrite list_lookup_alter_ne by congruence.
Qed.

(** ** Frames without a slot *)

(** A decoded frame that is not an announcement and has no slot under
    (action, message_id) is dropped: the handler is back in ReadMessage and
    nothing else has changed. *)
Lemma unmatched_reply_dropped (jm : Message → option string)
    (ju : string → option MessageResponse)
    (js : string → option (list string)) (s : State) (t : nat)
    (th : WThread) (c : Clients) (cn : Conn) (m : string)
    (r : MessageResponse) :
  wthreads s !! t = Some th → w_pc th = W_Read →
  clients s !! w_client th = Some c →
  conns s !! w_conn th = Some cn → conn_closed cn = false →
  rwMu s = false →
  ju m = Some r → is_announcement r = false →
  readFromMap c (rAction r) (rMessageId r) = None →
  exec jm ju js s [WStep t (WI_read (RE_message m)); WStep t WI_run] = Some s.
Proof.
  intros Ht Hpc Hc Hcn Hopen Hmu Hr Hann Hslot.
  assert (Ht1 : wthreads (w_goto t (W_Lookup r) s) !! t
                = Some (w_at (W_Lookup r) th)) by by apply w_goto_thread.
  assert (H1 : w_step ju js t (WI_read (RE_message m)) s
               = Some (w_goto t (W_Lookup r) s)).
  { unfold w_step. rewrite Ht. cbn [mbind option_bind].
    rewrite Hc. cbn [mbind option_bind]. rewrite Hpc, Hcn.
    cbn [mbind option_bind]. by rewrite Hopen, Hr, Hann. }
  assert (H2 : w_step ju js t WI_run (w_goto t (W_Lookup r) s)
               = Some (w_goto t W_Read (w_goto t (W_Lookup r) s))).
  { unfold w_step. rewrite Ht1. cbn [mbind option_bind w_client w_at].
    change (clients (w_goto t (W_Lookup r) s)) with (clients s). rewrite Hc.
    cbn [mbind option_bind w_pc w_at].
    change (rwMu (w_goto t (W_Lookup r) s)) with (rwMu s).
    by rewrite Hmu, Hslot. }
  cbn [exec step]. rewrite H1. cbn [mbind option_bind]. rewrite H2.
  cbn [mbind option_bind]. f_equal.
  destruct s as [reg mu cl ch cns gts wts hts]. fields. f_equal.
  cbn [wthreads] in Ht. apply list_eq. intros j.
  rewrite !list_lookup_alter. case_decide; [subst j|done].
  rewrite decide_True by done. rewrite Ht.
  destruct th. cbn [w_pc] in Hpc. subst. reflexivity.
Qed.

(** * The program on concrete runs *)

(** The states named above are the states their runs end in. *)
Lemma demo_states_reached :
  demo_exec init boot = Some s_open ∧
  demo_exec init [Connect "g" "A" "10.0.0.1" "uuid-0" 100] = Some s_stored ∧
  demo_exec init to_wait = Some s_wait ∧
  demo_exec s_wait
    [WStep 0 (WI_read (RE_message wire_reply)); WStep 0 WI_run;
     WStep 0 WI_run] = Some s_replied ∧
  demo_exec init clobber = Some s_clobbered ∧
  demo_exec init to_written = Some s_written ∧
  demo_exec s_written [GStep 0 GI_run] = Some s_wait ∧
  demo_exec init to_blocked = Some s_blocked ∧
  demo_exec s_open [Kick "g" "A"] = Some s_kicked ∧
  demo_exec s_wait late_reply = Some s_parked ∧
  demo_exec s_parked [Kick "g" "A"] = Some s_parked_kicked.
Proof. vm_compute. repeat split; reflexivity. Qed.

Lemma s_parked_on_nil : parked_on_nil s_parked 0.
Proof.
  split; [reflexivity|]. split.
  - eexists _, _. split; reflexivity.
  - intros [|t'] th' ch m Ht' _; [done|]. by destruct t'.
Qed.

(** The read loop of [s_parked] never leaves writeToMap and the write lock
    is never released, whatever happens afterwards. *)
Lemma s_parked_forever (ls : list Label) (s' : State) :
  demo_exec s_parked ls = Some s' → parked_on_nil s' 0.
Proof. apply parked_on_nil_forever, s_parked_on_nil. Qed.

(** C2 (code at the failing input).  The explicit-id branch of
    getRandomClient looks the session up under the text
    [group + "->" + clientId] and returns what it finds.  The session that
    connected as group [a->b], id [c] is stored under [a->b->c], which is
    also the key of group [a], id [b->c]: asked for group [a], the function
    returns a session whose clientGroup is [a->b]. *)
Theorem getRandomClient_crosses_groups :
  demo_exec init [Connect "a->b" "c" "10.0.0.2" "uuid-0" 7] = Some s_collide ∧
  getRandomClient first_candidate "a" "b->c" s_collide = Some 0 ∧
  clientGroup <$> clients s_collide !! 0 = Some "a->b" ∧
  clientId <$> clients s_collide !! 0 = Some "c".
Proof. vm_compute. repeat split; reflexivity. Qed.

(** C3 (code at the failing input).  Two GQueryFunc calls on the same
    session and action are handed the same UUID.  Each runs the test of
    line 38 under the read lock and finds no slot; the first then stores its
    slot (channel 3); the second stores its own (channel 4) under the id
    where a slot now exists.  Both calls are outstanding with the same
    correlation id and the slot of the first is gone from the table. *)
Theorem concurrent_calls_share_id :
  demo_exec init race_ids = Some s_race_pre ∧
  g_pc <$> gthreads s_race_pre !! 1 = Some G_Insert ∧
  (λ c, readFromMap c "act" "id") <$> clients s_race_pre !! 0
  = Some (Some 3) ∧
  demo_exec s_race_pre [GStep 1 GI_run] = Some s_race ∧
  (λ c, readFromMap c "act" "id") <$> clients s_race !! 0 = Some (Some 4) ∧
  gthreads s_race
  = [mkGThread 0 "act" "p" 1 "10.0.0.1" "id" G_Send;
     mkGThread 0 "act" "q" 2 "10.0.0.1" "id" G_Send].
Proof. vm_compute. repeat split; reflexivity. Qed.

(** C4 (code at the failing input).  WriteMessage panics in a call whose
    slot is stored.  The deferred cleanup runs first: it removes the slot,
    closes its channel (2) and closes resChan (1).  The recover handler then
    sends the failure text on the closed resChan, which panics again and is
    swallowed.  The call ends with the slot removed and resChan closed and
    empty: no result was delivered, the caller's receive yields the zero
    value. *)
Theorem panic_loses_result :
  demo_exec init to_panic = Some s_panicking ∧
  g_pc <$> gthreads s_panicking !! 0 = Some (G_Cleanup true) ∧
  (λ c, readFromMap c "act" "id") <$> clients s_panicking !! 0
  = Some (Some 2) ∧
  demo_exec s_panicking [GStep 0 GI_run; GStep 0 GI_run; GStep 0 GI_run]
  = Some s_panicked ∧
  g_pc <$> gthreads s_panicked !! 0 = Some G_Done ∧
  (λ c, readFromMap c "act" "id") <$> clients s_panicked !! 0 = Some None ∧
  chans s_panicked !! 2 = Some (mkChan [] 1 true) ∧
  chans s_panicked !! 1 = Some (mkChan [] 1 true) ∧
  chan_recv (mkChan [] 1 true) = Received "" (mkChan [] 1 true).
Proof. vm_compute. repeat split; reflexivity. Qed.

(** C5 (code at the failing input).  A reply arrives while its call times
    out.  The read loop finds the slot at line 197; the call's timeout fires
    and its cleanup deletes the slot and closes the channel; writeToMap then
    takes the write lock and indexes the table again, gets the nil channel,
    and its send blocks for good with the lock held: the read loop is parked
    (not recovered), and the lock is taken from every other goroutine. *)
Theorem late_reply_parks_read_loop :
  demo_exec init to_wait = Some s_wait ∧
  demo_exec s_wait late_reply = Some s_parked ∧
  w_pc <$> wthreads s_parked !! 0 = Some (W_Parked None "x") ∧
  rwMu s_parked = true ∧
  parked_on_nil s_parked 0.
Proof.
  split; [vm_compute; reflexivity|]. split; [vm_compute; reflexivity|].
  split; [reflexivity|]. split; [reflexivity|]. apply s_parked_on_nil.
Qed.

(** ** Witnesses *)


Lemma announcement_replaces_capabilities_witness :
  ∃ s' c',
    w_step demo_unmarshal_response demo_unmarshal_strings 0
      (WI_read (RE_message wire_announce)) s_open = Some s' ∧
    clients s' !! 0 = Some c' ∧
    registeredActions c' = ["dom"; "cookie"] ∧
    failCount c' = 0%Z ∧ isHealthy c' = true ∧
    chans s' = chans s_open ∧ wthreads s' = wthreads s_open.
Proof.
  edestruct (announcement_replaces_capabilities demo_unmarshal_response
               demo_unmarshal_strings s_open 0
               (mkWThread "g" "A" "10.0.0.1" 0 0 (Some 0) W_Read)
               (NewClient "g" "A" 0 "10.0.0.1" 100)
               (mkConn false [TextFrame (clientNameJson "A")]) wire_announce
               (mkMessageResponse "_registerActions" "" actions_text))
    as (s' & c' & H1 & H2 & H3 & _ & H5 & H6 & _ & H8 & _ & _ & H11 & _);
    [reflexivity..|].
  exists s', c'. split; [exact H1|]. split; [exact H2|].
  split; [exact H3|]. split; [exact H5|]. split; [exact H6|].
  split; [exact H8|exact H11].
Defined.

Lemma heartbeat_scoring_witness :
  (∃ s' c', h_step 0 (HI_tick false) s_open = Some s' ∧
     clients s' !! 0 = Some c' ∧ isHealthy c' = false ∧ failCount c' = 0%Z) ∧
  (∃ s' c', w_step demo_unmarshal_response demo_unmarshal_strings 0
              (WI_read (RE_pong 115)) s_open = Some s' ∧
     clients s' !! 0 = Some c' ∧ lastPingTime c' = 115%Z ∧
     failCount c' = 0%Z ∧ isHealthy c' = true) ∧
  (∃ t th ch, gthreads s_wait !! t = Some th ∧ g_client th = 0 ∧
     g_pc th = G_Wait ch).
Proof.
  destruct (heartbeat_scoring demo_marshal demo_unmarshal_response
              demo_unmarshal_strings) as (Hhb & Hpong & Honly).
  split; [|split].
  - edestruct (Hhb s_open 0) as (s' & c' & H1 & _ & H3 & H4 & H5);
      [reflexivity..|left; reflexivity|].
    exists s', c'. split; [exact H1|]. split; [exact H3|].
    split; [exact H4|]. rewrite H5. reflexivity.
  - edestruct (Hpong s_open 0
                 (mkWThread "g" "A" "10.0.0.1" 0 0 (Some 0) W_Read)
                 (NewClient "g" "A" 0 "10.0.0.1" 100)
                 (mkConn false [TextFrame (clientNameJson "A")]) 115%Z)
      as (s' & c' & H1 & _ & H3 & H4 & H5 & H6); [reflexivity..|].
    exists s', c'. split; [exact H1|]. split; [exact H3|].
    split; [rewrite H4; reflexivity|].
    split; [rewrite H5; reflexivity|rewrite H6; reflexivity].
  - edestruct (Honly s_wait) with (l := GStep 0 GI_timeout) (p := 0)
      as (t & th & ch & H1 & H2 & H3 & _);
      [vm_compute; reflexivity|reflexivity|reflexivity
      |vm_compute; discriminate|].
    exists t, th, ch. split; [exact H1|]. split; [exact H2|exact H3].
Defined.

Lemma lookup_missing_slot_witness :
  ∃ s4,
    demo_exec s_clobbered
      [GStep 0 GI_run; GStep 0 GI_run; GStep 0 GI_run; GStep 0 GI_run]
    = Some s4 ∧
    chans s4 !! 1 = Some (mkChan ["消息ID对应的管道不存在"] 1 true) ∧
    clients s4 = clients s_clobbered.
Proof.
  edestruct (lookup_missing_slot demo_marshal demo_unmarshal_response
               demo_unmarshal_strings s_clobbered 0)
    as (s1 & s2 & s4 & H1 & _ & H3 & _ & _ & H6 & _ & H8 & H9 & _);
    [reflexivity..|].
  exists s4. split; [|split; [exact H8|exact H9]].
  unfold demo_exec. cbn [exec step]. rewrite H1. cbn [mbind option_bind].
  rewrite H3. cbn [mbind option_bind]. exact H6.
Defined.

Lemma registry_entry_lifetime_witness :
  hlSyncMap (ws_connect "g" "A" "10.0.0.1" "uuid-0" 100 init) !! reg_key "g" "A"
  = Some 0 ∧
  (∃ s', demo_exec s_stored
           [WStep 0 (WI_ack WriteErr); WStep 0 WI_run; WStep 0 WI_run]
         = Some s' ∧
     hlSyncMap s' !! reg_key "g" "A" = None) ∧
  (∃ s', demo_exec s_open
           [WStep 0 (WI_read RE_error); WStep 0 WI_run; WStep 0 WI_run;
            WStep 0 WI_run] = Some s' ∧
     hlSyncMap s' !! reg_key "g" "A" = None) ∧
  (∃ s', demo_exec s_kicked
           [WStep 0 (WI_read (RE_pong 7)); WStep 0 WI_run; WStep 0 WI_run;
            WStep 0 WI_run] = Some s' ∧
     hlSyncMap s' !! reg_key "g" "A" = None) ∧
  (kickClient "g" "A" s_open = (s_kicked, 200%Z) ∧
   conn_closed <$> conns s_kicked !! 0 = Some true ∧
   hlSyncMap s_kicked !! reg_key "g" "A" = Some 0) ∧
  (∃ t th, wthreads s_open !! t = Some th ∧ w_client th = 0 ∧
     w_key th = reg_key "g" "A" ∧ w_pc th ≠ W_Done).
Proof.
  destruct (registry_entry_lifetime demo_marshal demo_unmarshal_response
              demo_unmarshal_strings) as (Hadd & Hack & Hread & Hkick & Hinv).
  split; [|split; [|split; [|split; [|split]]]].
  - refine (proj1 (Hadd init "g" "A" "10.0.0.1" "uuid-0" 100%Z _)).
    discriminate.
  - edestruct (Hack s_stored 0
                 (mkWThread "g" "A" "10.0.0.1" 0 0 None W_Ack)
                 (NewClient "g" "A" 0 "10.0.0.1" 100)
                 (mkConn false []) WriteErr) as (s' & H1 & H2 & _);
      [reflexivity..|left; discriminate|].
    exists s'. split; [exact H1|]. rewrite H2. apply lookup_delete_eq.
  - edestruct (Hread s_open 0
                 (mkWThread "g" "A" "10.0.0.1" 0 0 (Some 0) W_Read)
                 (NewClient "g" "A" 0 "10.0.0.1" 100)
                 (mkConn false [TextFrame (clientNameJson "A")]) RE_error)
      as (s' & H1 & H2 & _);
      [reflexivity..|left; reflexivity|].
    exists s'. split; [exact H1|]. rewrite H2. apply lookup_delete_eq.
  - edestruct (Hread s_kicked 0
                 (mkWThread "g" "A" "10.0.0.1" 0 0 (Some 0) W_Read)
                 (NewClient "g" "A" 0 "10.0.0.1" 100)
                 (mkConn true [TextFrame (clientNameJson "A")])
                 (RE_pong 7))
      as (s' & H1 & H2 & _);
      [reflexivity..|right; reflexivity|].
    exists s'. split; [exact H1|]. rewrite H2. apply lookup_delete_eq.
  - edestruct (Hkick s_open "g" "A" 0)
      as (c & cn & Hc & Hcn & H200 & Hclosed & Hreg);
      [exists boot; vm_compute; reflexivity|discriminate|discriminate
      |reflexivity|].
    split; [reflexivity|]. split; [reflexivity|].
    change s_kicked with (kickClient "g" "A" s_open).1.
    rewrite Hreg. reflexivity.
  - apply (Hinv s_open (reg_key "g" "A") 0); [|reflexivity].
    exists boot. vm_compute. reflexivity.
Defined.

Lemma kick_then_teardown_witness :
  (∃ s1, kickClient "g" "A" s_open = (s1, 200%Z) ∧
         kickClient "g" "A" s1 = (s1, 200%Z) ∧
         ∃ s5, demo_exec s1
                 [WStep 0 (WI_read (RE_message wire_reply)); WStep 0 WI_run;
                  WStep 0 WI_run; WStep 0 WI_run] = Some s5 ∧
               kickClient "g" "A" s5 = (s5, 404%Z)) ∧
  (∃ s1 s2 s5,
     w_pc <$> wthreads s_frame_read !! 0
     = Some (W_Lookup (mkMessageResponse "act" "id" "x")) ∧
     kickClient "g" "A" s_frame_read = (s1, 200%Z) ∧
     demo_exec s1 [WStep 0 WI_run; WStep 0 WI_run] = Some s2 ∧
     demo_exec s2
       [WStep 0 (WI_read (RE_pong 7)); WStep 0 WI_run; WStep 0 WI_run;
        WStep 0 WI_run] = Some s5 ∧
     kickClient "g" "A" s5 = (s5, 404%Z)).
Proof.
  split.
  - edestruct (kick_then_teardown demo_marshal demo_unmarshal_response
                 demo_unmarshal_strings s_open "g" "A" 0)
      as (t & th & c & s1 & Ht & _ & _ & _ & _ & Hk1 & _ & _ & _ & Hw & Hk2
          & Hread);
      [exists boot; vm_compute; reflexivity|discriminate|discriminate
      |reflexivity|].
    exists s1. split; [exact Hk1|]. split; [exact Hk2|].
    assert (Ht0 : t = 0).
    { destruct t as [|t]; [reflexivity|]. destruct t; discriminate Ht. }
    subst t.
    destruct (Hread [] s1 th eq_refl) with (ev := RE_message wire_reply)
      as (s5 & H1 & _ & _ & H4).
    + rewrite Hw. exact Ht.
    + injection Ht as <-. reflexivity.
    + exists s5. split; [exact H1|exact H4].
  - edestruct (kick_then_teardown demo_marshal demo_unmarshal_response
                 demo_unmarshal_strings s_frame_read "g" "A" 0)
      as (t & th & c & s1 & Ht & _ & _ & _ & _ & Hk1 & _ & _ & _ & _ & _
          & Hread);
      [exists (to_wait ++ [WStep 0 (WI_read (RE_message wire_reply))]);
       vm_compute; reflexivity|discriminate|discriminate|reflexivity|].
    assert (Ht0 : t = 0).
    { destruct t as [|t]; [reflexivity|]. destruct t; discriminate Ht. }
    subst t.
    assert (Hs1 : s1 = (kickClient "g" "A" s_frame_read).1)
      by (rewrite Hk1; reflexivity).
    vm_compute in Hs1.
    destruct (demo_exec s1 [WStep 0 WI_run; WStep 0 WI_run]) as [s2|] eqn:H2;
      [|subst s1; vm_compute in H2; discriminate H2].
    destruct (Hread [WStep 0 WI_run; WStep 0 WI_run] s2
                (default th (wthreads s2 !! 0)) H2)
      with (ev := RE_pong 7) as (s5 & H1 & _ & _ & H4).
    + subst s1. vm_compute in H2. injection H2 as <-. reflexivity.
    + subst s1. vm_compute in H2. injection H2 as <-. reflexivity.
    + exists s1, s2, s5. split; [reflexivity|]. split; [exact Hk1|].
      split; [exact H2|]. split; [exact H1|exact H4].
Defined.

(** ** Counterexamples to the specification's wording *)

Lemma demo_reachable (ls : list Label) (s : State) :
  demo_exec init ls = Some s →
  reachable demo_marshal demo_unmarshal_response demo_unmarshal_strings s.
Proof. intros H. by exists ls. Qed.



(** C7 as worded.  After the Store of line 131 and before the write of line
    134 the registry holds the session, and nothing was written to it.  And
    after a kick the socket of the session is closed while its entry is
    still in the registry: the entry goes when the handler has seen the
    failed read. *)
Lemma entry_before_handshake_and_after_close :
  ¬ registered_after_handshake
      (reachable demo_marshal demo_unmarshal_response demo_unmarshal_strings)
  ∧ ¬ entry_socket_open
      (reachable demo_marshal demo_unmarshal_response demo_unmarshal_strings).
Proof.
  split.
  - intros H.
    destruct (H s_stored (reg_key "g" "A") 0) as (c & cn & Hc & Hcn & Hin).
    + apply (demo_reachable [Connect "g" "A" "10.0.0.1" "uuid-0" 100]).
      vm_compute. reflexivity.
    + reflexivity.
    + vm_compute in Hc. injection Hc as <-. vm_compute in Hcn.
      injection Hcn as <-. by apply elem_of_nil in Hin.
  - intros H.
    assert (Hr : reachable demo_marshal demo_unmarshal_response
                   demo_unmarshal_strings s_kicked).
    { apply (demo_reachable (boot ++ [Kick "g" "A"])). vm_compute.
      reflexivity. }
    specialize (H s_kicked (reg_key "g" "A") 0
                  (NewClient "g" "A" 0 "10.0.0.1" 100)
                  (mkConn true [TextFrame (clientNameJson "A")])
                  Hr eq_refl eq_refl eq_refl).
    discriminate H.
Qed.

(** C9 as worded.  A second kick that arrives before the read loop has torn
    the session down finds the entry and answers 200 again.  And a kick on a
    session whose read loop is parked inside writeToMap closes the socket,
    but that loop never reads again and never ends. *)
Lemma second_kick_succeeds_and_parked_loop_stays :
  ¬ second_kick_not_found
      (reachable demo_marshal demo_unmarshal_response demo_unmarshal_strings)
  ∧ ¬ kick_ends_session demo_exec
      (reachable demo_marshal demo_unmarshal_response demo_unmarshal_strings).
Proof.
  split.
  - intros H.
    assert (Hr : reachable demo_marshal demo_unmarshal_response
                   demo_unmarshal_strings s_open)
      by (apply (demo_reachable boot); vm_compute; reflexivity).
    specialize (H s_open "g" "A" Hr eq_refl). vm_compute in H.
    discriminate H.
  - intros H.
    assert (Hr : reachable demo_marshal demo_unmarshal_response
                   demo_unmarshal_strings s_parked)
      by (apply (demo_reachable (to_wait ++ late_reply)); vm_compute;
          reflexivity).
    destruct (H s_parked "g" "A" 0 0 _ Hr eq_refl eq_refl eq_refl eq_refl)
      as (ls & s' & th' & Hrun & Ht & Hpc & _).
    assert (Hp : parked_on_nil (kickClient "g" "A" s_parked).1 0).
    { apply (parked_on_nil_step demo_marshal demo_unmarshal_response
               demo_unmarshal_strings s_parked _ (Kick "g" "A"));
        [apply s_parked_on_nil|reflexivity]. }
    destruct (parked_on_nil_forever _ _ _ _ _ _ _ Hp Hrun)
      as (_ & (th & msg & Ht' & Hpc') & _).
    rewrite Ht in Ht'. injection Ht' as <-. rewrite Hpc in Hpc'.
    discriminate Hpc'.
Qed.

(** * Further properties of the program *)

(** ** The shape of the registry and the draw of the load balancer *)

Section RegistryShape.
Context (json_marshal : Message → option string).
Context (json_unmarshal_response : string → option MessageResponse).
Context (json_unmarshal_strings : string → option (list string)).

Local Abbreviation gstep := (g_step json_marshal).
Local Abbreviation wstep :=
  (w_step json_unmarshal_response json_unmarshal_strings).
Local Abbreviation mstep :=
  (step json_marshal json_unmarshal_response json_unmarshal_strings).
Local Abbreviation run :=
  (exec json_marshal json_unmarshal_response json_unmarshal_strings).
Local Abbreviation reach :=
  (reachable json_marshal json_unmarshal_response json_unmarshal_strings).

Lemma step_heap_lengths (s s' : State) (l : Label) :
  mstep s l = Some s' →
  match l with
  | Connect _ _ _ _ _ => True
  | _ => length (clients s') = length (clients s) ∧
         length (conns s') = length (conns s)
  end.
Proof.
  intros Hstep.
  destruct l as [g cid ip u now|t i|t i|g cid a prm rnd|t i|g cid];
    simpl in Hstep; try done.
  - unfold w_step, deliver in Hstep.
    destruct (wthreads s !! t) as [th|]; [simpl in Hstep|done].
    destruct (clients s !! w_client th) as [c0|] eqn:Hc0; [simpl in Hstep|done].
    destruct (w_pc th), i; try done; step_cases; fields;
      rewrite ?length_alter; done.
  - unfold h_step in Hstep. step_cases; fields; rewrite ?length_alter; done.
  - injection Hstep as <-. unfold getResult. repeat case_match; done.
  - unfold g_step in Hstep.
    destruct (gthreads s !! t) as [th|]; [simpl in Hstep|done].
    destruct (clients s !! g_client th) as [c0|] eqn:Hc0; [simpl in Hstep|done].
    destruct (g_pc th), i; try done; step_cases; fields;
      rewrite ?length_alter; done.
  - injection Hstep as <-. unfold kickClient.
    repeat case_match; fields; rewrite ?length_alter; done.
Qed.

Lemma aligned_step (s s' : State) (l : Label) :
  aligned s → mstep s l = Some s' → aligned s'.
Proof.
  intros (Hcl & Hcn & Hth) Hstep.
  pose proof (step_heap_lengths _ _ _ Hstep) as Hlen.
  pose proof (step_keeps_registry _ _ _ _ _ _ Hstep) as Hkeep.
  destruct l as [g cid ip u now|t i|t i|g cid a prm rnd|t i|g cid];
    [| |destruct Hkeep as [_ Hw]; destruct Hlen as [H1 H2];
        unfold aligned; rewrite Hw, H1, H2; done ..].
  - simpl in Hstep. injection Hstep as <-. unfold ws_connect.
    case_decide; [done|]. unfold aligned. fields.
    rewrite !length_app, Hcl, Hcn. simpl. split; [done|]. split; [done|].
    intros t0 th0 Ht0. apply lookup_app_Some in Ht0 as [Ht0|[Hge Ht0]];
      [by apply Hth|].
    apply list_lookup_singleton_Some in Ht0 as [Ht0 <-]. simpl. lia.
  - simpl in Hstep. destruct Hlen as [H1 H2].
    destruct (w_step_thread _ _ _ _ _ _ Hstep)
      as (th & th' & Ht & Hw & Hc & _ & _ & Hconn & _).
    unfold aligned. rewrite Hw, H1, H2, length_insert.
    split; [done|]. split; [done|].
    intros t0 th0 Ht0. destruct (decide (t0 = t)) as [->|Hne].
    + rewrite list_lookup_insert_eq in Ht0 by by eapply lookup_lt_Some.
      injection Ht0 as <-. rewrite Hc, Hconn. by apply Hth.
    + rewrite list_lookup_insert_ne in Ht0 by done. by apply Hth.
Qed.

Lemma reachable_aligned (s : State) : reach s → aligned s.
Proof.
  apply reachable_ind.
  - split; [done|]. split; [done|]. intros t th Ht. cbn [init wthreads] in Ht. by rewrite lookup_nil in Ht.
  - intros s0 l s' _ Hinv Hstep. by eapply aligned_step.
Qed.

(** No two keys of the registry name the same session. *)
Lemma registry_injective (s : State) (k1 k2 : string) (p : nat) :
  reach s → hlSyncMap s !! k1 = Some p → hlSyncMap s !! k2 = Some p →
  k1 = k2.
Proof.
  intros Hr H1 H2.
  destruct (reachable_aligned s Hr) as (_ & _ & Hal).
  destruct (reachable_registry_inv _ _ _ s Hr k1 p H1)
    as (t1 & th1 & _ & _ & Ht1 & Hp1 & Hk1 & _).
  destruct (reachable_registry_inv _ _ _ s Hr k2 p H2)
    as (t2 & th2 & _ & _ & Ht2 & Hp2 & Hk2 & _).
  destruct (Hal _ _ Ht1) as [E1 _]. destruct (Hal _ _ Ht2) as [E2 _].
  assert (t1 = t2) by congruence. subst. congruence.
Qed.

(** *** The draw of the load balancer *)

Lemma range_values_NoDup (s : State) : reach s → NoDup (range_values s).*1.
Proof.
  intros Hr.
  assert (Hv : NoDup (map_to_list (hlSyncMap s)).*2).
  { apply NoDup_fmap_2_strong; [|apply NoDup_map_to_list].
    intros [k1 p1] [k2 p2] H1 H2 Heq. simpl in Heq. subst p2.
    apply elem_of_map_to_list in H1, H2.
    by rewrite (registry_injective s k1 k2 p1 Hr H1 H2). }
  unfold range_values. revert Hv.
  generalize (map_to_list (hlSyncMap s)). intros l.
  induction l as [|[k p] l IH]; intros Hnd; [constructor|].
  apply NoDup_cons in Hnd as [Hnotin Hnd]. simpl.
  destruct (clients s !! p) as [c|]; simpl; [|by apply IH].
  apply NoDup_cons. split; [|by apply IH].
  intros Hin. apply Hnotin. simpl.
  apply list_elem_of_fmap in Hin as ([q d] & -> & Hin).
  apply list_elem_of_omap in Hin as ([k' p'] & Hin & Hf). simpl in Hf.
  destruct (clients s !! p'); simplify_eq/=.
  apply list_elem_of_fmap. by exists (k', q).
Qed.

Lemma filter_both_nil {A} (P : A → bool) (l : list A) :
  filter (λ x, P x) l = [] → filter (λ x, negb (P x)) l = [] → l = [].
Proof.
  destruct l as [|x l]; [done|]. rewrite !filter_cons.
  destruct (P x); simpl; intros; discriminate.
Qed.

(** X1.  getRandomClient without a clientId, in a reachable state: the
    candidate list getHealthyClient draws from has no repetition; it is
    empty exactly when no registered session has the group; a draw below
    its length returns one of the candidates and a draw outside returns
    nil; every candidate is returned by exactly one value of the draw. *)
Theorem getRandomClient_draws_candidate (s : State) (group : string) :
  reach s →
  let candidates := candidates_of (partition_group group "" s) in
  NoDup candidates ∧
  (candidates = [] ↔
   ∀ k p c, hlSyncMap s !! k = Some p → clients s !! p = Some c →
            clientGroup c ≠ group) ∧
  (∀ Intn, Intn (length candidates) < length candidates →
     ∃ p, getRandomClient Intn group "" s = Some p ∧ p ∈ candidates) ∧
  (∀ Intn, length candidates ≤ Intn (length candidates) →
     getRandomClient Intn group "" s = None) ∧
  (∀ p, p ∈ candidates →
     ∃ i, i < length candidates ∧
          getRandomClient (λ _, i) group "" s = Some p ∧
          ∀ j, getRandomClient (λ _, j) group "" s = Some p → j = i).
Proof.
  intros Hr candidates.
  destruct (getHealthyClient_spec (λ _, 0) group s) as (Hpart & _ & _).
  set (members := filter (λ e, in_group group "" e) (range_values s)) in *.
  set (healthy := (filter (λ e, scores_healthy e) members).*1) in *.
  set (unhealthy := (filter (λ e, negb (scores_healthy e)) members).*1) in *.
  assert (Hcand : candidates = if decide (healthy = []) then unhealthy
                               else healthy).
  { unfold candidates, candidates_of. rewrite Hpart. simpl.
    by destruct healthy. }
  assert (Hget : ∀ Intn, getRandomClient Intn group "" s
                         = candidates !! Intn (length candidates)).
  { intros Intn. unfold getRandomClient.
    rewrite decide_False by (intros H; by apply H).
    unfold getHealthyClient. cbv zeta. fold candidates.
    destruct candidates; reflexivity. }
  assert (Hmem : NoDup members.*1).
  { eapply sublist_NoDup; [by apply range_values_NoDup|].
    apply fmap_sublist, sublist_filter. }
  assert (Hnd : NoDup candidates).
  { rewrite Hcand. case_decide;
      (eapply sublist_NoDup; [exact Hmem|apply fmap_sublist, sublist_filter]). }
  split; [exact Hnd|]. split; [|split; [|split]].
  - split.
    + intros Hnil k p c Hk Hc Hg.
      assert (Hm : members = []).
      { rewrite Hcand in Hnil. case_decide as Hh; [|done].
        apply fmap_nil_inv in Hh, Hnil. by eapply filter_both_nil. }
      assert (Hin : (p, c) ∈ members).
      { apply list_elem_of_filter. split.
        - rewrite in_group_no_exclude. simpl. by rewrite bool_decide_eq_true_2.
        - apply range_values_spec. eauto. }
      rewrite Hm in Hin. by apply elem_of_nil in Hin.
    + intros Hnone. destruct candidates as [|p l] eqn:Hc; [done|exfalso].
      assert (Hp : p ∈ members.*1).
      { assert (Hin : p ∈ if decide (healthy = []) then unhealthy else healthy)
          by (rewrite <- Hcand; left).
        case_decide;
          apply list_elem_of_fmap in Hin as (e & -> & Hin);
          apply list_elem_of_filter in Hin as [_ Hin];
          apply list_elem_of_fmap; by exists e. }
      apply list_elem_of_fmap in Hp as ([q c] & -> & Hin).
      apply list_elem_of_filter in Hin as [Hg Hin].
      apply range_values_spec in Hin as [[k Hk] Hcl].
      rewrite in_group_no_exclude in Hg. apply bool_decide_unpack in Hg.
      by eapply Hnone.
  - intros Intn Hlt. rewrite Hget.
    destruct (lookup_lt_is_Some_2 _ _ Hlt) as [p Hp].
    exists p. split; [done|]. by eapply list_elem_of_lookup_2.
  - intros Intn Hge. rewrite Hget. by apply lookup_ge_None_2.
  - intros p Hp. apply list_elem_of_lookup_1 in Hp as [i Hi].
    exists i. split; [by eapply lookup_lt_Some|].
    split; [by rewrite Hget|].
    intros j Hj. rewrite Hget in Hj. by eapply NoDup_lookup.
Qed.

End RegistryShape.

(** ** The channels of the pending tables *)

Lemma benign_refl rc : benign rc rc.
Proof. repeat split; auto. Qed.

Lemma chan_send_benign rc v rc' : chan_send rc v = Sent rc' → benign rc rc'.
Proof.
  unfold chan_send. destruct (closed rc) eqn:Hc; [done|].
  case_decide; [|done]. intros [= <-]. repeat split; simpl; [done|].
  right. rewrite length_app. simpl. lia.
Qed.

Lemma chan_recv_benign rc v rc' : chan_recv rc = Received v rc' → benign rc rc'.
Proof.
  unfold chan_recv. destruct (buf rc) as [|x rest] eqn:Hb.
  - destruct (closed rc); [|done]. intros [= _ <-]. apply benign_refl.
  - intros [= _ <-]. repeat split; simpl. left. rewrite Hb. simpl. lia.
Qed.

Lemma lookup_alter_inv {A} (g : A → A) (q : nat) (l : list A) (p : nat) (y : A) :
  alter g q l !! p = Some y →
  ∃ x, l !! p = Some x ∧ y = if decide (q = p) then g x else x.
Proof.
  rewrite list_lookup_alter. case_decide; subst.
  - destruct (l !! p) as [x|]; [|done]. intros [= <-]. by exists x.
  - intros H'. by exists y.
Qed.

Lemma slot_alter_keep (g : Clients → Clients) (q : nat) (l : list Clients)
    (p : nat) (c' : Clients) (f mid : string) (ch : nat) :
  (∀ c, actionData (g c) = actionData c) →
  alter g q l !! p = Some c' → readFromMap c' f mid = Some ch →
  ∃ c, l !! p = Some c ∧ readFromMap c f mid = Some ch.
Proof.
  intros Hg Hp Hr. apply lookup_alter_inv in Hp as (c & Hc & ->).
  exists c. split; [done|]. case_decide; [|done].
  unfold readFromMap in *. by rewrite Hg in Hr.
Qed.

Lemma readFromMap_insert (a : gmap string (gmap string nat))
    (f f' : string) (inner : gmap string nat) (mid : string) :
  <[f := inner]> a !! f' ≫= (λ i, i !! mid)
  = if decide (f = f') then inner !! mid else a !! f' ≫= (λ i, i !! mid).
Proof.
  case_decide; subst; [by rewrite lookup_insert_eq|].
  by rewrite lookup_insert_ne.
Qed.

Lemma frame_quiet (s s' : State) :
  slots_kept s s' → chans s' = chans s → frame s s'.
Proof.
  intros Hs Hc. split; [exists (0, "", ""); intros; left; by apply Hs|].
  rewrite Hc. split; [done|]. intros r rc Hr. exists rc. split; [done|].
  left. apply benign_refl.
Qed.

Lemma frame_alloc (s s' : State) (x : Chan) :
  slots_kept s s' → chans s' = chans s ++ [x] → frame s s'.
Proof.
  intros Hs Hc. split; [exists (0, "", ""); intros; left; by apply Hs|].
  rewrite Hc, length_app. split; [lia|]. intros r rc Hr. exists rc.
  split; [by apply lookup_app_l_Some|]. left. apply benign_refl.
Qed.

Lemma frame_update (s s' : State) (r : nat) (g : Chan → Chan) :
  slots_kept s s' → chans s' = alter g r (chans s) →
  (∀ rc, chans s !! r = Some rc → benign rc (g rc) ∨ closable s r) →
  frame s s'.
Proof.
  intros Hs Hc Hok. split; [exists (0, "", ""); intros; left; by apply Hs|].
  rewrite Hc, length_alter. split; [done|]. intros r' rc' Hr'.
  rewrite list_lookup_alter. case_decide; subst.
  - rewrite Hr'. simpl. eexists. split; [done|].
    destruct (Hok _ Hr'); auto.
  - exists rc'. split; [done|]. left. apply benign_refl.
Qed.

Lemma deliver_frame (s s1 : State) (ch : option nat) (msg : string) :
  deliver ch msg s = Delivered s1 →
  clients s1 = clients s ∧
  ∃ r rc', chans s1 = alter (λ _, rc') r (chans s) ∧
           ∀ rc, chans s !! r = Some rc → benign rc rc'.
Proof.
  unfold deliver. destruct ch as [r|]; [|done].
  destruct (chans s !! r) as [rc|] eqn:Hr; [|done].
  destruct (chan_send rc msg) as [rc'| |] eqn:Hs; try done.
  intros [= <-]. split; [done|]. exists r, rc'. split; [done|].
  intros rc0 H0. assert (rc0 = rc) as -> by congruence.
  by eapply chan_send_benign.
Qed.

Lemma slots_kept_alter (s s' : State) (g : Clients → Clients) (q : nat) :
  (∀ c, actionData (g c) = actionData c) →
  clients s' = alter g q (clients s) → slots_kept s s'.
Proof.
  intros Hg Hc p f mid ch (c' & Hc' & Hr). rewrite Hc in Hc'.
  by eapply slot_alter_keep.
Qed.

Lemma slots_kept_same (s s' : State) :
  clients s' = clients s → slots_kept s s'.
Proof. intros Hc p f mid ch (c' & Hc' & Hr). rewrite Hc in Hc'. by exists c'. Qed.

Lemma slots_kept_new (s s' : State) (c0 : Clients) :
  actionData c0 = ∅ → clients s' = clients s ++ [c0] → slots_kept s s'.
Proof.
  intros H0 Hc p f mid ch (c' & Hc' & Hr). rewrite Hc in Hc'.
  apply lookup_app_Some in Hc' as [Hc'|[_ Hc']]; [by exists c'|].
  apply list_lookup_singleton_Some in Hc' as [_ <-].
  unfold readFromMap in Hr. by rewrite H0, lookup_empty in Hr.
Qed.

Ltac kept :=
  first [ by apply slots_kept_same
        | by (eapply slots_kept_alter; [|reflexivity]; intros [])
        | by (eapply slots_kept_new; [|reflexivity]) ].

Ltac quiet :=
  first [ by (apply frame_quiet; [kept|reflexivity])
        | by (eapply frame_alloc; [kept|reflexivity]) ].

Section PendingChannels.
Context (json_marshal : Message → option string).
Context (json_unmarshal_response : string → option MessageResponse).
Context (json_unmarshal_strings : string → option (list string)).

Local Abbreviation gstep := (g_step json_marshal).
Local Abbreviation wstep :=
  (w_step json_unmarshal_response json_unmarshal_strings).
Local Abbreviation mstep :=
  (step json_marshal json_unmarshal_response json_unmarshal_strings).
Local Abbreviation reach :=
  (reachable json_marshal json_unmarshal_response json_unmarshal_strings).

Lemma w_step_frame (s s' : State) (t : nat) (i : WInput) :
  wstep t i s = Some s' → frame s s'.
Proof.
  intros Hstep. unfold w_step in Hstep.
  destruct (wthreads s !! t) as [th|] eqn:Ht; [simpl in Hstep|done].
  destruct (clients s !! w_client th) as [c0|] eqn:Hc0; [simpl in Hstep|done].
  destruct (w_pc th) eqn:Hpc, i; try done.
  - (* W_Ack *)
    step_cases; quiet.
  - (* W_Read *)
    step_cases; quiet.
  - (* W_Lookup *)
    step_cases; quiet.
  - (* W_Deliver *)
    destruct (rwMu s); [done|]. injection Hstep as <-.
    destruct (deliver _ _ s) as [s1| |] eqn:Hd; try quiet.
    apply deliver_frame in Hd as (Hcl & r0 & rc' & Hch & Hb).
    eapply frame_update; [by apply slots_kept_same|exact Hch|].
    intros rc Hrc. left. by apply Hb.
  - (* W_Parked *)
    destruct (deliver _ _ s) as [s1| |] eqn:Hd; try done;
      injection Hstep as <-; try quiet.
    apply deliver_frame in Hd as (Hcl & r0 & rc' & Hch & Hb).
    eapply frame_update; [by apply slots_kept_same|exact Hch|].
    intros rc Hrc. left. by apply Hb.
  - (* W_StopHb *)
    injection Hstep as <-. destruct (w_stop th) as [stop|] eqn:Hstop;
      [|quiet].
    eapply frame_update; [by apply slots_kept_same|reflexivity|].
    intros rc Hrc. right. right. eauto.
  - step_cases; quiet.
  - step_cases; quiet.
Qed.

Lemma g_step_frame (s s' : State) (t : nat) (i : GInput) :
  gstep t i s = Some s' → frame s s'.
Proof.
  intros Hstep. unfold g_step in Hstep.
  destruct (gthreads s !! t) as [th|] eqn:Ht; [simpl in Hstep|done].
  destruct (clients s !! g_client th) as [c0|] eqn:Hc0; [simpl in Hstep|done].
  assert (Hres : closable s (g_resChan th)) by (left; eauto).
  destruct (g_pc th) eqn:Hpc, i; try done.
  - (* G_CheckMap *) step_cases; quiet.
  - (* G_MakeMap *)
    destruct (rwMu s); [done|]. injection Hstep as <-.
    apply frame_quiet; [|reflexivity].
    intros p f mid ch (c' & Hc' & Hr). fields.
    apply lookup_alter_inv in Hc' as (c & Hc & ->). exists c.
    split; [done|]. case_decide; [subst p|done].
    assert (c = c0) as -> by congruence.
    unfold readFromMap in *. cbn [actionData set_actionData] in Hr.
    rewrite readFromMap_insert in Hr. case_decide; [|done].
    by rewrite lookup_empty in Hr.
  - (* G_GenId *) step_cases; quiet.
  - (* G_Insert *)
    destruct (rwMu s); [done|].
    destruct (actionData c0 !! g_funcName th) as [inner|] eqn:Hin;
      injection Hstep as <-; [|quiet].
    split; [|split].
    + exists (g_client th, g_funcName th, g_MessageId th).
      intros p f mid ch (c' & Hc' & Hr). fields.
      apply lookup_alter_inv in Hc' as (c & Hc & ->).
      case_decide; [subst p|left; by exists c].
      assert (c = c0) as -> by congruence.
      unfold readFromMap in Hr. cbn [actionData set_actionData] in Hr.
      rewrite readFromMap_insert in Hr.
      case_decide; [subst f|left; by exists c0].
      destruct (decide (mid = g_MessageId th)) as [->|Hne].
      * rewrite lookup_insert_eq in Hr. injection Hr as <-. right.
        split; [done|]. split; [done|].
        by rewrite lookup_app_r, Nat.sub_diag.
      * rewrite lookup_insert_ne in Hr by done. left. exists c0.
        split; [done|]. unfold readFromMap. by rewrite Hin.
    + fields. rewrite length_app. lia.
    + intros r rc Hr. exists rc. fields.
      split; [by apply lookup_app_l_Some|]. left. apply benign_refl.
  - (* G_Send *) step_cases; quiet.
  - (* G_Lookup *) step_cases; quiet.
  - (* G_Wait, receive *)
    destruct (chans s !! resultChan) as [rc|] eqn:Hrc; [simpl in Hstep|done].
    destruct (chan_recv rc) as [v rc'|] eqn:Hrecv; [|done].
    injection Hstep as <-.
    eapply frame_update;
      [by (eapply slots_kept_alter; [|reflexivity]; intros [])|reflexivity|].
    intros rc0 H0. assert (rc0 = rc) as -> by congruence.
    left. by eapply chan_recv_benign.
  - (* G_Wait, deadline *) step_cases; quiet.
  - (* G_Reply *)
    destruct (chans s !! g_resChan th) as [rc|] eqn:Hrc; [simpl in Hstep|done].
    destruct (chan_send rc res) as [rc'| |] eqn:Hs; try done;
      injection Hstep as <-; [|quiet].
    eapply frame_update; [by apply slots_kept_same|reflexivity|]. auto.
  - (* G_Cleanup *)
    destruct (rwMu s); [done|]. injection Hstep as <-.
    destruct (actionData c0 !! g_funcName th) as [inner|] eqn:Hin; [|quiet].
    destruct (inner !! g_MessageId th) as [ch0|] eqn:Hch; [|quiet].
    assert (Hkept : ∀ p f mid ch,
              slot (g_goto t (G_CloseRes panicking)
                      (upd_chan ch0 chan_close_recover
                         (upd_client (g_client th)
                            (set_actionData
                               (<[g_funcName th := delete (g_MessageId th) inner]>
                                  (actionData c0))) s))) p f mid ch →
              slot s p f mid ch ∧
              (p, f, mid) ≠ (g_client th, g_funcName th, g_MessageId th)).
    { intros p f mid ch (c' & Hc' & Hr). fields.
      apply lookup_alter_inv in Hc' as (c & Hc & ->).
      case_decide; [subst p|split; [by exists c|congruence]].
      assert (c = c0) as -> by congruence.
      unfold readFromMap in Hr. cbn [actionData set_actionData] in Hr.
      rewrite readFromMap_insert in Hr.
      case_decide; [subst f|split; [by exists c0|congruence]].
      destruct (decide (mid = g_MessageId th)) as [->|Hne];
        [by rewrite lookup_delete_eq in Hr|].
      rewrite lookup_delete_ne in Hr by done.
      split; [|congruence]. exists c0. split; [done|].
      unfold readFromMap. by rewrite Hin. }
    split; [|split].
    + exists (0, "", ""). intros p f mid ch Hs. left. by apply Hkept.
    + fields. by rewrite length_alter.
    + intros r rc Hr. fields. rewrite list_lookup_alter.
      case_decide; [subst r|].
      * rewrite Hr. eexists. split; [done|]. right. right.
        exists (g_client th), (g_funcName th), (g_MessageId th). split.
        -- exists c0. split; [done|]. unfold readFromMap. by rewrite Hin.
        -- intros ch' Hs. by destruct (Hkept _ _ _ _ Hs) as [_ Hne].
      * exists rc. split; [done|]. left. apply benign_refl.
  - (* G_CloseRes *)
    injection Hstep as <-.
    eapply frame_update; [by apply slots_kept_same|reflexivity|]. auto.
  - (* G_Recover *)
    destruct (chans s !! g_resChan th) as [rc|] eqn:Hrc; [simpl in Hstep|done].
    destruct (chan_send rc msg_internal) as [rc'| |] eqn:Hs; try done;
      injection Hstep as <-; [|quiet].
    eapply frame_update; [by apply slots_kept_same|reflexivity|]. auto.
Qed.

Lemma step_frame (s s' : State) (l : Label) :
  mstep s l = Some s' → frame s s'.
Proof.
  intros Hstep.
  destruct l as [g cid ip u now|t i|t i|g cid a prm rnd|t i|g cid];
    simpl in Hstep.
  - injection Hstep as <-. unfold ws_connect. case_decide; quiet.
  - by eapply w_step_frame.
  - unfold h_step in Hstep. step_cases; quiet.
  - injection Hstep as <-. unfold getResult. repeat case_match; quiet.
  - by eapply g_step_frame.
  - injection Hstep as <-. unfold kickClient. repeat case_match; quiet.
Qed.

Lemma gthread_kept (l : list GThread) (g : GThread → GThread) (t0 t : nat)
    (th' : GThread) :
  (∀ x, g_resChan (g x) = g_resChan x) →
  alter g t0 l !! t = Some th' →
  ∃ th, l !! t = Some th ∧ g_resChan th' = g_resChan th.
Proof.
  intros Hg H. apply lookup_alter_inv in H as (th & Hth & ->).
  exists th. split; [done|]. by case_decide.
Qed.

Lemma step_gthread (s s' : State) (l : Label) (t : nat) (th' : GThread) :
  mstep s l = Some s' → gthreads s' !! t = Some th' →
  (∃ th, gthreads s !! t = Some th ∧ g_resChan th' = g_resChan th) ∨
  (t = length (gthreads s) ∧ g_resChan th' = length (chans s) ∧
   length (chans s') = S (length (chans s)) ∧ slots_kept s s').
Proof.
  intros Hstep Ht'.
  destruct l as [g cid ip u now|t0 i|t0 i|g cid a prm rnd|t0 i|g cid];
    simpl in Hstep.
  - injection Hstep as <-. unfold ws_connect in Ht'. left.
    case_decide; by exists th'.
  - left. unfold w_step, deliver in Hstep.
    destruct (wthreads s !! t0) as [th|]; [simpl in Hstep|done].
    destruct (clients s !! w_client th) as [c0|] eqn:Hc0; [simpl in Hstep|done].
    destruct (w_pc th), i; try done; step_cases; by exists th'.
  - left. unfold h_step in Hstep. step_cases; by exists th'.
  - injection Hstep as <-. unfold getResult in *.
    repeat case_match; try (left; by exists th'). fields.
    apply lookup_app_Some in Ht' as [Ht'|[Hge Ht']]; [left; by exists th'|].
    apply list_lookup_singleton_Some in Ht' as [Hi <-]. right.
    split; [lia|]. split; [done|]. rewrite length_app. simpl.
    split; [lia|]. by apply slots_kept_same.
  - left. unfold g_step in Hstep.
    destruct (gthreads s !! t0) as [th|] eqn:Ht0; [simpl in Hstep|done].
    destruct (clients s !! g_client th) as [c0|] eqn:Hc0; [simpl in Hstep|done].
    destruct (g_pc th), i; try done; step_cases; fields;
      (eapply gthread_kept; [|eassumption]); by intros [].
  - left. injection Hstep as <-. unfold kickClient in Ht'.
    repeat case_match; by exists th'.
Qed.

Lemma step_wstop (s s' : State) (l : Label) (t : nat) (th' : WThread)
    (stop : nat) :
  mstep s l = Some s' → wthreads s' !! t = Some th' →
  w_stop th' = Some stop →
  (∃ th, wthreads s !! t = Some th ∧ w_stop th = Some stop) ∨
  (stop = length (chans s) ∧
   length (chans s') = S (length (chans s)) ∧ slots_kept s s').
Proof.
  intros Hstep Ht' Hstop.
  pose proof (step_keeps_registry _ _ _ _ _ _ Hstep) as Hkeep.
  destruct l as [g cid ip u now|t0 i|t0 i|g cid a prm rnd|t0 i|g cid];
    [| |destruct Hkeep as [_ Hw]; rewrite Hw in Ht'; left; by exists th' ..].
  - simpl in Hstep. injection Hstep as <-. unfold ws_connect in Ht'. left.
    case_decide; [by exists th'|]. fields.
    apply lookup_app_Some in Ht' as [Ht'|[Hge Ht']]; [by exists th'|].
    apply list_lookup_singleton_Some in Ht' as [Hi <-]. done.
  - simpl in Hstep. unfold w_step, deliver in Hstep.
    destruct (wthreads s !! t0) as [th|] eqn:Ht0; [simpl in Hstep|done].
    destruct (clients s !! w_client th) as [c0|] eqn:Hc0; [simpl in Hstep|done].
    destruct (w_pc th) eqn:Hpc, i; try done; step_cases; fields;
      try (left; by exists th');
      try (apply lookup_alter_inv in Ht' as (th1 & Hth1 & ->);
           case_decide; [subst|left; by exists th1];
           first [ left; by exists th1
                 | right; simpl in Hstop; injection Hstop as <-;
                   rewrite length_app; simpl;
                   split; [done|]; split; [lia|]; by apply slots_kept_same ]).
Qed.

Lemma chan_inv_step (s s' : State) (l : Label) :
  chan_inv s → mstep s l = Some s' → chan_inv s'.
Proof.
  intros (K1 & K2 & K3 & K4) Hstep.
  destruct (step_frame _ _ _ Hstep) as ((key0 & F1) & F2 & F3).
  assert (Hold : ∀ p f mid ch, slot s p f mid ch → ch < length (chans s)).
  { intros p f mid ch Hs. destruct (K1 _ _ _ _ Hs) as (rc & Hrc & _).
    by eapply lookup_lt_Some. }
  assert (C' : ∀ r, closable s' r →
            (closable s r ∧ r < length (chans s)) ∨
            (r = length (chans s) ∧
             length (chans s') = S (length (chans s)) ∧ slots_kept s s')).
  { intros r [(t & th' & Ht' & <-)|(t & th' & Ht' & Hst)].
    - destruct (step_gthread _ _ _ _ _ Hstep Ht')
        as [(th & Ht & ->)|(_ & -> & Hlen & Hk)]; [left|by right].
      assert (Hc : closable s (g_resChan th)) by (left; eauto).
      split; [done|]. by apply K3.
    - destruct (step_wstop _ _ _ _ _ _ Hstep Ht' Hst)
        as [(th & Ht & Hst0)|(-> & Hlen & Hk)]; [left|by right].
      assert (Hc : closable s r) by (right; eauto).
      split; [done|]. by apply K3. }
  split; [|split; [|split]].
  - intros p f mid ch Hs.
    destruct (F1 _ _ _ _ Hs) as [Hs0|(_ & -> & Hnew)].
    + destruct (K1 _ _ _ _ Hs0) as (rc & Hrc & Hop & Hcap & Hlen).
      destruct (F3 _ _ Hrc) as (rc' & Hrc' & [Hb|[Hc|Hcl]]).
      * destruct Hb as (Hb1 & Hb2 & Hb3). exists rc'.
        rewrite Hb1, Hb2. repeat split; try done. lia.
      * exfalso. by eapply (proj2 (K3 _ Hc)).
      * exfalso. destruct Hcl as (p0 & f0 & mid0 & Hs1 & Hgone).
        destruct (K2 _ _ _ _ _ _ _ Hs0 Hs1) as (-> & -> & ->).
        by eapply Hgone.
    + exists (make_chan 1). repeat split; try done. simpl. lia.
  - intros p f mid p' f' mid' ch Hs1 Hs2.
    destruct (F1 _ _ _ _ Hs1) as [H1|(E1 & -> & _)],
             (F1 _ _ _ _ Hs2) as [H2|(E2 & E2' & _)].
    + by eapply K2.
    + apply Hold in H1. lia.
    + apply Hold in H2. lia.
    + rewrite <- E2 in E1. by injection E1 as -> -> ->.
  - intros r Hc. destruct (C' r Hc) as [[Hc0 Hlt]|(-> & Hlen & Hk)].
    + split; [lia|]. intros p f mid Hs.
      destruct (F1 _ _ _ _ Hs) as [Hs0|(_ & -> & _)]; [|lia].
      by eapply (proj2 (K3 _ Hc0)).
    + split; [lia|]. intros p f mid Hs. apply Hk, Hold in Hs. lia.
  - intros t t' th th' Ht Ht' Heq.
    destruct (step_gthread _ _ _ _ _ Hstep Ht)
      as [(th0 & Ht0 & E0)|(-> & E0 & _)],
      (step_gthread _ _ _ _ _ Hstep Ht')
      as [(th1 & Ht1 & E1)|(-> & E1 & _)]; try done.
    + eapply K4; [done..|congruence].
    + exfalso. assert (Hc : closable s (g_resChan th0)) by (left; eauto).
      apply K3 in Hc as [Hlt _]. lia.
    + exfalso. assert (Hc : closable s (g_resChan th1)) by (left; eauto).
      apply K3 in Hc as [Hlt _]. lia.
Qed.

Lemma reachable_chan_inv (s : State) : reach s → chan_inv s.
Proof.
  apply reachable_ind.
  - split; [|split; [|split]].
    + intros p f mid ch (c & Hc & _). by destruct p.
    + intros p f mid p' f' mid' ch (c & Hc & _). by destruct p.
    + intros r [(t & th & Ht & _)|(t & th & Ht & _)]; by destruct t.
    + intros t t' th th' Ht. by destruct t.
  - intros s0 l s' _ Hinv Hstep. by eapply chan_inv_step.
Qed.

(** X2.  In every reachable state, each channel stored in a pending table
    (what readFromMap returns) is an open channel of capacity 1 that holds at
    most one message; no channel is stored under two different (session,
    action, id) keys; and so the send of writeToMap on a stored channel
    never panics: its deferred recover is never what ends a delivery. *)
Theorem pending_channels_open (s : State) :
  reach s →
  (∀ p c f mid ch,
     clients s !! p = Some c → readFromMap c f mid = Some ch →
     ∃ rc, chans s !! ch = Some rc ∧ closed rc = false ∧ cap rc = 1 ∧
           length (buf rc) ≤ 1) ∧
  (∀ p c f mid p' c' f' mid' ch,
     clients s !! p = Some c → readFromMap c f mid = Some ch →
     clients s !! p' = Some c' → readFromMap c' f' mid' = Some ch →
     p = p' ∧ f = f' ∧ mid = mid') ∧
  (∀ p c f mid msg,
     clients s !! p = Some c →
     deliver (readFromMap c f mid) msg s ≠ Recovered).
Proof.
  intros Hr. destruct (reachable_chan_inv s Hr) as (K1 & K2 & _).
  split; [|split].
  - intros p c f mid ch Hc Hs. apply (K1 p f mid ch). by exists c.
  - intros p c f mid p' c' f' mid' ch Hc Hs Hc' Hs'.
    apply (K2 p f mid p' f' mid' ch); [by exists c|by exists c'].
  - intros p c f mid msg Hc. unfold deliver.
    destruct (readFromMap c f mid) as [ch|] eqn:Hs; [|done].
    destruct (K1 p f mid ch) as (rc & Hrc & Hop & _); [by exists c|].
    rewrite Hrc. unfold chan_send. rewrite Hop. by case_decide.
Qed.
End PendingChannels.

(** ** The write lock *)

Lemma keys_kept_same (s s' : State) : clients s' = clients s → keys_kept s s'.
Proof. intros E p c f Hc Hf. rewrite E. eauto. Qed.

Lemma keys_kept_app (s s' : State) (c0 : Clients) :
  clients s' = clients s ++ [c0] → keys_kept s s'.
Proof.
  intros E p c f Hc Hf. rewrite E. exists c. split; [|done].
  by apply lookup_app_l_Some.
Qed.

Lemma keys_kept_alter (s s' : State) (g : Clients → Clients) (q : nat) :
  (∀ c f, is_Some (actionData c !! f) → is_Some (actionData (g c) !! f)) →
  clients s' = alter g q (clients s) → keys_kept s s'.
Proof.
  intros Hg E p c f Hc Hf. rewrite E, list_lookup_alter.
  case_decide; subst; rewrite Hc; simpl; eauto.
Qed.

Lemma is_Some_insert_keep (a : gmap string (gmap string nat)) (f f' : string)
    (x : gmap string nat) :
  is_Some (a !! f') → is_Some (<[f := x]> a !! f').
Proof.
  intros H. destruct (decide (f = f')) as [->|];
    [rewrite lookup_insert_eq|rewrite lookup_insert_ne by done]; eauto.
Qed.

Lemma keys_kept_table (s s' : State) (q : nat) (c0 : Clients)
    (a : gmap string (gmap string nat)) :
  clients s !! q = Some c0 →
  (∀ f, is_Some (actionData c0 !! f) → is_Some (a !! f)) →
  clients s' = alter (set_actionData a) q (clients s) → keys_kept s s'.
Proof.
  intros H0 Ha E p c f Hc Hf. rewrite E, list_lookup_alter.
  case_decide; subst; rewrite Hc; simpl; [|eauto].
  eexists. split; [done|]. simpl. apply Ha. congruence.
Qed.

Ltac keys :=
  first [ by apply keys_kept_same
        | by (eapply keys_kept_app; reflexivity)
        | by (eapply keys_kept_alter; [|reflexivity]; intros [] ?; simpl; auto)
        | by (eapply keys_kept_table; [eassumption| |reflexivity];
              intros ? ?; by apply is_Some_insert_keep) ].

Section WriteLock.
Context (json_marshal : Message → option string).
Context (json_unmarshal_response : string → option MessageResponse).
Context (json_unmarshal_strings : string → option (list string)).

Local Abbreviation gstep := (g_step json_marshal).
Local Abbreviation wstep :=
  (w_step json_unmarshal_response json_unmarshal_strings).
Local Abbreviation mstep :=
  (step json_marshal json_unmarshal_response json_unmarshal_strings).
Local Abbreviation reach :=
  (reachable json_marshal json_unmarshal_response json_unmarshal_strings).

Lemma step_keys_kept (s s' : State) (l : Label) :
  mstep s l = Some s' → keys_kept s s'.
Proof.
  intros Hstep.
  destruct l as [g cid ip u now|t i|t i|g cid a prm rnd|t i|g cid];
    simpl in Hstep.
  - injection Hstep as <-. unfold ws_connect. case_decide; keys.
  - unfold w_step, deliver in Hstep.
    destruct (wthreads s !! t) as [th|]; [simpl in Hstep|done].
    destruct (clients s !! w_client th) as [c0|] eqn:Hc0; [simpl in Hstep|done].
    destruct (w_pc th), i; try done; step_cases; keys.
  - unfold h_step in Hstep. step_cases; keys.
  - injection Hstep as <-. unfold getResult. repeat case_match; keys.
  - unfold g_step in Hstep.
    destruct (gthreads s !! t) as [th|]; [simpl in Hstep|done].
    destruct (clients s !! g_client th) as [c0|] eqn:Hc0; [simpl in Hstep|done].
    destruct (g_pc th), i; try done; step_cases; keys.
  - injection Hstep as <-. unfold kickClient. repeat case_match; keys.
Qed.

Lemma step_gthread_ready (s s' : State) (l : Label) (t : nat)
    (th' : GThread) :
  mstep s l = Some s' → gthreads s' !! t = Some th' →
  (∃ th, gthreads s !! t = Some th ∧ g_client th' = g_client th ∧
     g_funcName th' = g_funcName th ∧
     (ready_pc (g_pc th') →
      ready_pc (g_pc th) ∨
      ∃ c', clients s' !! g_client th' = Some c' ∧
            is_Some (actionData c' !! g_funcName th'))) ∨
  (∃ c', clients s' !! g_client th' = Some c' ∧ g_pc th' = G_CheckMap).
Proof.
  intros Hstep Ht'.
  destruct l as [g cid ip u now|t0 i|t0 i|g cid a prm rnd|t0 i|g cid];
    simpl in Hstep.
  - injection Hstep as <-. unfold ws_connect in Ht'. left.
    case_decide; exists th'; auto.
  - left. unfold w_step, deliver in Hstep.
    destruct (wthreads s !! t0) as [th|]; [simpl in Hstep|done].
    destruct (clients s !! w_client th) as [c0|] eqn:Hc0; [simpl in Hstep|done].
    destruct (w_pc th), i; try done; step_cases; exists th'; auto.
  - left. unfold h_step in Hstep. step_cases; exists th'; auto.
  - injection Hstep as <-. unfold getResult in *.
    repeat case_match; try (left; exists th'; by auto). fields.
    apply lookup_app_Some in Ht' as [Ht'|[Hge Ht']];
      [left; exists th'; by auto|].
    apply list_lookup_singleton_Some in Ht' as [Hi <-]. right. eauto.
  - left. unfold g_step in Hstep.
    destruct (gthreads s !! t0) as [th|] eqn:Ht0; [simpl in Hstep|done].
    destruct (clients s !! g_client th) as [c0|] eqn:Hc0; [simpl in Hstep|done].
    destruct (decide (t0 = t)) as [->|Hne].
    + exists th.
      destruct (g_pc th) eqn:Hpc, i; try done; step_cases; fields;
        rewrite list_lookup_alter_eq, Ht0 in Ht'; simpl in Ht';
        injection Ht' as <-; simpl;
        (split; [done|]); (split; [done|]); (split; [done|]);
        try (intros [?|?]; discriminate);
        try (intros _; left; by (left + right)).
      * intros _. right. exists c0. rewrite Hc0. eauto.
      * intros _. right. rewrite list_lookup_alter_eq, Hc0. simpl.
        eexists. split; [done|]. simpl. rewrite lookup_insert_eq. eauto.
    + exists th'. split; [|auto].
      destruct (g_pc th), i; try done; step_cases; fields;
        by rewrite ?list_lookup_alter_ne in Ht' by done.
  - left. injection Hstep as <-. unfold kickClient in Ht'.
    repeat case_match; exists th'; auto.
Qed.

Lemma map_ready_step (s s' : State) (l : Label) :
  map_ready s → mstep s l = Some s' → map_ready s'.
Proof.
  intros Hinv Hstep t th' Ht'.
  destruct (step_gthread_ready _ _ _ _ _ Hstep Ht')
    as [(th & Ht & Hc & Hf & Hpc)|(c' & Hc' & Hpc)].
  - destruct (Hinv t th Ht) as (c & Hcl & Hready).
    destruct (step_extends _ _ _ _ _ _ Hstep) as [Hext _].
    destruct (Hext _ _ Hcl) as (c' & Hc' & _).
    exists c'. rewrite Hc. split; [done|]. intros Hr.
    destruct (Hpc Hr) as [Hold|(c2 & Hc2 & Hs)].
    + destruct (step_keys_kept _ _ _ Hstep _ _ _ Hcl (Hready Hold))
        as (c2 & Hc2 & Hs). rewrite Hf. congruence.
    + rewrite Hc in Hc2. congruence.
  - exists c'. split; [done|]. rewrite Hpc. intros [?|?]; discriminate.
Qed.

Lemma reachable_map_ready (s : State) : reach s → map_ready s.
Proof.
  apply reachable_ind.
  - intros t th Ht. by destruct t.
  - intros s0 l s' _ Hinv Hstep. by eapply map_ready_step.
Qed.

Lemma w_step_lock (s s' : State) (t : nat) (i : WInput) :
  wstep t i s = Some s' →
  ∃ th th',
    wthreads s !! t = Some th ∧ wthreads s' = <[t := th']> (wthreads s) ∧
    ((is_parked (w_pc th) = true ∧ is_parked (w_pc th') = false ∧
      rwMu s' = false) ∨
     (is_parked (w_pc th) = false ∧ is_parked (w_pc th') = true ∧
      rwMu s = false ∧ rwMu s' = true) ∨
     (is_parked (w_pc th) = false ∧ is_parked (w_pc th') = false ∧
      rwMu s' = rwMu s)).
Proof.
  intros Hstep. unfold w_step, deliver in Hstep.
  destruct (wthreads s !! t) as [th|] eqn:Ht; [simpl in Hstep|done].
  destruct (clients s !! w_client th) as [c0|] eqn:Hc0; [simpl in Hstep|done].
  assert (Hal : ∀ f, alter f t (wthreads s) = <[t := f th]> (wthreads s)).
  { intros f. apply list_eq. intros j.
    rewrite list_lookup_alter, list_lookup_insert.
    case_decide; subst;
      [rewrite Ht, decide_True by (split; [done|by eapply lookup_lt_Some])
      |rewrite decide_False by (intros [? ?]; done)]; done. }
  assert (Hid : wthreads s = <[t := th]> (wthreads s))
    by by rewrite list_insert_id.
  exists th.
  destruct (w_pc th) eqn:Hpc, i; try done; step_cases; fields;
    first [ eexists; split; [done|]; split; [apply Hal|]; simpl;
            rewrite ?Hpc; simpl;
            first [ left; by repeat split
                  | right; left; by repeat split
                  | right; right; by repeat split ]
          | exists th; split; [done|]; split; [apply Hid|]; rewrite ?Hpc;
            simpl;
            first [ left; by repeat split
                  | right; left; by repeat split
                  | right; right; by repeat split ] ].
Qed.

Lemma step_lock_other (s s' : State) (l : Label) :
  map_ready s → mstep s l = Some s' →
  match l with
  | WStep _ _ => True
  | _ => rwMu s' = rwMu s
  end.
Proof.
  intros Hready Hstep.
  destruct l as [g cid ip u now|t i|t i|g cid a prm rnd|t i|g cid];
    simpl in Hstep; try done.
  - injection Hstep as <-. unfold ws_connect. by case_decide.
  - unfold h_step in Hstep. step_cases; done.
  - injection Hstep as <-. unfold getResult. repeat case_match; done.
  - unfold g_step in Hstep.
    destruct (gthreads s !! t) as [th|] eqn:Ht; [simpl in Hstep|done].
    destruct (clients s !! g_client th) as [c0|] eqn:Hc0; [simpl in Hstep|done].
    destruct (Hready t th Ht) as (c & Hc & Hr).
    assert (c = c0) as -> by congruence.
    destruct (g_pc th) eqn:Hpc, i; try done; step_cases; try done.
    destruct Hr as [x Hx]; [by right|]. congruence.
  - injection Hstep as <-. unfold kickClient. repeat case_match; done.
Qed.

Lemma lock_inv_step (s s' : State) (l : Label) :
  map_ready s → lock_inv s → mstep s l = Some s' → lock_inv s'.
Proof.
  intros Hready (L1 & L2 & L3) Hstep.
  pose proof (step_lock_other _ _ _ Hready Hstep) as Hmu.
  pose proof (step_keeps_registry _ _ _ _ _ _ Hstep) as Hkeep.
  destruct l as [g cid ip u now|t i|t i|g cid a prm rnd|t i|g cid];
    [| |destruct Hkeep as [_ Hw]; unfold lock_inv; rewrite Hw, Hmu;
        done ..].
  - simpl in Hstep. injection Hstep as <-. unfold ws_connect in *.
    case_decide; [done|]. unfold lock_inv. fields.
    assert (Hnew : ∀ t th, (wthreads s ++
              [mkWThread g (if decide (cid = "") then u else cid) ip
                 (length (conns s)) (length (clients s)) None W_Ack])
              !! t = Some th → is_parked (w_pc th) = true →
              wthreads s !! t = Some th).
    { intros t th Ht Hp. apply lookup_app_Some in Ht as [Ht|[_ Ht]]; [done|].
      apply list_lookup_singleton_Some in Ht as [_ <-]. done. }
    split; [|split].
    + intros Hm. destruct (L1 Hm) as (t & th & Ht & Hp). exists t, th.
      split; [by apply lookup_app_l_Some|done].
    + intros t th Ht Hp. eapply L2; [by apply Hnew|done].
    + intros t t' th th' Ht Hp Ht' Hp'.
      eapply L3; [by apply Hnew|done|by apply Hnew|done].
  - simpl in Hstep.
    destruct (w_step_lock _ _ _ _ Hstep) as (th & th' & Ht & Hw & Hcase).
    assert (Hlt : t < length (wthreads s)) by by eapply lookup_lt_Some.
    unfold lock_inv. rewrite Hw.
    destruct Hcase as [(Hp & Hp' & Hm)|[(Hp & Hp' & Hm & Hm')|(Hp & Hp' & Hm)]].
    + (* the parked handler resumes *)
      split; [by rewrite Hm|]. 
      assert (Hnone : ∀ t0 th0, <[t := th']> (wthreads s) !! t0 = Some th0 →
                is_parked (w_pc th0) = true → False).
      { intros t0 th0 Ht0 Hp0. destruct (decide (t0 = t)) as [->|Hne].
        - rewrite list_lookup_insert_eq in Ht0 by done. congruence.
        - rewrite list_lookup_insert_ne in Ht0 by done.
          apply Hne. by eapply L3. }
      split; [intros t0 th0 Ht0 Hp0; by destruct (Hnone _ _ Ht0 Hp0)|].
      intros t0 t1 th0 th1 Ht0 Hp0. by destruct (Hnone _ _ Ht0 Hp0).
    + (* a handler blocks in writeToMap *)
      assert (Honly : ∀ t0 th0, <[t := th']> (wthreads s) !! t0 = Some th0 →
                is_parked (w_pc th0) = true → t0 = t).
      { intros t0 th0 Ht0 Hp0. destruct (decide (t0 = t)) as [->|Hne]; [done|].
        rewrite list_lookup_insert_ne in Ht0 by done.
        pose proof (L2 _ _ Ht0 Hp0). congruence. }
      split; [|split].
      * intros _. exists t, th'.
        by rewrite list_lookup_insert_eq by done.
      * done.
      * intros t0 t1 th0 th1 Ht0 Hp0 Ht1 Hp1.
        rewrite (Honly _ _ Ht0 Hp0), (Honly _ _ Ht1 Hp1). done.
    + assert (Hsame : ∀ t0 th0, <[t := th']> (wthreads s) !! t0 = Some th0 →
                is_parked (w_pc th0) = true → wthreads s !! t0 = Some th0).
      { intros t0 th0 Ht0 Hp0. destruct (decide (t0 = t)) as [->|Hne].
        - rewrite list_lookup_insert_eq in Ht0 by done. congruence.
        - by rewrite list_lookup_insert_ne in Ht0 by done. }
      rewrite Hm. split; [|split].
      * intros Hmu'. destruct (L1 Hmu') as (t0 & th0 & Ht0 & Hp0).
        exists t0, th0. split; [|done].
        rewrite list_lookup_insert_ne; [done|]. intros ->. congruence.
      * intros t0 th0 Ht0 Hp0. eapply L2; [by apply Hsame|done].
      * intros t0 t1 th0 th1 Ht0 Hp0 Ht1 Hp1.
        eapply L3; [by apply Hsame|done|by apply Hsame|done].
Qed.

Lemma reachable_lock_inv (s : State) : reach s → map_ready s ∧ lock_inv s.
Proof.
  apply (reachable_ind _ _ _ (λ s, map_ready s ∧ lock_inv s)).
  - split; [intros t th Ht; by destruct t|].
    split; [done|]. split; [intros t th Ht; by destruct t|].
    intros t t' th th' Ht. by destruct t.
  - intros s0 l s' _ [Hr Hl] Hstep.
    split; [by eapply map_ready_step|by eapply lock_inv_step].
Qed.

(** X3.  In every reachable state: a call that is about to store its slot
    (line 40 of GQueryFunc) finds the inner map of its action, so the
    assignment never panics on a nil map, and with rwMu free it stores the
    slot, releases the lock and goes on to the send; rwMu is held between
    two transitions exactly when some handler is blocked in the send of
    writeToMap; and at most one handler is blocked there. *)
Theorem write_lock_discipline (s : State) :
  reach s →
  (∀ t th c, gthreads s !! t = Some th → g_pc th = G_Insert →
     clients s !! g_client th = Some c →
     is_Some (actionData c !! g_funcName th) ∧
     (rwMu s = false →
      ∃ s', gstep t GI_run s = Some s' ∧
            gthreads s' !! t = Some (g_at G_Send th) ∧ rwMu s' = false)) ∧
  (rwMu s = true ↔
   ∃ t th ch m, wthreads s !! t = Some th ∧ w_pc th = W_Parked ch m) ∧
  (∀ t t' th th' ch m ch' m',
     wthreads s !! t = Some th → w_pc th = W_Parked ch m →
     wthreads s !! t' = Some th' → w_pc th' = W_Parked ch' m' → t = t').
Proof.
  intros Hr. destruct (reachable_lock_inv s Hr) as (Hready & L1 & L2 & L3).
  split; [|split].
  - intros t th c Ht Hpc Hc. destruct (Hready t th Ht) as (c0 & Hc0 & Hk).
    assert (c0 = c) as -> by congruence.
    destruct Hk as [inner Hin]; [right; done|]. split; [eauto|].
    intros Hmu. unfold g_step. rewrite Ht. cbn [mbind option_bind].
    rewrite Hc. cbn [mbind option_bind]. rewrite Hpc, Hmu, Hin.
    eexists. split; [reflexivity|]. split; [|done].
    fields. by rewrite list_lookup_alter_eq, Ht.
  - split.
    + intros Hmu. destruct (L1 Hmu) as (t & th & Ht & Hp).
      destruct (w_pc th) eqn:Hpc; try done. by eexists _, _, _, _.
    + intros (t & th & ch & m & Ht & Hpc). eapply L2; [done|].
      by rewrite Hpc.
  - intros t t' th th' ch m ch' m' Ht Hpc Ht' Hpc'.
    eapply L3; [exact Ht|by rewrite Hpc|exact Ht'|by rewrite Hpc'].
Qed.
End WriteLock.

(** ** The result channel of a call *)

Lemma chan_close_recover_cap rc : cap (chan_close_recover rc) = cap rc.
Proof. unfold chan_close_recover, chan_close. by destruct (closed rc). Qed.

Lemma chan_send_cap rc v rc' : chan_send rc v = Sent rc' → cap rc' = cap rc.
Proof. intros H. by destruct (chan_send_benign _ _ _ H) as (_ & ? & _). Qed.

Lemma chan_recv_cap rc v rc' :
  chan_recv rc = Received v rc' → cap rc' = cap rc.
Proof. intros H. by destruct (chan_recv_benign _ _ _ H) as (_ & ? & _). Qed.

Lemma alter_touch {A} (g : A → A) (r0 r : nat) (l : list A) (x : A) :
  l !! r = Some x → r0 ≠ r → alter g r0 l !! r = Some x.
Proof. intros H Hne. by rewrite list_lookup_alter_ne. Qed.

Section ResultChannel.
Context (json_marshal : Message → option string).
Context (json_unmarshal_response : string → option MessageResponse).
Context (json_unmarshal_strings : string → option (list string)).

Local Abbreviation gstep := (g_step json_marshal).
Local Abbreviation wstep :=
  (w_step json_unmarshal_response json_unmarshal_strings).
Local Abbreviation mstep :=
  (step json_marshal json_unmarshal_response json_unmarshal_strings).
Local Abbreviation reach :=
  (reachable json_marshal json_unmarshal_response json_unmarshal_strings).
Local Abbreviation api_reach :=
  (api_reachable json_marshal json_unmarshal_response json_unmarshal_strings).

(** Who may change channel [r] in one transition. *)
Lemma step_touch (s s' : State) (l : Label) (r : nat) (rc : Chan) :
  mstep s l = Some s' → chans s !! r = Some rc →
  chans s' !! r = Some rc ∨
  (∃ p f mid, slot s p f mid r) ∨ waits s r ∨
  (∃ t th, l = WStep t WI_run ∧ wthreads s !! t = Some th ∧
           w_pc th = W_StopHb ∧ w_stop th = Some r) ∨
  (∃ t i th, l = GStep t i ∧ gthreads s !! t = Some th ∧ g_resChan th = r).
Proof.
  intros Hstep Hr.
  destruct l as [g cid ip u now|t i|t i|g cid a prm rnd|t i|g cid];
    simpl in Hstep.
  - injection Hstep as <-. left. unfold ws_connect. by case_decide.
  - unfold w_step in Hstep.
    destruct (wthreads s !! t) as [th|] eqn:Ht; [simpl in Hstep|done].
    destruct (clients s !! w_client th) as [c0|] eqn:Hc0; [simpl in Hstep|done].
    destruct (w_pc th) eqn:Hpc, i; try done.
    + step_cases; fields; left; first [done|by apply lookup_app_l_Some].
    + step_cases; left; done.
    + step_cases; left; done.
    + destruct (rwMu s); [done|]. injection Hstep as <-.
      unfold deliver.
      destruct (readFromMap c0 (rAction r0) (rMessageId r0)) as [ch|] eqn:Hs;
        [|by left].
      destruct (chans s !! ch) as [rc0|] eqn:Hch; [|by left].
      destruct (chan_send rc0 (ResponseData r0)); try by left.
      destruct (decide (ch = r)) as [->|Hne].
      * right. left. exists (w_client th), (rAction r0), (rMessageId r0).
        by exists c0.
      * left. fields. by apply alter_touch.
    + unfold deliver in Hstep. destruct ch as [ch|]; [|done].
      destruct (chans s !! ch) as [rc0|] eqn:Hch; [|done].
      destruct (chan_send rc0 msg); try done; injection Hstep as <-;
        [|by left].
      destruct (decide (ch = r)) as [->|Hne].
      * right. right. left. right. by exists t, th, msg.
      * left. fields. by apply alter_touch.
    + injection Hstep as <-. destruct (w_stop th) as [stop|] eqn:Hstop;
        [|by left].
      destruct (decide (stop = r)) as [->|Hne]; [right; right; right; left; by exists t, th|].
      left. fields. by apply alter_touch.
    + step_cases; left; done.
    + step_cases; left; done.
  - left. unfold h_step in Hstep. step_cases; done.
  - injection Hstep as <-. left. unfold getResult.
    repeat case_match; try done. fields. by apply lookup_app_l_Some.
  - unfold g_step in Hstep.
    destruct (gthreads s !! t) as [th|] eqn:Ht; [simpl in Hstep|done].
    destruct (clients s !! g_client th) as [c0|] eqn:Hc0; [simpl in Hstep|done].
    destruct (decide (g_resChan th = r)) as [Hown|Hother];
      [right; right; right; right; by exists t, i, th|].
    destruct (g_pc th) eqn:Hpc, i; try done;
      try (step_cases; fields; left;
           first [done|by apply lookup_app_l_Some|by apply alter_touch]).
    + (* receive *)
      destruct (chans s !! resultChan) as [rc0|] eqn:Hch; [simpl in Hstep|done].
      destruct (chan_recv rc0); [|done]. injection Hstep as <-.
      destruct (decide (resultChan = r)) as [->|Hne].
      * right. right. left. left. by exists t, th.
      * left. fields. by apply alter_touch.
    + (* cleanup *)
      destruct (rwMu s); [done|]. injection Hstep as <-.
      destruct (actionData c0 !! g_funcName th) as [inner|] eqn:Hin; [|by left].
      destruct (inner !! g_MessageId th) as [ch0|] eqn:Hch0; [|by left].
      destruct (decide (ch0 = r)) as [->|Hne].
      * right. left. exists (g_client th), (g_funcName th), (g_MessageId th).
        exists c0. split; [done|]. unfold readFromMap. by rewrite Hin.
      * left. fields. by apply alter_touch.
  - injection Hstep as <-. left. unfold kickClient. repeat case_match; done.
Qed.

Lemma step_cap (s s' : State) (l : Label) (r : nat) (rc : Chan) :
  mstep s l = Some s' → chans s !! r = Some rc →
  ∃ rc', chans s' !! r = Some rc' ∧ cap rc' = cap rc.
Proof.
  intros Hstep Hr.
  assert (Hup : ∀ g r0, (∀ x, chans s !! r0 = Some x → cap (g x) = cap x) →
            ∃ rc', alter g r0 (chans s) !! r = Some rc' ∧ cap rc' = cap rc).
  { intros g r0 Hg. rewrite list_lookup_alter. case_decide; subst.
    - rewrite Hr. simpl. eexists. split; [done|]. by apply Hg.
    - by exists rc. }
  assert (Hsame : ∃ rc', chans s !! r = Some rc' ∧ cap rc' = cap rc)
    by by exists rc.
  assert (Happ : ∀ x, ∃ rc', (chans s ++ [x]) !! r = Some rc' ∧
                              cap rc' = cap rc).
  { intros x. exists rc. split; [by apply lookup_app_l_Some|done]. }
  destruct l as [g cid ip u now|t i|t i|g cid a prm rnd|t i|g cid];
    simpl in Hstep.
  - injection Hstep as <-. unfold ws_connect. by case_decide.
  - unfold w_step, deliver in Hstep.
    destruct (wthreads s !! t) as [th|] eqn:Ht; [simpl in Hstep|done].
    destruct (clients s !! w_client th) as [c0|] eqn:Hc0; [simpl in Hstep|done].
    destruct (w_pc th) eqn:Hpc, i; try done; step_cases; fields;
      first [ done | by apply Happ
            | apply Hup; intros x Hx; simplify_eq;
              first [ by eapply chan_send_cap
                    | by apply chan_close_recover_cap ] ].
  - unfold h_step in Hstep. step_cases; done.
  - injection Hstep as <-. unfold getResult.
    repeat case_match; try done. fields. by apply Happ.
  - unfold g_step in Hstep.
    destruct (gthreads s !! t) as [th|] eqn:Ht; [simpl in Hstep|done].
    destruct (clients s !! g_client th) as [c0|] eqn:Hc0; [simpl in Hstep|done].
    destruct (g_pc th) eqn:Hpc, i; try done; step_cases; fields;
      first [ done | by apply Happ
            | apply Hup; intros x Hx; simplify_eq;
              first [ by eapply chan_send_cap
                    | by eapply chan_recv_cap
                    | by apply chan_close_recover_cap
                    | rewrite chan_close_recover_cap; by eapply chan_send_cap ] ].
  - injection Hstep as <-. unfold kickClient. repeat case_match; done.
Qed.

Lemma step_waits (s s' : State) (l : Label) (r : nat) :
  mstep s l = Some s' → waits s' r →
  waits s r ∨ ∃ p f mid, slot s p f mid r.
Proof.
  intros Hstep Hw.
  pose proof (step_keeps_registry _ _ _ _ _ _ Hstep) as Hkeep.
  destruct l as [g cid ip u now|t i|t i|g cid a prm rnd|t i|g cid];
    simpl in Hstep.
  - injection Hstep as <-. left. unfold ws_connect in Hw.
    case_decide; [done|]. fields.
    destruct Hw as [Hw|(t & th & m & Ht & Hpc)]; [by left|right].
    apply lookup_app_Some in Ht as [Ht|[_ Ht]]; [by exists t, th, m|].
    apply list_lookup_singleton_Some in Ht as [_ <-]. done.
  - unfold w_step in Hstep.
    destruct (wthreads s !! t) as [th|] eqn:Ht; [simpl in Hstep|done].
    destruct (clients s !! w_client th) as [c0|] eqn:Hc0; [simpl in Hstep|done].
    destruct Hw as [(t1 & th1 & Ht1 & Hpc1)|(t1 & th1 & m & Ht1 & Hpc1)].
    + left. left. exists t1, th1. split; [|done].
      unfold deliver in Hstep.
      destruct (w_pc th), i; try done; step_cases; done.
    + assert (Hold : ∀ th0, wthreads s !! t1 = Some th0 →
                w_pc th0 = W_Parked (Some r) m → waits s r).
      { intros th0 H0 H1. right. by exists t1, th0, m. }
      destruct (w_pc th) eqn:Hpc, i; try done.
      * step_cases; fields;
          apply lookup_alter_inv in Ht1 as (th0 & Hth0 & ->);
          case_decide; subst; try done; left; by eapply Hold.
      * step_cases; fields;
          try (left; by eapply Hold);
          apply lookup_alter_inv in Ht1 as (th0 & Hth0 & ->);
          case_decide; subst; try done; left; by eapply Hold.
      * step_cases; fields;
          apply lookup_alter_inv in Ht1 as (th0 & Hth0 & ->);
          case_decide; subst; try done; left; by eapply Hold.
      * destruct (rwMu s); [done|]. injection Hstep as <-.
        destruct (deliver _ _ s) as [s1| |] eqn:Hd.
        -- unfold deliver in Hd. step_cases; fields.
           apply lookup_alter_inv in Ht1 as (th0 & Hth0 & ->).
           case_decide; subst; try done. left. by eapply Hold.
        -- fields.
           apply lookup_alter_inv in Ht1 as (th0 & Hth0 & ->).
           case_decide; subst; try done. left. by eapply Hold.
        -- fields.
           apply lookup_alter_inv in Ht1 as (th0 & Hth0 & ->).
           case_decide; subst; [|left; by eapply Hold].
           simpl in Hpc1. injection Hpc1 as Hs _. right.
           exists (w_client th), (rAction r0), (rMessageId r0).
           by exists c0.
      * unfold deliver in Hstep. step_cases; fields;
          apply lookup_alter_inv in Ht1 as (th0 & Hth0 & ->);
          case_decide; subst; try done; left; by eapply Hold.
      * step_cases; fields;
          apply lookup_alter_inv in Ht1 as (th0 & Hth0 & ->);
          case_decide; subst; try done; left; by eapply Hold.
      * step_cases; fields;
          apply lookup_alter_inv in Ht1 as (th0 & Hth0 & ->);
          case_decide; subst; try done; left; by eapply Hold.
      * step_cases; fields;
          apply lookup_alter_inv in Ht1 as (th0 & Hth0 & ->);
          case_decide; subst; try done; left; by eapply Hold.
  - left. destruct Hkeep as [_ Hwt].
    destruct Hw as [(t1 & th1 & Ht1 & Hpc1)|(t1 & th1 & m & Ht1 & Hpc1)].
    + left. exists t1, th1. split; [|done].
      unfold h_step in Hstep. step_cases; done.
    + right. rewrite Hwt in Ht1. by exists t1, th1, m.
  - left. destruct Hkeep as [_ Hwt].
    destruct Hw as [(t1 & th1 & Ht1 & Hpc1)|(t1 & th1 & m & Ht1 & Hpc1)].
    + left. injection Hstep as <-. unfold getResult in Ht1.
      repeat case_match; try by exists t1, th1. fields.
      apply lookup_app_Some in Ht1 as [Ht1|[_ Ht1]]; [by exists t1, th1|].
      apply list_lookup_singleton_Some in Ht1 as [_ <-]. done.
    + right. rewrite Hwt in Ht1. by exists t1, th1, m.
  - destruct Hkeep as [_ Hwt].
    destruct Hw as [(t1 & th1 & Ht1 & Hpc1)|(t1 & th1 & m & Ht1 & Hpc1)];
      [|left; right; rewrite Hwt in Ht1; by exists t1, th1, m].
    unfold g_step in Hstep.
    destruct (gthreads s !! t) as [th|] eqn:Ht; [simpl in Hstep|done].
    destruct (clients s !! g_client th) as [c0|] eqn:Hc0; [simpl in Hstep|done].
    assert (Hold : ∀ th0, gthreads s !! t1 = Some th0 →
              g_pc th0 = G_Wait r → waits s r).
    { intros th0 H0 H1. left. by exists t1, th0. }
    destruct (g_pc th) eqn:Hpc, i; try done;
      try (step_cases; fields;
           apply lookup_alter_inv in Ht1 as (th0 & Hth0 & ->);
           case_decide; subst; try done; left; by eapply Hold).
    destruct (rwMu s); [done|]. injection Hstep as <-. fields.
    apply lookup_alter_inv in Ht1 as (th0 & Hth0 & ->).
    case_decide; subst; [|left; by eapply Hold].
    assert (th0 = th) as -> by congruence. simpl in Hpc1.
    destruct (readFromMap c0 (g_funcName th) (g_MessageId th)) as [ch|] eqn:Hs;
      [|done].
    injection Hpc1 as ->. right.
    exists (g_client th), (g_funcName th), (g_MessageId th). by exists c0.
  - left. destruct Hkeep as [_ Hwt]. injection Hstep as <-.
    destruct Hw as [(t1 & th1 & Ht1 & Hpc1)|(t1 & th1 & m & Ht1 & Hpc1)].
    + left. exists t1, th1. split; [|done].
      unfold kickClient in Ht1. repeat case_match; done.
    + right. rewrite Hwt in Ht1. by exists t1, th1, m.
Qed.

Lemma step_closable (s s' : State) (l : Label) (r : nat) :
  chan_inv s → mstep s l = Some s' → closable s' r →
  (closable s r ∧ r < length (chans s)) ∨ r = length (chans s).
Proof.
  intros (_ & _ & K3 & _) Hstep
    [(t & th' & Ht' & <-)|(t & th' & Ht' & Hst)].
  - destruct (step_gthread _ _ _ _ _ _ _ _ Hstep Ht')
      as [(th & Ht & ->)|(_ & -> & _)]; [left|by right].
    assert (Hc : closable s (g_resChan th)) by (left; eauto).
    split; [done|]. by apply K3.
  - destruct (step_wstop _ _ _ _ _ _ _ _ _ Hstep Ht' Hst)
      as [(th & Ht & Hst0)|(-> & _)]; [left|by right].
    assert (Hc : closable s r) by (right; eauto).
    split; [done|]. by apply K3.
Qed.

Lemma other_step_gthread (s s' : State) (l : Label) (t : nat) (th : GThread) :
  mstep s l = Some s' → gthreads s !! t = Some th →
  (∀ i, l ≠ GStep t i) → gthreads s' !! t = Some th.
Proof.
  intros Hstep Ht Hl.
  destruct l as [g cid ip u now|t0 i|t0 i|g cid a prm rnd|t0 i|g cid];
    simpl in Hstep.
  - injection Hstep as <-. unfold ws_connect. by case_decide.
  - unfold w_step, deliver in Hstep.
    destruct (wthreads s !! t0) as [wt|]; [simpl in Hstep|done].
    destruct (clients s !! w_client wt) as [c0|]; [simpl in Hstep|done].
    destruct (w_pc wt), i; try done; step_cases; done.
  - unfold h_step in Hstep. step_cases; done.
  - injection Hstep as <-. unfold getResult.
    repeat case_match; try done. fields. by apply lookup_app_l_Some.
  - assert (t0 ≠ t) by (intros ->; by eapply Hl).
    unfold g_step in Hstep.
    destruct (gthreads s !! t0) as [th0|] eqn:Ht0; [simpl in Hstep|done].
    destruct (clients s !! g_client th0) as [c0|]; [simpl in Hstep|done].
    destruct (g_pc th0), i; try done; step_cases; fields;
      by apply alter_touch.
  - injection Hstep as <-. unfold kickClient. repeat case_match; done.
Qed.

Lemma step_spawn (s s' : State) (l : Label) (t : nat) (th' : GThread) :
  mstep s l = Some s' → gthreads s !! t = None →
  gthreads s' !! t = Some th' →
  g_pc th' = G_CheckMap ∧ chans s' !! g_resChan th' = Some (make_chan 1).
Proof.
  intros Hstep Ht Ht'.
  assert (Hno : ∀ g, alter g t (gthreads s) !! t = Some th' → False).
  { intros g H. apply lookup_alter_inv in H as (? & ? & _). congruence. }
  destruct l as [g cid ip u now|t0 i|t0 i|g cid a prm rnd|t0 i|g cid];
    simpl in Hstep.
  - injection Hstep as <-. unfold ws_connect in Ht'.
    case_decide; fields; congruence.
  - unfold w_step, deliver in Hstep.
    destruct (wthreads s !! t0) as [wt|]; [simpl in Hstep|done].
    destruct (clients s !! w_client wt) as [c0|]; [simpl in Hstep|done].
    destruct (w_pc wt), i; try done; step_cases; congruence.
  - unfold h_step in Hstep. step_cases; congruence.
  - injection Hstep as <-. unfold getResult in *.
    repeat case_match; try congruence. fields.
    apply lookup_app_Some in Ht' as [Ht'|[_ Ht']]; [congruence|].
    apply list_lookup_singleton_Some in Ht' as [_ <-]. simpl.
    split; [done|]. by rewrite lookup_app_r, Nat.sub_diag.
  - unfold g_step in Hstep.
    destruct (gthreads s !! t0) as [th0|] eqn:Ht0; [simpl in Hstep|done].
    destruct (clients s !! g_client th0) as [c0|]; [simpl in Hstep|done].
    exfalso.
    destruct (g_pc th0), i; try done; step_cases; fields;
      apply lookup_alter_inv in Ht' as (? & ? & _); congruence.
  - injection Hstep as <-. unfold kickClient in Ht'.
    repeat case_match; fields; simpl in *; congruence.
Qed.

Lemma step_wstop_new (s s' : State) (l : Label) (t : nat) (th' : WThread)
    (stop : nat) :
  mstep s l = Some s' → wthreads s' !! t = Some th' →
  w_stop th' = Some stop →
  (∃ th, wthreads s !! t = Some th ∧ w_stop th = Some stop) ∨
  chans s' !! stop = Some (make_chan 0).
Proof.
  intros Hstep Ht' Hstop.
  pose proof (step_keeps_registry _ _ _ _ _ _ Hstep) as Hkeep.
  destruct l as [g cid ip u now|t0 i|t0 i|g cid a prm rnd|t0 i|g cid];
    [| |destruct Hkeep as [_ Hw]; rewrite Hw in Ht'; left; by exists th' ..].
  - simpl in Hstep. injection Hstep as <-. unfold ws_connect in Ht'. left.
    case_decide; [by exists th'|]. fields.
    apply lookup_app_Some in Ht' as [Ht'|[Hge Ht']]; [by exists th'|].
    apply list_lookup_singleton_Some in Ht' as [Hi <-]. done.
  - simpl in Hstep. unfold w_step, deliver in Hstep.
    destruct (wthreads s !! t0) as [th|] eqn:Ht0; [simpl in Hstep|done].
    destruct (clients s !! w_client th) as [c0|] eqn:Hc0; [simpl in Hstep|done].
    destruct (w_pc th) eqn:Hpc, i; try done; step_cases; fields;
      try (left; by exists th');
      try (apply lookup_alter_inv in Ht' as (th1 & Hth1 & ->);
           case_decide; [subst|left; by exists th1];
           first [ left; by exists th1
                 | right; simpl in Hstop; injection Hstop as <-;
                   by rewrite lookup_app_r, Nat.sub_diag ]).
Qed.

(** One transition of a call, seen from its own result channel. *)
Lemma g_step_res (s s' : State) (t : nat) (i : GInput) (th : GThread)
    (rc : Chan) :
  gstep t i s = Some s' → gthreads s !! t = Some th →
  chans s !! g_resChan th = Some rc → cap rc = 1 →
  res_state (g_pc th) rc →
  (∀ p f mid, ¬ slot s p f mid (g_resChan th)) →
  ¬ waits s (g_resChan th) → map_ready s →
  ∃ th' rc',
    gthreads s' !! t = Some th' ∧ g_resChan th' = g_resChan th ∧
    chans s' !! g_resChan th = Some rc' ∧ cap rc' = 1 ∧
    res_state (g_pc th') rc'.
Proof.
  intros Hstep Ht Hrc Hcap Hst Hns Hnw Hready.
  unfold g_step in Hstep. rewrite Ht in Hstep. simpl in Hstep.
  destruct (clients s !! g_client th) as [c0|] eqn:Hc0; [simpl in Hstep|done].
  assert (Hgo : ∀ pc s0, gthreads s0 = gthreads s →
            gthreads (g_goto t pc s0) !! t = Some (g_at pc th)).
  { intros pc s0 E. fields. by rewrite E, list_lookup_alter_eq, Ht. }
  destruct (g_pc th) eqn:Hpc, i; try done.
  - (* G_CheckMap *)
    injection Hstep as <-. eexists _, rc.
    split; [by apply Hgo|]. repeat split; try done;
      by destruct (actionData c0 !! g_funcName th).
  - destruct (rwMu s); [done|]. injection Hstep as <-. eexists _, rc.
    split; [by apply Hgo|]. done.
  - destruct (rwMu s); [done|]. injection Hstep as <-. eexists _, rc.
    split; [fields; by rewrite list_lookup_alter_eq, Ht|].
    repeat split; try done;
      by destruct (readFromMap c0 (g_funcName th) id).
  - (* G_Insert *)
    destruct (rwMu s); [done|].
    destruct (Hready t th Ht) as (c1 & Hc1 & Hk).
    assert (c1 = c0) as -> by congruence.
    destruct Hk as [inner Hin]; [right; done|]. rewrite Hin in Hstep.
    injection Hstep as <-. eexists _, rc. split; [by apply Hgo|].
    split; [done|]. split; [|done]. fields. by apply lookup_app_l_Some.
  - (* G_Send *)
    destruct (json_marshal _);
      [|injection Hstep as <-; eexists _, rc; split; [by apply Hgo|]; done].
    destruct (wsMu c0); [done|].
    destruct (conns s !! clientWs c0) as [cn|]; [simpl in Hstep|done].
    destruct (conn_write cn _ o) as [[| |] cn'];
      injection Hstep as <-; eexists _, rc; (split; [by apply Hgo|]); done.
  - destruct (rwMu s); [done|]. injection Hstep as <-. eexists _, rc.
    split; [by apply Hgo|]. repeat split; try done;
      by destruct (readFromMap c0 (g_funcName th) (g_MessageId th)).
  - (* receive *)
    destruct (chans s !! resultChan) as [rc0|] eqn:Hch; [simpl in Hstep|done].
    destruct (chan_recv rc0); [|done]. injection Hstep as <-.
    eexists _, rc. split; [by apply Hgo|]. split; [done|].
    split; [|done]. fields. apply alter_touch; [done|]. intros ->.
    apply Hnw. left. by exists t, th.
  - injection Hstep as <-. eexists _, rc. split; [by apply Hgo|]. done.
  - (* G_Reply *)
    rewrite Hrc in Hstep. simpl in Hstep. destruct Hst as [Hop Hbuf].
    unfold chan_send in Hstep. rewrite Hop, Hbuf, Hcap in Hstep.
    simpl in Hstep. injection Hstep as <-. eexists _, _.
    split; [by apply Hgo|]. split; [done|].
    split; [fields; by rewrite list_lookup_alter_eq, Hrc|]. done.
  - (* G_Cleanup *)
    destruct (rwMu s); [done|]. injection Hstep as <-. eexists _, rc.
    destruct (actionData c0 !! g_funcName th) as [inner|] eqn:Hin;
      [|split; [by apply Hgo|]; done].
    destruct (inner !! g_MessageId th) as [ch0|] eqn:Hch0;
      [|split; [by apply Hgo|]; done].
    split; [by apply Hgo|]. split; [done|]. split; [|done]. fields.
    apply alter_touch; [done|]. intros ->.
    apply (Hns (g_client th) (g_funcName th) (g_MessageId th)).
    exists c0. split; [done|]. unfold readFromMap. by rewrite Hin.
  - (* G_CloseRes *)
    injection Hstep as <-. eexists _, _. split; [by apply Hgo|].
    split; [done|].
    split; [fields; by rewrite list_lookup_alter_eq, Hrc|].
    rewrite chan_close_recover_cap. split; [done|].
    unfold chan_close_recover, chan_close.
    destruct panicking; destruct Hst as [Hop Hbuf]; rewrite Hop; simpl;
      [done|]. split; [done|lia].
  - (* G_Recover *)
    rewrite Hrc in Hstep. simpl in Hstep. destruct Hst as [Hcl Hbuf].
    unfold chan_send in Hstep. rewrite Hcl in Hstep.
    injection Hstep as <-. eexists _, rc. split; [by apply Hgo|].
    repeat split; try done. simpl. rewrite Hbuf. simpl. lia.
Qed.

Lemma res_inv_step (s s' : State) (l : Label) :
  chan_inv s → map_ready s → res_inv s → mstep s l = Some s' → res_inv s'.
Proof.
  intros Hchan Hready (R1 & R2 & R3) Hstep.
  pose proof Hchan as (K1 & K2 & K3 & K4).
  assert (Hlen : length (chans s) ≤ length (chans s'))
    by by destruct (step_frame _ _ _ _ _ _ Hstep) as (_ & ? & _).
  assert (Hres : ∀ t th, gthreads s !! t = Some th →
            (∀ p f mid, ¬ slot s p f mid (g_resChan th)) ∧
            ¬ waits s (g_resChan th)).
  { intros t th Ht. assert (Hc : closable s (g_resChan th)) by (left; eauto).
    split; [by apply K3|]. intros Hw. by apply R2 in Hw as [_ ?]. }
  split; [|split].
  - intros t th' Ht'. destruct (gthreads s !! t) as [th|] eqn:Ht.
    + destruct (R1 t th Ht) as (rc & Hrc & Hcap & Hst).
      destruct (Hres t th Ht) as [Hns Hnw].
      destruct l as [g cid ip u now|t0 i|t0 i|g cid a prm rnd|t0 i|g cid].
      5: destruct (decide (t0 = t)) as [->|Hne].
      5: { simpl in Hstep.
           destruct (g_step_res _ _ _ _ _ _ Hstep Ht Hrc Hcap Hst Hns Hnw Hready)
             as (th1 & rc' & Ht1 & Hr1 & Hrc' & Hcap' & Hst').
           assert (th1 = th') as -> by congruence. exists rc'.
           by rewrite Hr1. }
      all: rewrite (other_step_gthread _ _ _ _ _ Hstep Ht) in Ht'
          by (intros ? ?; congruence);
        injection Ht' as <-; exists rc; split; [|done];
        destruct (step_touch _ _ _ _ _ Hstep Hrc)
          as [?|[(p & f & mid & Hs)|[Hw|[(t1 & wt & _ & Hwt & _ & Hstop)|
               (t1 & i1 & th1 & El & Ht1 & Er)]]]]; try done.
      all: try (by destruct (Hns _ _ _ Hs)).
      all: try (destruct (R3 _ _ _ Hwt Hstop) as (rc0 & Hrc0 & Hcap0);
                rewrite Hrc in Hrc0; injection Hrc0 as <-; lia).
      injection El as -> ->. destruct Hne. by eapply K4.
    + destruct (step_spawn _ _ _ _ _ Hstep Ht Ht') as [Hpc Hch].
      exists (make_chan 1). rewrite Hpc. done.
  - intros r Hw. 
    assert (Hr : r < length (chans s) ∧ ¬ closable s r).
    { destruct (step_waits _ _ _ _ Hstep Hw)
        as [Hw0|(p & f & mid & Hs)]; [by apply R2|].
      destruct (K1 _ _ _ _ Hs) as (rc & Hrc & _).
      split; [by eapply lookup_lt_Some|]. intros Hc. by eapply (proj2 (K3 _ Hc)). }
    destruct Hr as [Hlt Hnc]. split; [lia|]. intros Hc.
    destruct (step_closable _ _ _ _ Hchan Hstep Hc) as [[? _]| ->]; [done|lia].
  - intros t th' r Ht' Hstop.
    destruct (step_wstop_new _ _ _ _ _ _ Hstep Ht' Hstop)
      as [(th & Ht & Hst)|Hnew]; [|by exists (make_chan 0)].
    destruct (R3 _ _ _ Ht Hst) as (rc & Hrc & Hcap).
    destruct (step_cap _ _ _ _ _ Hstep Hrc) as (rc' & Hrc' & Hcap').
    exists rc'. split; [done|congruence].
Qed.

Lemma reachable_res_inv (s : State) :
  reach s → chan_inv s ∧ map_ready s ∧ res_inv s.
Proof.
  apply (reachable_ind _ _ _ (λ s, chan_inv s ∧ map_ready s ∧ res_inv s)).
  - split; [by apply (reachable_chan_inv json_marshal json_unmarshal_response
                        json_unmarshal_strings); exists []|].
    split; [intros t th Ht; by destruct t|].
    split; [intros t th Ht; by destruct t|].
    split; [|intros t th r Ht; by destruct t].
    intros r [(t & th & Ht & _)|(t & th & m & Ht & _)]; by destruct t.
  - intros s0 l s' _ (Hc & Hr & Hv) Hstep.
    split; [by eapply chan_inv_step|].
    split; [by eapply map_ready_step|by eapply res_inv_step].
Qed.

(** *** The receive of the caller *)

Lemma caller_recv_inv (s s' : State) (t : nat) (v : string) :
  caller_recv t s = Some (s', v) →
  ∃ th rc rc',
    gthreads s !! t = Some th ∧ chans s !! g_resChan th = Some rc ∧
    chan_recv rc = Received v rc' ∧
    s' = upd_chan (g_resChan th) (λ _, rc') s.
Proof.
  unfold caller_recv. intros H.
  destruct (gthreads s !! t) as [th|]; [simpl in H|done].
  destruct (chans s !! g_resChan th) as [rc|] eqn:Hrc; [simpl in H|done].
  destruct (chan_recv rc) as [v0 rc'|] eqn:Hv; [|done].
  injection H as <- <-. by exists th, rc, rc'.
Qed.

Lemma res_state_recv (pc : GPc) (rc rc' : Chan) (v : string) :
  chan_recv rc = Received v rc' → res_state pc rc → res_state pc rc'.
Proof.
  unfold chan_recv. destruct (buf rc) as [|x rest] eqn:Hb.
  - destruct (closed rc); [|done]. by intros [= _ <-].
  - intros [= _ <-].
    destruct pc as [| | | | | | | |[]|[]| |]; simpl; rewrite ?Hb; simpl;
      intros [? ?]; try done; split; try done; lia.
Qed.

Lemma chan_inv_recv (s s' : State) (t : nat) (v : string) :
  chan_inv s → caller_recv t s = Some (s', v) → chan_inv s'.
Proof.
  intros (K1 & K2 & K3 & K4) H.
  apply caller_recv_inv in H as (th & rc & rc' & Ht & Hrc & Hv & ->).
  assert (Hcl : closable s (g_resChan th)) by (left; eauto).
  split; [|split; [|split]].
  - intros p f mid ch Hs.
    destruct (K1 p f mid ch Hs) as (rc0 & Hrc0 & Hrest). exists rc0.
    split; [|done]. fields. apply alter_touch; [done|]. intros <-.
    by apply (proj2 (K3 _ Hcl) p f mid).
  - exact K2.
  - intros r Hc. destruct (K3 r Hc) as [Hlt Hns]. split; [|exact Hns].
    fields. by rewrite length_alter.
  - exact K4.
Qed.

Lemma res_inv_recv (s s' : State) (t : nat) (v : string) :
  chan_inv s → res_inv s → caller_recv t s = Some (s', v) → res_inv s'.
Proof.
  intros (K1 & K2 & K3 & K4) (R1 & R2 & R3) H.
  apply caller_recv_inv in H as (th & rc & rc' & Ht & Hrc & Hv & ->).
  split; [|split].
  - intros t1 th1 Ht1. destruct (R1 t1 th1 Ht1) as (rc1 & Hrc1 & Hcap & Hst).
    destruct (decide (g_resChan th = g_resChan th1)) as [E|Hne].
    + rewrite <- E in Hrc1. assert (rc1 = rc) as -> by congruence.
      exists rc'. split; [|split].
      * fields. rewrite <- E. by rewrite list_lookup_alter_eq, Hrc.
      * by rewrite (chan_recv_cap _ _ _ Hv).
      * by eapply res_state_recv.
    + exists rc1. split; [|done]. fields. by apply alter_touch.
  - intros r Hw. destruct (R2 r Hw) as [Hlt Hnc]. split; [|exact Hnc].
    fields. by rewrite length_alter.
  - intros t1 th1 r Ht1 Hstop.
    destruct (R3 t1 th1 r Ht1 Hstop) as (rc1 & Hrc1 & Hcap).
    destruct (decide (g_resChan th = r)) as [E|Hne].
    + rewrite E in Hrc. assert (rc1 = rc) as -> by congruence.
      exists rc'. split; [fields; by rewrite E, list_lookup_alter_eq, Hrc1|].
      by rewrite (chan_recv_cap _ _ _ Hv).
    + exists rc1. split; [|done]. fields. by apply alter_touch.
Qed.

Lemma map_ready_recv (s s' : State) (t : nat) (v : string) :
  map_ready s → caller_recv t s = Some (s', v) → map_ready s'.
Proof.
  intros Hr H.
  apply caller_recv_inv in H as (th & rc & rc' & _ & _ & _ & ->). exact Hr.
Qed.

Lemma api_exec_app (s : State) (l1 l2 : list Event) :
  api_exec json_marshal json_unmarshal_response json_unmarshal_strings s
    (l1 ++ l2)
  = api_exec json_marshal json_unmarshal_response json_unmarshal_strings s l1
    ≫= λ s1, api_exec json_marshal json_unmarshal_response
                json_unmarshal_strings s1 l2.
Proof.
  revert s. induction l1 as [|e l1 IH]; intros s; simpl; [done|].
  destruct (api_step _ _ _ s e); simpl; [apply IH|done].
Qed.

Lemma reachable_api_reachable (s : State) : reach s → api_reach s.
Proof.
  intros [ls Hls]. exists (Ev <$> ls). revert Hls. generalize init.
  induction ls as [|l ls IH]; intros s0 Hls; simpl in *; [done|].
  destruct (mstep s0 l) as [s1|]; [simpl in *|done]. by apply IH.
Qed.

Lemma api_reachable_res_inv (s : State) :
  api_reach s → chan_inv s ∧ map_ready s ∧ res_inv s.
Proof.
  intros [es Hes]. revert s Hes.
  induction es as [|e es IH] using rev_ind; intros s Hes.
  - simpl in Hes. injection Hes as <-. apply reachable_res_inv. by exists [].
  - rewrite api_exec_app in Hes.
    destruct (api_exec _ _ _ init es) as [s0|] eqn:Hs0; [simpl in Hes|done].
    destruct (IH s0 eq_refl) as (Hc & Hr & Hv).
    destruct e as [l|t]; simpl in Hes.
    + destruct (mstep s0 l) as [s1|] eqn:Hs1; [simpl in Hes|done].
      injection Hes as <-.
      split; [by eapply chan_inv_step|].
      split; [by eapply map_ready_step|by eapply res_inv_step].
    + destruct (caller_recv t s0) as [[s1 v]|] eqn:Hs1; [simpl in Hes|done].
      injection Hes as <-.
      split; [by eapply chan_inv_recv|].
      split; [by eapply map_ready_recv|by eapply res_inv_recv].
Qed.

(** X4.  In every state that the program and its callers can reach, by
    the transitions of the machine and the receives of line 351, the result
    channel of a call exists, has capacity 1, and holds what [res_state]
    says for the program point of the call: open and empty up to the send
    of the result, open with at most one message between that send and the
    deferred close, closed with at most one message at the end, closed and
    empty when the recover handler runs.  No other call has the same result
    channel, no pending table stores it, and the send of the result neither
    blocks nor panics: it puts the result into the empty channel.  The
    receive of the caller blocks exactly while the channel is open and
    empty; it takes the message the channel holds and changes nothing
    else; on a closed and empty channel it yields the empty string. *)
Theorem call_answers_once (s : State) (t : nat) (th : GThread) :
  api_reach s → gthreads s !! t = Some th →
  ∃ rc,
    chans s !! g_resChan th = Some rc ∧ cap rc = 1 ∧
    res_state (g_pc th) rc ∧
    (∀ t' th', gthreads s !! t' = Some th' →
       g_resChan th' = g_resChan th → t' = t) ∧
    (∀ p c f mid, clients s !! p = Some c →
       readFromMap c f mid ≠ Some (g_resChan th)) ∧
    (∀ res, g_pc th = G_Reply res →
       ∃ s', gstep t GI_run s = Some s' ∧
             gthreads s' !! t = Some (g_at (G_Cleanup false) th) ∧
             chans s' !! g_resChan th = Some (mkChan [res] 1 false)) ∧
    (caller_recv t s = None ↔ closed rc = false ∧ buf rc = []) ∧
    (∀ v, buf rc = [v] →
       ∃ s', caller_recv t s = Some (s', v) ∧
             chans s' !! g_resChan th = Some (mkChan [] 1 (closed rc)) ∧
             gthreads s' = gthreads s ∧ clients s' = clients s) ∧
    (closed rc = true → buf rc = [] → caller_recv t s = Some (s, "")).
Proof.
  intros Hr Ht.
  destruct (api_reachable_res_inv s Hr)
    as ((_ & _ & K3 & K4) & Hready & R1 & _).
  destruct (R1 t th Ht) as (rc & Hrc & Hcap & Hst). exists rc.
  split; [done|]. split; [done|]. split; [done|].
  split; [|split; [|split; [|split; [|split]]]].
  - intros t' th' Ht' E. by eapply K4.
  - intros p c f mid Hc Hs.
    assert (Hcl : closable s (g_resChan th)) by (left; eauto).
    apply (proj2 (K3 _ Hcl) p f mid). by exists c.
  - intros res Hpc. destruct (Hready t th Ht) as (c & Hc & _).
    rewrite Hpc in Hst. destruct Hst as [Hop Hbuf].
    unfold g_step. rewrite Ht. cbn [mbind option_bind].
    rewrite Hc. cbn [mbind option_bind]. rewrite Hpc, Hrc.
    cbn [mbind option_bind]. unfold chan_send.
    rewrite Hop, Hbuf, Hcap. simpl. eexists. split; [reflexivity|].
    split; fields; [by rewrite list_lookup_alter_eq, Ht|].
    by rewrite list_lookup_alter_eq, Hrc.
  - unfold caller_recv. rewrite Ht. cbn [mbind option_bind]. rewrite Hrc.
    cbn [mbind option_bind]. unfold chan_recv.
    destruct (buf rc) as [|x rest]; [|split; [done|by intros [_ ?]]].
    destruct (closed rc); [split; [done|by intros [? _]]|done].
  - intros v Hbuf. unfold caller_recv. rewrite Ht. cbn [mbind option_bind].
    rewrite Hrc. cbn [mbind option_bind]. unfold chan_recv. rewrite Hbuf.
    eexists. split; [reflexivity|]. fields.
    by rewrite list_lookup_alter_eq, Hrc, Hcap.
  - intros Hcl Hbuf. unfold caller_recv. rewrite Ht. cbn [mbind option_bind].
    rewrite Hrc. cbn [mbind option_bind]. unfold chan_recv.
    rewrite Hbuf, Hcl. do 2 f_equal. unfold upd_chan, set_chans.
    destruct s as [a1 a2 a3 a4 a5 a6 a7 a8]. simpl in *. f_equal.
    apply list_eq. intros j. rewrite list_lookup_alter.
    case_decide; [subst j; by rewrite Hrc|done].
Qed.

End ResultChannel.

(** ** The write lock of a session, and progress *)

Lemma ws_locked_alter (s s' : State) (g : Clients → Clients) (q p : nat) :
  (∀ c, wsMu c = true → wsMu (g c) = true) →
  clients s' = alter g q (clients s) → ws_locked s p → ws_locked s' p.
Proof.
  intros Hg E (c & Hc & Hmu). unfold ws_locked. rewrite E, list_lookup_alter.
  case_decide; subst; rewrite Hc; simpl; eauto.
Qed.

Lemma ws_locked_same (s s' : State) (p : nat) :
  clients s' = clients s → ws_locked s p → ws_locked s' p.
Proof. intros E (c & Hc & Hmu). exists c. by rewrite E. Qed.

Lemma ws_locked_app (s s' : State) (c0 : Clients) (p : nat) :
  clients s' = clients s ++ [c0] → ws_locked s p → ws_locked s' p.
Proof.
  intros E (c & Hc & Hmu). exists c. rewrite E.
  split; [by apply lookup_app_l_Some|done].
Qed.

Ltac locked :=
  first [ by (eapply ws_locked_same; [reflexivity|])
        | by (eapply ws_locked_app; [reflexivity|])
        | by (eapply ws_locked_alter; [|reflexivity|]; [by intros []|]) ].

Section SessionLock.
Context (json_marshal : Message → option string).
Context (json_unmarshal_response : string → option MessageResponse).
Context (json_unmarshal_strings : string → option (list string)).

Local Abbreviation gstep := (g_step json_marshal).
Local Abbreviation wstep :=
  (w_step json_unmarshal_response json_unmarshal_strings).
Local Abbreviation mstep :=
  (step json_marshal json_unmarshal_response json_unmarshal_strings).
Local Abbreviation run :=
  (exec json_marshal json_unmarshal_response json_unmarshal_strings).
Local Abbreviation reach :=
  (reachable json_marshal json_unmarshal_response json_unmarshal_strings).

Lemma step_ws_locked (s s' : State) (l : Label) (p : nat) :
  mstep s l = Some s' → ws_locked s p → ws_locked s' p.
Proof.
  intros Hstep Hl.
  destruct l as [g cid ip u now|t i|t i|g cid a prm rnd|t i|g cid];
    simpl in Hstep.
  - injection Hstep as <-. unfold ws_connect. case_decide; [done|locked].
  - unfold w_step, deliver in Hstep.
    destruct (wthreads s !! t) as [th|]; [simpl in Hstep|done].
    destruct (clients s !! w_client th) as [c0|] eqn:Hc0; [simpl in Hstep|done].
    destruct (w_pc th), i; try done; step_cases; locked.
  - unfold h_step in Hstep. step_cases; locked.
  - injection Hstep as <-. unfold getResult. repeat case_match; locked.
  - unfold g_step in Hstep.
    destruct (gthreads s !! t) as [th|]; [simpl in Hstep|done].
    destruct (clients s !! g_client th) as [c0|] eqn:Hc0; [simpl in Hstep|done].
    destruct (g_pc th), i; try done; step_cases; locked.
  - injection Hstep as <-. unfold kickClient. repeat case_match; locked.
Qed.

Lemma run_ws_locked (s s' : State) (ls : list Label) (p : nat) :
  run s ls = Some s' → ws_locked s p → ws_locked s' p.
Proof.
  revert s. induction ls as [|l ls IH]; intros s Hrun Hl; simpl in Hrun.
  - by injection Hrun as <-.
  - destruct (mstep s l) as [s1|] eqn:Hs1; [simpl in Hrun|done].
    eapply IH; [done|]. by eapply step_ws_locked.
Qed.

Lemma step_client_back (s s' : State) (l : Label) (p : nat) (c' : Clients) :
  mstep s l = Some s' → clients s' !! p = Some c' →
  (∃ c, clients s !! p = Some c ∧ same_identity c c') ∨
  (p = length (clients s) ∧ clientWs c' = length (conns s) ∧
   clientGroup c' ≠ "").
Proof.
  intros Hstep Hc'. destruct (clients s !! p) as [c|] eqn:Hc.
  - left. exists c. split; [done|].
    destruct (step_extends _ _ _ _ _ _ Hstep) as [Hcl _].
    destruct (Hcl p c Hc) as (c2 & Hc2 & Hid). congruence.
  - right. pose proof (step_heap_lengths _ _ _ _ _ _ Hstep) as Hlen.
    apply lookup_ge_None in Hc.
    destruct l as [g cid ip u now|t i|t i|g cid a prm rnd|t i|g cid];
      try (apply proj1 in Hlen; apply lookup_lt_Some in Hc'; lia).
    simpl in Hstep. injection Hstep as <-. unfold ws_connect in Hc'.
    case_decide; [apply lookup_lt_Some in Hc'; lia|]. fields.
    apply lookup_app_Some in Hc' as [Hc'|[_ Hc']];
      [apply lookup_lt_Some in Hc'; lia|].
    apply list_lookup_singleton_Some in Hc' as [Hp <-]. simpl.
    split; [lia|done].
Qed.

Lemma sess_inv_step (s s' : State) (l : Label) :
  aligned s → sess_inv s → mstep s l = Some s' → sess_inv s'.
Proof.
  intros (Hcl & Hcn & _) Hinv Hstep p c' Hc'.
  destruct (step_client_back _ _ _ _ _ Hstep Hc')
    as [(c & Hc & Hg & _ & Hw)|(-> & Hw & Hg)].
  - destruct (Hinv p c Hc). split; congruence.
  - split; [congruence|done].
Qed.

Lemma reachable_sess_inv (s : State) : reach s → aligned s ∧ sess_inv s.
Proof.
  apply (reachable_ind _ _ _ (λ s, aligned s ∧ sess_inv s)).
  - split; [|intros p c Hc; by destruct p].
    split; [done|]. split; [done|]. intros t th Ht. by destruct t.
  - intros s0 l s' _ [Ha Hs] Hstep.
    split; [by eapply aligned_step|by eapply sess_inv_step].
Qed.

(** X5.  wsMu is unlocked by a plain statement after WriteMessage (lines
    83-89 of GQueryFunc), not by a defer.  When WriteMessage panics on an
    open connection the write lock of the session stays locked; once
    locked it stays locked through every run of the program, and then
    every call on that session that has reached its write, and every tick
    of a heartbeat of that session, is blocked. *)
Theorem write_panic_wedges_session :
  (∀ s t th c cn data,
     gthreads s !! t = Some th → g_pc th = G_Send →
     clients s !! g_client th = Some c → wsMu c = false →
     conns s !! clientWs c = Some cn → conn_closed cn = false →
     json_marshal (mkMessage (g_funcName th) (g_MessageId th) (g_param th))
     = Some data →
     ∃ s', gstep t (GI_write WritePanic) s = Some s' ∧
           ws_locked s' (g_client th) ∧ conns s' = conns s) ∧
  (∀ s ls s' p,
     ws_locked s p → run s ls = Some s' →
     ws_locked s' p ∧
     (∀ t th i data,
        gthreads s' !! t = Some th → g_client th = p → g_pc th = G_Send →
        json_marshal (mkMessage (g_funcName th) (g_MessageId th) (g_param th))
        = Some data →
        gstep t i s' = None) ∧
     (∀ t h ok, hthreads s' !! t = Some h → h_client h = p →
        h_step t (HI_tick ok) s' = None)).
Proof.
  split.
  - intros s t th c cn data Ht Hpc Hc Hmu Hcn Hopen Hdata.
    unfold g_step. rewrite Ht. cbn [mbind option_bind].
    rewrite Hc. cbn [mbind option_bind]. rewrite Hpc, Hdata, Hmu, Hcn.
    cbn [mbind option_bind]. unfold conn_write. rewrite Hopen.
    eexists. split; [reflexivity|]. split; [|done].
    unfold ws_locked. fields. rewrite list_lookup_alter_eq, Hc. simpl. eauto.
  - intros s ls s' p Hl Hrun.
    pose proof (run_ws_locked _ _ _ _ Hrun Hl) as (c & Hc & Hmu).
    split; [by exists c|]. split.
    + intros t th i data Ht <- Hpc Hdata. unfold g_step.
      rewrite Ht. cbn [mbind option_bind]. rewrite Hc.
      cbn [mbind option_bind]. rewrite Hpc.
      destruct i; try done. by rewrite Hdata, Hmu.
    + intros t h ok Ht <-. unfold h_step. rewrite Ht.
      cbn [mbind option_bind]. destruct (h_done h); [done|].
      rewrite Hc. cbn [mbind option_bind]. by rewrite Hmu.
Qed.

(** X6.  In a reachable state a call that has not finished can take a step
    whenever rwMu is free and the write lock of its session is not left
    locked: a call blocks on the two locks and on nothing else. *)
Theorem call_makes_progress (s : State) (t : nat) (th : GThread) :
  reach s → gthreads s !! t = Some th → g_pc th ≠ G_Done →
  rwMu s = false → ¬ ws_locked s (g_client th) →
  ∃ i s', gstep t i s = Some s'.
Proof.
  intros Hr Ht Hpc Hmu Hws.
  destruct (reachable_res_inv _ _ _ s Hr) as (_ & Hready & R1 & _).
  destruct (reachable_sess_inv s Hr) as ((Hcl & Hcn & _) & Hsess).
  destruct (Hready t th Ht) as (c & Hc & Hk).
  destruct (R1 t th Ht) as (rc & Hrc & Hcap & Hst).
  assert (Hw : wsMu c = false).
  { destruct (wsMu c) eqn:E; [|done]. destruct Hws. by exists c. }
  assert (Hconn : is_Some (conns s !! clientWs c)).
  { apply lookup_lt_is_Some. destruct (Hsess _ _ Hc) as [-> _].
    apply lookup_lt_Some in Hc. lia. }
  destruct Hconn as [cn Hconn].
  unfold g_step. rewrite Ht. cbn [mbind option_bind]. rewrite Hc.
  cbn [mbind option_bind].
  destruct (g_pc th) eqn:E; try done.
  - exists GI_run. eauto.
  - exists GI_run. rewrite Hmu. eauto.
  - exists (GI_uuid ""). rewrite Hmu. eauto.
  - exists GI_run. rewrite Hmu.
    destruct Hk as [inner Hin]; [by right|]. rewrite Hin. eauto.
  - exists (GI_write WriteErr).
    destruct (json_marshal _); [|eauto]. rewrite Hw, Hconn.
    cbn [mbind option_bind]. unfold conn_write.
    destruct (conn_closed cn); eauto.
  - exists GI_run. rewrite Hmu. eauto.
  - exists GI_timeout. eauto.
  - exists GI_run. rewrite Hrc. cbn [mbind option_bind].
    destruct Hst as [Hop Hbuf]. unfold chan_send.
    rewrite Hop, Hbuf, Hcap. simpl. eauto.
  - exists GI_run. rewrite Hmu. eauto.
  - exists GI_run. eauto.
  - exists GI_run. rewrite Hrc. cbn [mbind option_bind].
    destruct Hst as [Hop Hbuf]. unfold chan_send. rewrite Hop. eauto.
Qed.

(** X7.  In a reachable state a ws handler that has not finished can take
    a step whenever rwMu is free: its session and its connection exist,
    and it is blocked only while some handler sits in writeToMap. *)
Theorem handler_makes_progress (s : State) (t : nat) (th : WThread) :
  reach s → wthreads s !! t = Some th → w_pc th ≠ W_Done →
  rwMu s = false →
  ∃ i s', wstep t i s = Some s'.
Proof.
  intros Hr Ht Hpc Hmu.
  destruct (reachable_lock_inv _ _ _ s Hr) as (_ & _ & L2 & _).
  destruct (reachable_sess_inv s Hr) as ((Hcl & Hcn & Hal) & _).
  destruct (Hal t th Ht) as [Ec En].
  assert (Hlt : t < length (wthreads s)) by by eapply lookup_lt_Some.
  destruct (lookup_lt_is_Some_2 (clients s) (w_client th)) as [c Hc]; [lia|].
  destruct (lookup_lt_is_Some_2 (conns s) (w_conn th)) as [cn Hconn]; [lia|].
  unfold w_step. rewrite Ht. cbn [mbind option_bind]. rewrite Hc.
  cbn [mbind option_bind].
  destruct (w_pc th) eqn:E; try done.
  - exists (WI_ack WriteErr). rewrite Hconn. cbn [mbind option_bind].
    unfold conn_write. destruct (conn_closed cn); eauto.
  - exists (WI_read RE_error). rewrite Hconn. cbn [mbind option_bind].
    destruct (conn_closed cn); eauto.
  - exists WI_run. rewrite Hmu. eauto.
  - exists WI_run. rewrite Hmu. eauto.
  - assert (rwMu s = true) by (eapply L2; [done|by rewrite E]). congruence.
  - exists WI_run. eauto.
  - exists WI_run. eauto.
  - exists WI_run. eauto.
Qed.

End SessionLock.

(** ** The heartbeat of a handler *)

Lemma closed_close_recover rc : closed (chan_close_recover rc) = true.
Proof.
  unfold chan_close_recover, chan_close. by destruct (closed rc) eqn:E.
Qed.

Section Heartbeat.
Context (json_marshal : Message → option string).
Context (json_unmarshal_response : string → option MessageResponse).
Context (json_unmarshal_strings : string → option (list string)).

Local Abbreviation gstep := (g_step json_marshal).
Local Abbreviation wstep :=
  (w_step json_unmarshal_response json_unmarshal_strings).
Local Abbreviation mstep :=
  (step json_marshal json_unmarshal_response json_unmarshal_strings).
Local Abbreviation reach :=
  (reachable json_marshal json_unmarshal_response json_unmarshal_strings).

(** One transition of a handler, seen from its stop channel. *)
Lemma w_step_stop (s s' : State) (t : nat) (i : WInput) (th : WThread) :
  wstep t i s = Some s' → wthreads s !! t = Some th →
  (w_pc th = W_Ack → w_stop th = None) →
  (∀ r, w_stop th = Some r →
     ∃ rc, chans s !! r = Some rc ∧ closed rc = after_stop (w_pc th)) →
  (∀ r, w_stop th = Some r →
     (∀ p f mid, ¬ slot s p f mid r) ∧ ¬ waits s r) →
  ∃ th',
    wthreads s' = <[t := th']> (wthreads s) ∧
    w_client th' = w_client th ∧ w_conn th' = w_conn th ∧
    w_pc th' ≠ W_Ack ∧
    (after_stop (w_pc th) = true → after_stop (w_pc th') = true) ∧
    (∀ r, w_stop th' = Some r →
       ∃ rc, chans s' !! r = Some rc ∧ closed rc = after_stop (w_pc th')) ∧
    ((w_stop th' = w_stop th ∧ hthreads s' = hthreads s) ∨
     (w_pc th = W_Ack ∧ w_stop th' = Some (length (chans s)) ∧
      hthreads s' = hthreads s ++
        [mkHThread (w_client th) (w_conn th) (length (chans s)) false])).
Proof.
  intros Hstep Ht Hack Hch Hfree. unfold w_step in Hstep.
  rewrite Ht in Hstep. simpl in Hstep.
  destruct (clients s !! w_client th) as [c0|] eqn:Hc0; [simpl in Hstep|done].
  assert (Hal : ∀ f, alter f t (wthreads s) = <[t := f th]> (wthreads s)).
  { intros f. apply list_eq. intros j.
    rewrite list_lookup_alter, list_lookup_insert.
    case_decide; subst;
      [rewrite Ht, decide_True by (split; [done|by eapply lookup_lt_Some])
      |rewrite decide_False by (intros [? ?]; done)]; done. }
  assert (Hid : wthreads s = <[t := th]> (wthreads s))
    by by rewrite list_insert_id.
  assert (Hdel : ∀ ch msg s1 r rc,
            deliver ch msg s = Delivered s1 → w_stop th = Some r →
            chans s !! r = Some rc →
            (∃ p f mid, ch = readFromMap c0 f mid ∧ p = w_client th) ∨
            (∃ r0 m, ch = Some r0 ∧ w_pc th = W_Parked (Some r0) m) →
            chans s1 !! r = Some rc).
  { intros ch msg s1 r rc Hd Hst Hrc Hsrc. unfold deliver in Hd.
    destruct ch as [r0|]; [|done].
    destruct (chans s !! r0) as [rc0|] eqn:Hr0; [|done].
    destruct (chan_send rc0 msg); try done. injection Hd as <-.
    fields. apply alter_touch; [done|]. intros ->.
    destruct (Hfree _ Hst) as [Hns Hnw].
    destruct Hsrc as [(p & f & mid & E & ->)|(r1 & m & E & Hpc)].
    - apply (Hns (w_client th) f mid). by exists c0.
    - injection E as <-. apply Hnw. right. by exists t, th, m. }
  destruct (w_pc th) eqn:Hpc, i; try done.
  - (* W_Ack *)
    destruct (conns s !! w_conn th) as [cn|]; [simpl in Hstep|done].
    destruct (conn_write cn _ o) as [[| |] cn'] eqn:Hw;
      injection Hstep as <-.
    + eexists. split; [fields; apply Hal|]. simpl.
      do 4 (split; [done|]). split.
      * intros r [= <-]. exists (make_chan 0). fields.
        by rewrite lookup_app_r, Nat.sub_diag.
      * right. done.
    + exists (w_at W_Close th). split; [fields; apply Hal|]. simpl.
      do 4 (split; [done|]). split; [|by left].
      intros r Hr. rewrite Hack in Hr; done.
    + exists (w_at W_Close th). split; [fields; apply Hal|]. simpl.
      do 4 (split; [done|]). split; [|by left].
      intros r Hr. rewrite Hack in Hr; done.
  - (* W_Read *)
    destruct (conns s !! w_conn th) as [cn|]; [simpl in Hstep|done].
    assert (Hkeep : ∀ s1, chans s1 = chans s → hthreads s1 = hthreads s →
              wthreads s1 = wthreads s →
              ∃ th', wthreads s1 = <[t := th']> (wthreads s) ∧
                w_client th' = w_client th ∧ w_conn th' = w_conn th ∧
                w_pc th' ≠ W_Ack ∧
                (after_stop W_Read = true → after_stop (w_pc th') = true) ∧
                (∀ r, w_stop th' = Some r →
                   ∃ rc, chans s1 !! r = Some rc ∧
                         closed rc = after_stop (w_pc th')) ∧
                ((w_stop th' = w_stop th ∧ hthreads s1 = hthreads s) ∨
                 (W_Read = W_Ack ∧ w_stop th' = Some (length (chans s)) ∧
                  hthreads s1 = hthreads s ++
                    [mkHThread (w_client th) (w_conn th) (length (chans s))
                       false]))).
    { intros s1 E1 E2 E3. exists th. rewrite E1, E2, E3, Hpc.
      split; [exact Hid|]. do 4 (split; [done|]). split; [|by left].
      intros r Hr. destruct (Hch r Hr) as (rc & Hrc & Hcl). by exists rc. }
    assert (Hgo : ∀ pc, after_stop pc = false → pc ≠ W_Ack →
              ∃ th', wthreads (w_goto t pc s) = <[t := th']> (wthreads s) ∧
                w_client th' = w_client th ∧ w_conn th' = w_conn th ∧
                w_pc th' ≠ W_Ack ∧
                (after_stop W_Read = true → after_stop (w_pc th') = true) ∧
                (∀ r, w_stop th' = Some r →
                   ∃ rc, chans (w_goto t pc s) !! r = Some rc ∧
                         closed rc = after_stop (w_pc th')) ∧
                ((w_stop th' = w_stop th ∧
                  hthreads (w_goto t pc s) = hthreads s) ∨
                 (W_Read = W_Ack ∧ w_stop th' = Some (length (chans s)) ∧
                  hthreads (w_goto t pc s) = hthreads s ++
                    [mkHThread (w_client th) (w_conn th) (length (chans s))
                       false]))).
    { intros pc Hpc' Hna. exists (w_at pc th). split; [fields; apply Hal|].
      simpl. do 4 (split; [done|]). split; [|by left].
      intros r Hr. destruct (Hch r Hr) as (rc & Hrc & Hcl). exists rc.
      simpl in Hcl. rewrite Hpc'. done. }
    destruct (if conn_closed cn then RE_error else ev) as [|now|m];
      [injection Hstep as <-; by apply Hgo
      |injection Hstep as <-; by apply Hkeep|].
    destruct (json_unmarshal_response m) as [r|];
      [|injection Hstep as <-; by apply Hkeep].
    destruct (is_announcement r);
      [destruct (json_unmarshal_strings _); injection Hstep as <-;
       by apply Hkeep|].
    injection Hstep as <-. by apply Hgo.
  - (* W_Lookup *)
    destruct (rwMu s); [done|]. injection Hstep as <-.
    eexists (w_at _ th). split; [fields; apply Hal|]. simpl.
    split; [done|]. split; [done|].
    split; [by destruct (readFromMap c0 _ _)|]. split; [done|].
    split; [|by left]. intros r0 Hr. destruct (Hch r0 Hr) as (rc & Hrc & Hcl).
    exists rc. split; [done|]. simpl in Hcl.
    by destruct (readFromMap c0 _ _).
  - (* W_Deliver *)
    destruct (rwMu s); [done|]. injection Hstep as <-.
    destruct (deliver _ _ s) as [s1| |] eqn:Hd.
    + exists (w_at W_Read th).
      assert (E : wthreads s1 = wthreads s ∧ hthreads s1 = hthreads s).
      { unfold deliver in Hd. step_cases; done. }
      destruct E as [E1 E2].
      split; [fields; rewrite E1; apply Hal|]. simpl.
      do 4 (split; [done|]). split; [|left; split; [done|exact E2]].
      intros r0 Hr. destruct (Hch r0 Hr) as (rc & Hrc & Hcl).
      exists rc. split; [|done].
      fields. eapply Hdel; [exact Hd|done|done|]. left.
      by exists (w_client th), (rAction r), (rMessageId r).
    + exists (w_at W_Read th). split; [fields; apply Hal|]. simpl.
      do 4 (split; [done|]). split; [|by left].
      intros r0 Hr. destruct (Hch r0 Hr) as (rc & Hrc & Hcl).
      exists rc. done.
    + eexists (w_at _ th). split; [fields; apply Hal|]. simpl.
      do 4 (split; [done|]). split; [|by left].
      intros r0 Hr. destruct (Hch r0 Hr) as (rc & Hrc & Hcl).
      exists rc. done.
  - (* W_Parked *)
    destruct (deliver ch msg s) as [s1| |] eqn:Hd; [| |done];
      injection Hstep as <-.
    + exists (w_at W_Read th).
      assert (E : wthreads s1 = wthreads s ∧ hthreads s1 = hthreads s).
      { unfold deliver in Hd. step_cases; done. }
      destruct E as [E1 E2].
      split; [fields; rewrite E1; apply Hal|]. simpl.
      do 4 (split; [done|]). split; [|left; split; [done|exact E2]].
      intros r0 Hr. destruct (Hch r0 Hr) as (rc & Hrc & Hcl).
      exists rc. split; [|done].
      fields. eapply Hdel; [exact Hd|done|done|]. right.
      destruct ch as [r1|]; [|done]. by exists r1, msg.
    + exists (w_at W_Read th). split; [fields; apply Hal|]. simpl.
      do 4 (split; [done|]). split; [|by left].
      intros r0 Hr. destruct (Hch r0 Hr) as (rc & Hrc & Hcl).
      exists rc. done.
  - (* W_StopHb *)
    injection Hstep as <-. exists (w_at W_Close th).
    split; [destruct (w_stop th); fields; apply Hal|]. simpl.
    do 4 (split; [done|]).
    split; [|left; split; [done|by destruct (w_stop th)]].
    intros r Hr. rewrite Hr. destruct (Hch r Hr) as (rc & Hrc & _).
    exists (chan_close_recover rc).
    split; [fields; by rewrite list_lookup_alter_eq, Hrc|].
    apply closed_close_recover.
  - (* W_Close *)
    injection Hstep as <-. exists (w_at W_Delete th).
    split; [fields; apply Hal|]. simpl. do 4 (split; [done|]).
    split; [|by left]. intros r Hr. destruct (Hch r Hr) as (rc & Hrc & Hcl).
    exists rc. done.
  - (* W_Delete *)
    injection Hstep as <-. exists (w_at W_Done th).
    split; [fields; apply Hal|]. simpl. do 4 (split; [done|]).
    split; [|by left]. intros r Hr. destruct (Hch r Hr) as (rc & Hrc & Hcl).
    exists rc. done.
Qed.

Lemma step_wthread_back (s s' : State) (l : Label) (t : nat) (th' : WThread) :
  mstep s l = Some s' → (∀ i, l ≠ WStep t i) →
  wthreads s' !! t = Some th' →
  wthreads s !! t = Some th' ∨ (w_pc th' = W_Ack ∧ w_stop th' = None).
Proof.
  intros Hstep Hl Ht'.
  pose proof (step_keeps_registry _ _ _ _ _ _ Hstep) as Hkeep.
  destruct l as [g cid ip u now|t0 i|t0 i|g cid a prm rnd|t0 i|g cid];
    [| |destruct Hkeep as [_ Hw]; rewrite Hw in Ht'; by left ..].
  - simpl in Hstep. injection Hstep as <-. unfold ws_connect in Ht'.
    case_decide; [by left|]. fields.
    apply lookup_app_Some in Ht' as [Ht'|[_ Ht']]; [by left|].
    apply list_lookup_singleton_Some in Ht' as [_ <-]. by right.
  - simpl in Hstep.
    destruct (w_step_thread _ _ _ _ _ _ Hstep) as (th & th1 & _ & Hw & _).
    rewrite Hw, list_lookup_insert_ne in Ht'; [by left|].
    intros ->. by eapply Hl.
Qed.

Lemma step_hthread_back (s s' : State) (l : Label) (j : nat) (h' : HThread) :
  mstep s l = Some s' → (∀ t i, l ≠ WStep t i) →
  hthreads s' !! j = Some h' →
  ∃ h, hthreads s !! j = Some h ∧ h_stop h' = h_stop h ∧
       h_client h' = h_client h ∧ h_conn h' = h_conn h ∧
       (h_done h' = true →
        h_done h = true ∨
        ∃ rc, chans s !! h_stop h = Some rc ∧ closed rc = true).
Proof.
  intros Hstep Hl Hj.
  assert (Hsame : hthreads s !! j = Some h' →
            ∃ h, hthreads s !! j = Some h ∧ h_stop h' = h_stop h ∧
                 h_client h' = h_client h ∧ h_conn h' = h_conn h ∧
                 (h_done h' = true →
                  h_done h = true ∨
                  ∃ rc, chans s !! h_stop h = Some rc ∧ closed rc = true)).
  { intros H. exists h'. repeat split; auto. }
  destruct l as [g cid ip u now|t0 i|t0 i|g cid a prm rnd|t0 i|g cid];
    simpl in Hstep.
  - injection Hstep as <-. apply Hsame. unfold ws_connect in Hj.
    by case_decide.
  - by destruct (Hl t0 i).
  - unfold h_step in Hstep.
    destruct (hthreads s !! t0) as [h0|] eqn:Ht0; [simpl in Hstep|done].
    destruct (h_done h0) eqn:Hd; [done|].
    destruct i as [ok|].
    + apply Hsame. step_cases; done.
    + destruct (chans s !! h_stop h0) as [rc|] eqn:Hrc; [simpl in Hstep|done].
      destruct (closed rc) eqn:Hcl; [|done]. injection Hstep as <-.
      fields. apply lookup_alter_inv in Hj as (h & Hh & ->).
      exists h. split; [done|]. case_decide; [subst|by auto].
      assert (h = h0) as -> by congruence. simpl.
      repeat split; try done. intros _. right. by exists rc.
  - injection Hstep as <-. apply Hsame. unfold getResult in Hj.
    by repeat case_match.
  - apply Hsame. unfold g_step in Hstep.
    destruct (gthreads s !! t0) as [th|]; [simpl in Hstep|done].
    destruct (clients s !! g_client th) as [c0|]; [simpl in Hstep|done].
    destruct (g_pc th), i; try done; step_cases; done.
  - injection Hstep as <-. apply Hsame. unfold kickClient in Hj.
    by repeat case_match.
Qed.

Lemma stop_inv_step (s s' : State) (l : Label) :
  chan_inv s → res_inv s → stop_inv s → mstep s l = Some s' → stop_inv s'.
Proof.
  intros (K1 & K2 & K3 & K4) (R1 & R2 & R3) (S1 & S2 & S3 & S4) Hstep.
  assert (Hfree : ∀ t th r, wthreads s !! t = Some th → w_stop th = Some r →
            r < length (chans s) ∧
            (∀ p f mid, ¬ slot s p f mid r) ∧ ¬ waits s r).
  { intros t th r Ht Hr. assert (Hc : closable s r) by (right; eauto).
    destruct (K3 _ Hc) as [Hlt Hns]. split; [done|]. split; [done|].
    intros Hw. by apply R2 in Hw as [_ ?]. }
  assert (Hkeep : ∀ t th r rc,
            wthreads s !! t = Some th → w_stop th = Some r →
            chans s !! r = Some rc → (∀ i, l ≠ WStep t i) →
            chans s' !! r = Some rc).
  { intros t th r rc Ht Hr Hrc Hl.
    destruct (Hfree _ _ _ Ht Hr) as (_ & Hns & Hnw).
    destruct (step_touch _ _ _ _ _ _ _ _ Hstep Hrc)
      as [?|[(p & f & mid & Hs)|[Hw|[(t1 & wt & El & Hwt & _ & Hst)|
           (t1 & i1 & th1 & El & Ht1 & Er)]]]]; try done.
    - by destruct (Hns _ _ _ Hs).
    - assert (t1 = t) as -> by by eapply S3. by destruct (Hl WI_run).
    - destruct (R1 _ _ Ht1) as (rc1 & Hrc1 & Hcap1 & _).
      destruct (R3 _ _ _ Ht Hr) as (rc0 & Hrc0 & Hcap0).
      rewrite Er in Hrc1. congruence. }
  assert (Hdec : (∃ t0 i, l = WStep t0 i) ∨ (∀ t i, l ≠ WStep t i)).
  { destruct l; try (right; intros ? ?; discriminate). left. eauto. }
  destruct Hdec as [(t0 & i & ->)|Hl].
  - simpl in Hstep.
    destruct (w_step_thread _ _ _ _ _ _ Hstep) as (th0 & _ & Ht0 & _).
    destruct (w_step_stop _ _ _ _ _ Hstep Ht0 (S1 _ _ Ht0))
      as (th0' & Hw & Hcl0 & Hcn0 & Hna & Hmono & Hch0 & Hcase).
    { intros r Hr. by eapply S2. }
    { intros r Hr. by eapply Hfree. }
    assert (Hlt : t0 < length (wthreads s)) by by eapply lookup_lt_Some.
    assert (Hold : ∀ t th, wthreads s' !! t = Some th → t ≠ t0 →
              wthreads s !! t = Some th).
    { intros t th Ht Hne. by rewrite Hw, list_lookup_insert_ne in Ht. }
    assert (Hnew : wthreads s' !! t0 = Some th0')
      by by rewrite Hw, list_lookup_insert_eq.
    assert (Hstop0 : ∀ r, w_stop th0' = Some r →
              w_stop th0 = Some r ∨ r = length (chans s)).
    { intros r Hr. destruct Hcase as [[E _]|(_ & E & _)];
        [left|right]; congruence. }
    split; [|split; [|split]].
    + intros t th Ht Hpc. destruct (decide (t = t0)) as [->|Hne].
      * assert (th = th0') as -> by congruence. done.
      * eapply S1; [by apply Hold|done].
    + intros t th r Ht Hr. destruct (decide (t = t0)) as [->|Hne].
      * assert (th = th0') as -> by congruence. by apply Hch0.
      * apply Hold in Ht; [|done].
        destruct (S2 _ _ _ Ht Hr) as (rc & Hrc & Hcl). exists rc.
        split; [|done]. eapply Hkeep; [done..|]. intros i0 [= ? _]. done.
    + intros t t' th th' r Ht Ht' Hr Hr'.
      destruct (decide (t = t0)) as [->|Hne],
               (decide (t' = t0)) as [->|Hne']; try done.
      * assert (th = th0') as -> by congruence.
        apply Hold in Ht'; [|done].
        destruct (Hfree _ _ _ Ht' Hr') as [Hb _].
        destruct (Hstop0 _ Hr) as [E|E]; [by eapply S3|lia].
      * assert (th' = th0') as -> by congruence.
        apply Hold in Ht; [|done].
        destruct (Hfree _ _ _ Ht Hr) as [Hb _].
        destruct (Hstop0 _ Hr') as [E|E]; [by eapply S3|lia].
      * eapply S3; [by apply Hold|by apply Hold|done..].
    + intros j h Hj.
      assert (Hfwd : hthreads s !! j = Some h →
                ∃ t th, wthreads s' !! t = Some th ∧ started_by th h ∧
                        (h_done h = true → after_stop (w_pc th) = true)).
      { intros Hj0. destruct (S4 _ _ Hj0) as (t & th & Ht & Hsb & Hd).
        destruct (decide (t = t0)) as [->|Hne].
        - assert (th = th0) as -> by congruence.
          destruct Hsb as (E1 & E2 & E3). exists t0, th0'.
          split; [done|]. split; [|by auto].
          destruct Hcase as [[E _]|(Hpc & _)];
            [unfold started_by; by rewrite E, Hcl0, Hcn0|].
          rewrite (S1 _ _ Ht0 Hpc) in E1. done.
        - exists t, th. split; [|done].
          by rewrite Hw, list_lookup_insert_ne. }
      destruct Hcase as [[_ Eh]|(Hpc & Est & Eh)]; rewrite Eh in Hj;
        [by apply Hfwd|].
      apply lookup_app_Some in Hj as [Hj|[_ Hj]]; [by apply Hfwd|].
      apply list_lookup_singleton_Some in Hj as [_ <-].
      exists t0, th0'. split; [done|]. split; [|done].
      unfold started_by. simpl. done.
  - assert (Hfw : ∀ t th, wthreads s !! t = Some th →
              wthreads s' !! t = Some th).
    { intros t th Ht.
      pose proof (step_keeps_registry _ _ _ _ _ _ Hstep) as Hk.
      destruct l as [g cid ip u now|t0 i|t0 i|g cid a prm rnd|t0 i|g cid];
        [| |destruct Hk as [_ Hk]; by rewrite Hk ..].
      - simpl in Hstep. injection Hstep as <-. unfold ws_connect.
        case_decide; [done|]. fields. by apply lookup_app_l_Some.
      - by destruct (Hl t0 i). }
    split; [|split; [|split]].
    + intros t th Ht Hpc.
      destruct (step_wthread_back _ _ _ _ _ Hstep (Hl t) Ht) as [H0|[_ ?]];
        [by eapply S1|done].
    + intros t th r Ht Hr.
      destruct (step_wthread_back _ _ _ _ _ Hstep (Hl t) Ht) as [H0|[_ ?]];
        [|congruence].
      destruct (S2 _ _ _ H0 Hr) as (rc & Hrc & Hcl). exists rc.
      split; [|done]. eapply Hkeep; [done..|]. apply Hl.
    + intros t t' th th' r Ht Ht' Hr Hr'.
      destruct (step_wthread_back _ _ _ _ _ Hstep (Hl t) Ht) as [H0|[_ ?]];
        [|congruence].
      destruct (step_wthread_back _ _ _ _ _ Hstep (Hl t') Ht') as [H1|[_ ?]];
        [|congruence].
      by eapply S3.
    + intros j h' Hj.
      destruct (step_hthread_back _ _ _ _ _ Hstep Hl Hj)
        as (h & Hh & E1 & E2 & E3 & Hd).
      destruct (S4 _ _ Hh) as (t & th & Ht & (B1 & B2 & B3) & Hdone).
      exists t, th. split; [by apply Hfw|].
      split; [unfold started_by; by rewrite E1, E2, E3|].
      intros Hd'. destruct (Hd Hd') as [?|(rc & Hrc & Hcl)]; [by auto|].
      destruct (S2 _ _ _ Ht B1) as (rc0 & Hrc0 & Hcl0). congruence.
Qed.

Lemma reachable_stop_inv (s : State) :
  reach s → (chan_inv s ∧ map_ready s ∧ res_inv s) ∧ stop_inv s.
Proof.
  apply (reachable_ind _ _ _
           (λ s, (chan_inv s ∧ map_ready s ∧ res_inv s) ∧ stop_inv s)).
  - split; [by apply (reachable_res_inv json_marshal json_unmarshal_response
                        json_unmarshal_strings); exists []|].
    split; [intros t th Ht; by destruct t|].
    split; [intros t th r Ht; by destruct t|].
    split; [intros t t' th th' r Ht; by destruct t|].
    intros j h Hj. by destruct j.
  - intros s0 l s' Hr0 [(Hc & Hm & Hv) Hs] Hstep. split.
    + apply (reachable_res_inv json_marshal json_unmarshal_response
               json_unmarshal_strings).
      destruct Hr0 as [ls Hls]. exists (ls ++ [l]).
      rewrite exec_app, Hls. simpl. by rewrite Hstep.
    + by eapply stop_inv_step.
Qed.

(** X8.  Every heartbeat goroutine of a reachable state was started by
    exactly one ws handler, whose session and connection it pings.  Its
    stop channel is closed exactly when that handler has run its deferred
    close(stopHeartbeat); a heartbeat that has returned belongs to a
    handler past that close; and a heartbeat that has not returned can
    take the stop branch of its select exactly then. *)
Theorem heartbeat_lifetime (s : State) (j : nat) (h : HThread) :
  reach s → hthreads s !! j = Some h →
  ∃ t th rc,
    wthreads s !! t = Some th ∧ started_by th h ∧
    (∀ t' th', wthreads s !! t' = Some th' →
       w_stop th' = Some (h_stop h) → t' = t) ∧
    chans s !! h_stop h = Some rc ∧ closed rc = after_stop (w_pc th) ∧
    (h_done h = true → after_stop (w_pc th) = true) ∧
    (h_done h = false →
     (is_Some (h_step j HI_stop s) ↔ after_stop (w_pc th) = true)).
Proof.
  intros Hr Hj.
  destruct (reachable_stop_inv s Hr) as (_ & S1 & S2 & S3 & S4).
  destruct (S4 _ _ Hj) as (t & th & Ht & Hsb & Hd).
  pose proof Hsb as (B1 & _).
  destruct (S2 _ _ _ Ht B1) as (rc & Hrc & Hcl).
  exists t, th, rc. split; [done|]. split; [done|].
  split; [intros t' th' Ht' Hr'; by eapply S3|].
  split; [done|]. split; [done|]. split; [done|].
  intros Hnd. unfold h_step. rewrite Hj. cbn [mbind option_bind].
  rewrite Hnd, Hrc. cbn [mbind option_bind]. rewrite <- Hcl.
  destruct (closed rc); split; intros H; try done; by destruct H.
Qed.

End Heartbeat.

(** ** The listing endpoints *)

(** Both loops are the same grouping fold. *)
Lemma group_fold {B} (val : Clients → B) (l : list (nat * Clients))
    (d0 : gmap string (list B)) (g : string) :
  foldl (λ d e, <[clientGroup e.2 :=
                    default [] (d !! clientGroup e.2) ++ [val e.2]]> d) d0 l
    !! g
  = let members := filter (λ e, clientGroup e.2 = g) l in
    if decide (members = []) then d0 !! g
    else Some (default [] (d0 !! g) ++ ((λ e, val e.2) <$> members)).
Proof.
  revert d0. induction l as [|e l IH]; intros d0.
  { cbv zeta. rewrite filter_nil. reflexivity. }
  cbn [foldl]. rewrite IH. cbv zeta. rewrite filter_cons.
  destruct (decide (clientGroup e.2 = g)) as [<-|Hne].
  - rewrite lookup_insert_eq. simpl.
    destruct (decide (filter _ l = [])) as [Hnil|_];
      [by rewrite Hnil|by rewrite <- app_assoc].
  - rewrite lookup_insert_ne by done. done.
Qed.

Section Listing.
Context (json_marshal : Message → option string).
Context (json_unmarshal_response : string → option MessageResponse).
Context (json_unmarshal_strings : string → option (list string)).

Local Abbreviation reach :=
  (reachable json_marshal json_unmarshal_response json_unmarshal_strings).

(** The sessions Range visits have pairwise different (group, id). *)
Lemma range_values_identity (s : State) (e1 e2 : nat * Clients) :
  reach s → e1 ∈ range_values s → e2 ∈ range_values s →
  clientGroup e1.2 = clientGroup e2.2 → clientId e1.2 = clientId e2.2 →
  e1 = e2.
Proof.
  intros Hr H1 H2 Hg Hi. destruct e1 as [p1 c1], e2 as [p2 c2].
  apply range_values_spec in H1 as [[k1 Hk1] Hc1].
  apply range_values_spec in H2 as [[k2 Hk2] Hc2]. simpl in *.
  destruct (reachable_registry_inv _ _ _ s Hr k1 p1 Hk1)
    as (t1 & th1 & c1' & _ & _ & _ & Hkey1 & _ & Hc1' & Hg1 & Hi1 & _).
  destruct (reachable_registry_inv _ _ _ s Hr k2 p2 Hk2)
    as (t2 & th2 & c2' & _ & _ & _ & Hkey2 & _ & Hc2' & Hg2 & Hi2 & _).
  assert (c1' = c1) as -> by congruence.
  assert (c2' = c2) as -> by congruence.
  assert (k1 = k2).
  { rewrite <- Hkey1, <- Hkey2. unfold w_key. congruence. }
  subst k2. assert (p1 = p2) as -> by congruence. congruence.
Qed.

Lemma range_values_NoDup_full (s : State) : reach s → NoDup (range_values s).
Proof.
  intros Hr. eapply NoDup_fmap_1.
  apply (range_values_NoDup json_marshal json_unmarshal_response
           json_unmarshal_strings s Hr).
Qed.

Lemma group_members (s : State) (g : string) :
  let members := filter (λ e, clientGroup e.2 = g) (range_values s) in
  (members = [] ↔
   ∀ k p c, hlSyncMap s !! k = Some p → clients s !! p = Some c →
            clientGroup c ≠ g) ∧
  (∀ c, (∃ p, (p, c) ∈ members) ↔
        ∃ k p, hlSyncMap s !! k = Some p ∧ clients s !! p = Some c ∧
               clientGroup c = g).
Proof.
  intros members.
  assert (Hin : ∀ p c, (p, c) ∈ members ↔
            ((∃ k, hlSyncMap s !! k = Some p) ∧ clients s !! p = Some c) ∧
            clientGroup c = g).
  { intros p c. unfold members. rewrite list_elem_of_filter.
    rewrite range_values_spec. simpl. tauto. }
  split.
  - split.
    + intros Hnil k p c Hk Hc Hg.
      assert (H : (p, c) ∈ members) by (apply Hin; eauto).
      rewrite Hnil in H. by apply elem_of_nil in H.
    + intros Hnone. destruct members as [|[p c] l] eqn:E; [done|exfalso].
      assert (H : (p, c) ∈ (p, c) :: l) by left.
      apply Hin in H as [[[k Hk] Hc] Hg]. by eapply Hnone.
  - intros c. split.
    + intros [p H]. apply Hin in H as [[[k Hk] Hc] Hg]. eauto.
    + intros (k & p & Hk & Hc & Hg). exists p. apply Hin. eauto.
Qed.

(** X9.  getList in a reachable state: a group is absent from the answer
    exactly when no registered session has it; the ids listed under a
    group are not empty, have no repetition, and are exactly the clientIds
    of the registered sessions of the group. *)
Theorem getList_lists_registry (s : State) (g : string) :
  reach s →
  (getList s !! g = None ↔
   ∀ k p c, hlSyncMap s !! k = Some p → clients s !! p = Some c →
            clientGroup c ≠ g) ∧
  (∀ ids, getList s !! g = Some ids →
     ids ≠ [] ∧ NoDup ids ∧
     ∀ cid, cid ∈ ids ↔
            ∃ k p c, hlSyncMap s !! k = Some p ∧ clients s !! p = Some c ∧
                     clientGroup c = g ∧ clientId c = cid).
Proof.
  intros Hr. destruct (group_members s g) as [Hnil Hmem].
  set (members := filter (λ e, clientGroup e.2 = g) (range_values s)) in *.
  assert (Hget : getList s !! g
                 = if decide (members = []) then None
                   else Some ((λ e, clientId e.2) <$> members)).
  { unfold getList, list_entry.
    rewrite (group_fold clientId). cbv zeta. fold members.
    by rewrite lookup_empty. }
  rewrite Hget. split.
  - rewrite <- Hnil. case_decide; split; done.
  - intros ids. case_decide as Hne; [done|]. intros [= <-].
    split; [|split].
    + intros E. by apply fmap_nil_inv in E.
    + apply NoDup_fmap_2_strong.
      * intros e1 e2 H1 H2 Hi.
        apply list_elem_of_filter in H1 as [G1 H1].
        apply list_elem_of_filter in H2 as [G2 H2].
        eapply range_values_identity; [done..|congruence|done].
      * apply NoDup_filter. by apply range_values_NoDup_full.
    + intros cid. rewrite list_elem_of_fmap. split.
      * intros ([p c] & -> & Hin).
        destruct (proj1 (Hmem c)) as (k & q & Hk & Hc & Hg); [eauto|].
        exists k, q, c. done.
      * intros (k & p & c & Hk & Hc & Hg & <-).
        destruct (proj2 (Hmem c)) as [q Hq]; [eauto|].
        by exists (q, c).
Qed.

(** X10.  getClientDetails in a reachable state answers with the groups of
    getList; under a group it lists, with no clientId twice, exactly the
    ClientInfo (id, ip, health flag, fail count, actions) of the
    registered sessions of the group. *)
Theorem getClientDetails_lists_registry (s : State) (g : string) :
  reach s →
  (getClientDetails s !! g = None ↔ getList s !! g = None) ∧
  (∀ infos, getClientDetails s !! g = Some infos →
     NoDup (ci_ClientId <$> infos) ∧
     ∀ info, info ∈ infos ↔
             ∃ k p c, hlSyncMap s !! k = Some p ∧ clients s !! p = Some c ∧
                      clientGroup c = g ∧ info = client_info c).
Proof.
  intros Hr. destruct (group_members s g) as [Hnil Hmem].
  set (members := filter (λ e, clientGroup e.2 = g) (range_values s)) in *.
  assert (Hget : getList s !! g
                 = if decide (members = []) then None
                   else Some ((λ e, clientId e.2) <$> members)).
  { unfold getList, list_entry.
    rewrite (group_fold clientId). cbv zeta. fold members.
    by rewrite lookup_empty. }
  assert (Hdet : getClientDetails s !! g
                 = if decide (members = []) then None
                   else Some ((λ e, client_info e.2) <$> members)).
  { unfold getClientDetails, details_entry.
    rewrite (group_fold client_info). cbv zeta. fold members.
    by rewrite lookup_empty. }
  rewrite Hget, Hdet. split; [case_decide; split; done|].
  intros infos. case_decide as Hne; [done|]. intros [= <-].
  rewrite <- list_fmap_compose.
  split.
  - apply NoDup_fmap_2_strong.
    + intros e1 e2 H1 H2 Hi.
      apply list_elem_of_filter in H1 as [G1 H1].
      apply list_elem_of_filter in H2 as [G2 H2].
      eapply range_values_identity; [done..|congruence|done].
    + apply NoDup_filter. by apply range_values_NoDup_full.
  - intros info. rewrite list_elem_of_fmap. split.
    + intros ([p c] & -> & Hin).
      destruct (proj1 (Hmem c)) as (k & q & Hk & Hc & Hg); [eauto|].
      exists k, q, c. done.
    + intros (k & p & c & Hk & Hc & Hg & ->).
      destruct (proj2 (Hmem c)) as [q Hq]; [eauto|].
      by exists (q, c).
Qed.

End Listing.

(** ** Who restores the health of a session *)

Lemma health_alter (f : Clients → Clients) (l : list Clients) (q p : nat)
    (c c' : Clients) :
  (∀ x, HealthChange x (f x)) →
  l !! p = Some c → alter f q l !! p = Some c' → HealthChange c c'.
Proof.
  intros Hf Hc Hc'. pose proof (alter_lookup_Some _ _ _ _ _ _ Hc Hc') as ->.
  case_decide; [apply Hf|by apply health_kept].
Qed.

Section Health.
Context (json_marshal : Message → option string).
Context (json_unmarshal_response : string → option MessageResponse).
Context (json_unmarshal_strings : string → option (list string)).

Local Abbreviation mstep :=
  (step json_marshal json_unmarshal_response json_unmarshal_strings).

Lemma step_health (s s' : State) (l : Label) (p : nat) (c c' : Clients) :
  mstep s l = Some s' →
  clients s !! p = Some c → clients s' !! p = Some c' →
  HealthChange c c' ∨
  ∃ t th ch, l = GStep t GI_recv ∧ gthreads s !! t = Some th ∧
             g_client th = p ∧ g_pc th = G_Wait ch ∧ c' = on_success c.
Proof.
  intros Hstep Hc Hc'.
  assert (Hsame : clients s' = clients s → HealthChange c c').
  { intros E. rewrite E in Hc'. assert (c' = c) as -> by congruence.
    by apply health_kept. }
  assert (Happ : ∀ x, clients s' = clients s ++ [x] → HealthChange c c').
  { intros x E. rewrite E in Hc'. erewrite lookup_app_l_Some in Hc' by done.
    assert (c' = c) as -> by congruence. by apply health_kept. }
  assert (Halt : ∀ f q, (∀ x, HealthChange x (f x)) →
            clients s' = alter f q (clients s) → HealthChange c c').
  { intros f q Hf E. rewrite E in Hc'. by eapply health_alter. }
  destruct l as [g cid ip u now|t i|t i|g cid a prm rnd|t i|g cid];
    simpl in Hstep.
  - left. injection Hstep as <-. unfold ws_connect in *.
    case_decide; [by apply Hsame|]. by eapply Happ.
  - left. unfold w_step, deliver in Hstep.
    destruct (wthreads s !! t) as [th|]; [simpl in Hstep|done].
    destruct (clients s !! w_client th) as [c0|] eqn:Hc0; [simpl in Hstep|done].
    destruct (w_pc th), i; try done; step_cases;
      first [ by apply Hsame
            | by (eapply Halt; [|reflexivity]; intros x; by apply health_kept) ].
  - left. unfold h_step in Hstep. step_cases;
      first [ by apply Hsame
            | by (eapply Halt; [|reflexivity]; intros x; by apply health_lost) ].
  - left. injection Hstep as <-. unfold getResult in *.
    repeat case_match; by apply Hsame.
  - unfold g_step in Hstep.
    destruct (gthreads s !! t) as [th|] eqn:Ht; [simpl in Hstep|done].
    destruct (clients s !! g_client th) as [c0|] eqn:Hc0; [simpl in Hstep|done].
    destruct (g_pc th) eqn:Hpc, i; try done.
    all: try (left; step_cases;
              first [ by apply Hsame
                    | by (eapply Halt; [|reflexivity]; intros x;
                          by apply health_kept)
                    | by (eapply Halt; [|reflexivity]; intros x;
                          by apply health_lost)
                    | by (eapply Halt; [|reflexivity]; intros x;
                          by apply health_timeout) ]).
    destruct (chans s !! resultChan) as [rc|]; [simpl in Hstep|done].
    destruct (chan_recv rc) as [v rc'|]; [|done]. injection Hstep as <-.
    fields. pose proof (alter_lookup_Some _ _ _ _ _ _ Hc Hc') as ->.
    case_decide; [subst p|left; by apply health_kept].
    right. by exists t, th, resultChan.
  - left. injection Hstep as <-. unfold kickClient in *.
    repeat case_match; by apply Hsame.
Qed.

(** X11.  A session that getHealthyClient scores unhealthy (isHealthy false
    or failCount at least 3), with failCount a Go int below the largest, is
    scored healthy after one transition of the program only if that
    transition is the receive branch of the select of a call on this
    session, which sets failCount to 0 and isHealthy to true.  No pong, no
    heartbeat, no announcement and no timeout brings a session back. *)
Theorem unhealthy_until_reply (s s' : State) (l : Label) (p : nat)
    (c c' : Clients) :
  mstep s l = Some s' →
  clients s !! p = Some c → clients s' !! p = Some c' →
  scores_healthy (p, c) = false → scores_healthy (p, c') = true →
  (- 2 ^ 63 ≤ failCount c < 2 ^ 63 - 1)%Z →
  ∃ t th ch,
    l = GStep t GI_recv ∧ gthreads s !! t = Some th ∧ g_client th = p ∧
    g_pc th = G_Wait ch ∧ c' = on_success c.
Proof.
  intros Hstep Hc Hc' Hbad Hgood Hmax.
  destruct (step_health _ _ _ _ _ _ Hstep Hc Hc') as [Hch|H]; [exfalso|done].
  unfold scores_healthy in *. simpl in *.
  apply andb_true_iff in Hgood as [Hh Hf]. apply bool_decide_eq_true in Hf.
  apply andb_false_iff in Hbad.
  destruct Hch as [E1 E2|E1 E2|E].
  - rewrite E1, E2 in *. destruct Hbad as [?|Hb]; [congruence|].
    apply bool_decide_eq_false in Hb. lia.
  - congruence.
  - subst c'. unfold on_timeout in *. simpl in *.
    rewrite wrap64_small in * by lia. case_decide; [done|].
    destruct Hbad as [?|Hb]; [congruence|].
    apply bool_decide_eq_false in Hb. lia.
Qed.

End Health.

(** ** execjs *)

Section Execjs.
Context (json_marshal : Message → option string).
Context (json_unmarshal_response : string → option MessageResponse).
Context (json_unmarshal_strings : string → option (list string)).

Local Abbreviation reach :=
  (reachable json_marshal json_unmarshal_response json_unmarshal_strings).

Lemma selected_session_exists (s : State) (Intn : nat → nat)
    (group cid : string) (p : nat) :
  reach s → getRandomClient Intn group cid s = Some p →
  is_Some (clients s !! p).
Proof.
  intros Hr Hp. destruct (decide (cid = "")) as [->|Hne].
  - apply getRandomClient_no_id in Hp as (c & Hc & _). eauto.
  - unfold getRandomClient in Hp. rewrite decide_True in Hp by done.
    destruct (reachable_registry_inv _ _ _ s Hr _ _ Hp)
      as (t & th & c & cn & _ & _ & _ & _ & Hc & _). eauto.
Qed.

(** X12.  In a reachable state, execjs with a code that is not empty
    changes the state as getResult does for the action _execjs with the
    code as param.  Before its go statement it answers 400, leaving the
    state as it was, exactly when the code is empty or checkRequestParam
    found no session.  Otherwise it has answered nothing yet: it has
    spawned a call on the session found, with a fresh and empty result
    channel of capacity 1, and its receive of line 390 blocks.  The receive
    of a handler yields the first message in the result channel of its
    call.  A session returned by checkRequestParam comes with an empty
    error text and a group that is not empty, exists, and is the registry
    entry of (group, clientId) when a clientId was given. *)
Theorem execjs_is_getResult (s : State) (group cid code : string)
    (Intn : nat → nat) :
  reach s →
  (code ≠ "" →
   (execjs group cid code Intn s).1
   = getResult group cid "_execjs" code Intn s) ∧
  ((execjs group cid code Intn s).2 = Some 400%Z ↔
   code = "" ∨ (checkRequestParam Intn group cid s).1 = None) ∧
  ((execjs group cid code Intn s).2 = Some 400%Z →
   (execjs group cid code Intn s).1 = s) ∧
  ((execjs group cid code Intn s).2 ≠ Some 400%Z →
   (execjs group cid code Intn s).2 = None ∧
   ∃ p c,
     checkRequestParam Intn group cid s = (Some p, "") ∧
     clients s !! p = Some c ∧
     gthreads (execjs group cid code Intn s).1
     = gthreads s ++
       [mkGThread p "_execjs" code (length (chans s)) (clientIp c) ""
          G_CheckMap] ∧
     chans (execjs group cid code Intn s).1 = chans s ++ [make_chan 1] ∧
     caller_recv (length (gthreads s)) (execjs group cid code Intn s).1
     = None) ∧
  (∀ s1 t th rc v rest,
     gthreads s1 !! t = Some th → chans s1 !! g_resChan th = Some rc →
     buf rc = v :: rest →
     caller_recv t s1
     = Some (upd_chan (g_resChan th)
               (λ _, mkChan rest (cap rc) (closed rc)) s1, v)) ∧
  (∀ p e, checkRequestParam Intn group cid s = (Some p, e) →
     e = "" ∧ group ≠ "" ∧ is_Some (clients s !! p) ∧
     (cid ≠ "" → hlSyncMap s !! reg_key group cid = Some p)).
Proof.
  intros Hr.
  assert (Hsel : ∀ p, getRandomClient Intn group cid s = Some p →
            is_Some (clients s !! p))
    by (intros p; by apply selected_session_exists).
  split; [|split; [|split; [|split; [|split]]]].
  - unfold execjs, getResult, checkRequestParam.
    intros Hc. rewrite decide_False by done.
    rewrite (decide_False (P := "_execjs" = "")) by done.
    case_decide; [done|].
    destruct (getRandomClient Intn group cid s) as [p|]; [|done].
    by destruct (clients s !! p).
  - unfold execjs, checkRequestParam.
    case_decide; [split; [by left|done]|].
    case_decide; [split; [by right|done]|].
    destruct (getRandomClient Intn group cid s) as [p|] eqn:Hp;
      [|split; [by right|done]].
    destruct (Hsel p eq_refl) as [c Hc]. rewrite Hc. simpl.
    split; [done|by intros [?|?]].
  - unfold execjs, checkRequestParam.
    case_decide; [done|]. case_decide; [done|].
    destruct (getRandomClient Intn group cid s) as [p|] eqn:Hp; [|done].
    destruct (Hsel p eq_refl) as [c Hc]. rewrite Hc. simpl. done.
  - unfold execjs, checkRequestParam.
    case_decide; [done|]. case_decide; [done|].
    destruct (getRandomClient Intn group cid s) as [p|] eqn:Hp; [|done].
    destruct (Hsel p eq_refl) as [c Hc]. rewrite Hc. simpl.
    intros _. split; [done|]. exists p, c.
    split; [done|]. split; [done|]. split; [done|]. split; [done|].
    unfold caller_recv. fields.
    rewrite lookup_app_r, Nat.sub_diag by done.
    cbn [lookup list_lookup mbind option_bind g_resChan].
    rewrite lookup_app_r, Nat.sub_diag by done. reflexivity.
  - intros s1 t th rc v rest Ht Hrc Hbuf. unfold caller_recv.
    rewrite Ht. cbn [mbind option_bind]. rewrite Hrc.
    cbn [mbind option_bind]. unfold chan_recv. by rewrite Hbuf.
  - unfold checkRequestParam.
    intros p e. case_decide; [done|].
    destruct (getRandomClient Intn group cid s) as [q|] eqn:Hq; [|done].
    intros [= -> <-]. split; [done|]. split; [done|].
    split; [by apply Hsel|].
    intros Hne. unfold getRandomClient in Hq.
    by rewrite decide_True in Hq.
Qed.

End Execjs.

(** ** The owner of a slot *)

Lemma gthreads_alter (l : list GThread) (g : GThread → GThread) (t : nat)
    (th : GThread) :
  l !! t = Some th → alter g t l = <[t := g th]> l.
Proof.
  intros Ht. apply list_eq. intros j.
  rewrite list_lookup_alter, list_lookup_insert.
  case_decide; subst;
    [rewrite Ht, decide_True by (split; [done|by eapply lookup_lt_Some])
    |rewrite decide_False by (intros [? ?]; done)]; done.
Qed.

Section SlotOwners.
Context (json_marshal : Message → option string).
Context (json_unmarshal_response : string → option MessageResponse).
Context (json_unmarshal_strings : string → option (list string)).

Local Abbreviation gstep := (g_step json_marshal).
Local Abbreviation wstep :=
  (w_step json_unmarshal_response json_unmarshal_strings).
Local Abbreviation mstep :=
  (step json_marshal json_unmarshal_response json_unmarshal_strings).
Local Abbreviation reach :=
  (reachable json_marshal json_unmarshal_response json_unmarshal_strings).

Lemma step_slots_kept (s s' : State) (l : Label) :
  mstep s l = Some s' → (∀ t i, l ≠ GStep t i) → slots_kept s s'.
Proof.
  intros Hstep Hl.
  destruct l as [g cid ip u now|t i|t i|g cid a prm rnd|t i|g cid];
    simpl in Hstep.
  - injection Hstep as <-. unfold ws_connect. case_decide; kept.
  - unfold w_step, deliver in Hstep.
    destruct (wthreads s !! t) as [th|]; [simpl in Hstep|done].
    destruct (clients s !! w_client th) as [c0|] eqn:Hc0; [simpl in Hstep|done].
    destruct (w_pc th), i; try done; step_cases; kept.
  - unfold h_step in Hstep. step_cases; kept.
  - injection Hstep as <-. unfold getResult. repeat case_match; kept.
  - by destruct (Hl t i).
  - injection Hstep as <-. unfold kickClient. repeat case_match; kept.
Qed.

(** One transition of a call, seen from the slots of the tables. *)
Lemma g_step_own (s s' : State) (t : nat) (i : GInput) (th : GThread) :
  gstep t i s = Some s' → gthreads s !! t = Some th →
  ∃ th',
    gthreads s' = <[t := th']> (gthreads s) ∧
    g_client th' = g_client th ∧ g_funcName th' = g_funcName th ∧
    (holds_slot (g_pc th) = true → g_MessageId th' = g_MessageId th) ∧
    ∀ p f mid ch, slot s' p f mid ch →
      (slot s p f mid ch ∧
       ((p, f, mid) = (g_client th, g_funcName th, g_MessageId th) →
        holds_slot (g_pc th) = true → holds_slot (g_pc th') = true)) ∨
      ((p, f, mid) = (g_client th', g_funcName th', g_MessageId th') ∧
       holds_slot (g_pc th') = true).
Proof.
  intros Hstep Ht. unfold g_step in Hstep. rewrite Ht in Hstep.
  simpl in Hstep.
  destruct (clients s !! g_client th) as [c0|] eqn:Hc0; [simpl in Hstep|done].
  assert (Hgo : ∀ pc s0, gthreads s0 = gthreads s →
            gthreads (g_goto t pc s0) = <[t := g_at pc th]> (gthreads s)).
  { intros pc s0 E. fields. rewrite E. by apply gthreads_alter. }
  assert (Hquiet : ∀ pc s0,
            gthreads s0 = gthreads s → slots_kept s s0 →
            (holds_slot (g_pc th) = true → holds_slot pc = true) →
            ∃ th',
              gthreads (g_goto t pc s0) = <[t := th']> (gthreads s) ∧
              g_client th' = g_client th ∧ g_funcName th' = g_funcName th ∧
              (holds_slot (g_pc th) = true →
               g_MessageId th' = g_MessageId th) ∧
              ∀ p f mid ch, slot (g_goto t pc s0) p f mid ch →
                (slot s p f mid ch ∧
                 ((p, f, mid) = (g_client th, g_funcName th, g_MessageId th) →
                  holds_slot (g_pc th) = true →
                  holds_slot (g_pc th') = true)) ∨
                ((p, f, mid)
                 = (g_client th', g_funcName th', g_MessageId th') ∧
                 holds_slot (g_pc th') = true)).
  { intros pc s0 E Hk Hpc. exists (g_at pc th). split; [by apply Hgo|].
    simpl. do 3 (split; [done|]). intros p f mid ch Hs. left.
    split; [|done]. apply Hk. destruct Hs as (c & Hc & Hr). by exists c. }
  destruct (g_pc th) eqn:Hpc, i; try done.
  - (* G_CheckMap *)
    injection Hstep as <-. apply Hquiet; [done|kept|done].
  - (* G_MakeMap *)
    destruct (rwMu s); [done|]. injection Hstep as <-.
    apply Hquiet; [done| |done].
    intros p f mid ch (c' & Hc' & Hr). fields.
    apply lookup_alter_inv in Hc' as (c & Hc & ->). exists c.
    split; [done|]. case_decide; [subst p|done].
    assert (c = c0) as -> by congruence.
    unfold readFromMap in *. cbn [actionData set_actionData] in Hr.
    rewrite readFromMap_insert in Hr. case_decide; [|done].
    by rewrite lookup_empty in Hr.
  - (* G_GenId *)
    destruct (rwMu s); [done|]. injection Hstep as <-.
    eexists (g_with_id id _ th).
    split; [fields; by apply gthreads_alter|]. simpl.
    do 3 (split; [done|]). intros p f mid ch Hs. left. done.
  - (* G_Insert *)
    destruct (rwMu s); [done|].
    destruct (actionData c0 !! g_funcName th) as [inner|] eqn:Hin;
      injection Hstep as <-; [|apply Hquiet; [done|kept|done]].
    exists (g_at G_Send th). split; [by apply Hgo|]. simpl.
    do 3 (split; [done|]).
    intros p f mid ch (c' & Hc' & Hr). fields.
    apply lookup_alter_inv in Hc' as (c & Hc & ->).
    case_decide; [subst p|left; split; [by exists c|done]].
    assert (c = c0) as -> by congruence.
    unfold readFromMap in Hr. cbn [actionData set_actionData] in Hr.
    rewrite readFromMap_insert in Hr.
    case_decide; [subst f|left; split; [by exists c0|done]].
    destruct (decide (mid = g_MessageId th)) as [->|Hne]; [by right|].
    rewrite lookup_insert_ne in Hr by done. left. split; [|done].
    exists c0. split; [done|]. unfold readFromMap. by rewrite Hin.
  - (* G_Send *)
    destruct (json_marshal _);
      [|injection Hstep as <-; apply Hquiet; [done|kept|done]].
    destruct (wsMu c0); [done|].
    destruct (conns s !! clientWs c0) as [cn|]; [simpl in Hstep|done].
    destruct (conn_write cn _ o) as [[| |] cn'];
      injection Hstep as <-; apply Hquiet; first [done|kept].
  - (* G_Lookup *)
    destruct (rwMu s); [done|]. injection Hstep as <-.
    apply Hquiet; [done|kept|].
    by destruct (readFromMap c0 (g_funcName th) (g_MessageId th)).
  - (* receive *)
    destruct (chans s !! resultChan) as [rc|]; [simpl in Hstep|done].
    destruct (chan_recv rc); [|done]. injection Hstep as <-.
    apply Hquiet; [done|kept|done].
  - injection Hstep as <-. apply Hquiet; [done|kept|done].
  - (* G_Reply *)
    destruct (chans s !! g_resChan th) as [rc|]; [simpl in Hstep|done].
    destruct (chan_send rc res); try done; injection Hstep as <-;
      apply Hquiet; first [done|kept].
  - (* G_Cleanup *)
    destruct (rwMu s); [done|]. injection Hstep as <-.
    exists (g_at (G_CloseRes panicking) th).
    split; [destruct (actionData c0 !! g_funcName th) as [inner|];
            [destruct (inner !! g_MessageId th)|]; by apply Hgo|].
    simpl. do 3 (split; [done|]).
    intros p f mid ch Hs. left.
    destruct (actionData c0 !! g_funcName th) as [inner|] eqn:Hin.
    + destruct (inner !! g_MessageId th) as [ch0|] eqn:Hch.
      * destruct Hs as (c' & Hc' & Hr). fields.
        apply lookup_alter_inv in Hc' as (c & Hc & ->).
        case_decide; [subst p|split; [by exists c|congruence]].
        assert (c = c0) as -> by congruence.
        unfold readFromMap in Hr. cbn [actionData set_actionData] in Hr.
        rewrite readFromMap_insert in Hr.
        case_decide; [subst f|split; [by exists c0|congruence]].
        destruct (decide (mid = g_MessageId th)) as [->|Hne];
          [by rewrite lookup_delete_eq in Hr|].
        rewrite lookup_delete_ne in Hr by done.
        split; [|congruence]. exists c0. split; [done|].
        unfold readFromMap. by rewrite Hin.
      * destruct Hs as (c & Hc & Hr). fields.
        split; [by exists c|]. intros [= -> -> ->].
        assert (c = c0) as -> by congruence.
        unfold readFromMap in Hr. rewrite Hin in Hr. simpl in Hr.
        congruence.
    + destruct Hs as (c & Hc & Hr). fields.
      split; [by exists c|]. intros [= -> -> ->].
      assert (c = c0) as -> by congruence.
      unfold readFromMap in Hr. by rewrite Hin in Hr.
  - (* G_CloseRes *)
    injection Hstep as <-. apply Hquiet; [done|kept|done].
  - (* G_Recover *)
    destruct (chans s !! g_resChan th) as [rc|]; [simpl in Hstep|done].
    destruct (chan_send rc msg_internal); try done; injection Hstep as <-;
      apply Hquiet; first [done|kept].
Qed.

Lemma own_inv_step (s s' : State) (l : Label) :
  own_inv s → mstep s l = Some s' → own_inv s'.
Proof.
  intros Hinv Hstep p f mid ch Hs.
  assert (Hdec : (∃ t0 i, l = GStep t0 i) ∨ (∀ t i, l ≠ GStep t i)).
  { destruct l; try (right; intros ? ?; discriminate). left. eauto. }
  destruct Hdec as [(t0 & i & ->)|Hl].
  - simpl in Hstep.
    assert (Ht0 : is_Some (gthreads s !! t0)).
    { unfold g_step in Hstep. by destruct (gthreads s !! t0). }
    destruct Ht0 as [th0 Ht0].
    destruct (g_step_own _ _ _ _ _ Hstep Ht0)
      as (th0' & Hg & Hcl & Hfn & Hid & Hslots).
    assert (Hlt : t0 < length (gthreads s)) by by eapply lookup_lt_Some.
    destruct (Hslots _ _ _ _ Hs) as [[Hs0 Hkeep]|[Hkey Hact]].
    + destruct (Hinv _ _ _ _ Hs0) as (t & th & Ht & E1 & E2 & E3 & Hact).
      destruct (decide (t = t0)) as [->|Hne].
      * assert (th = th0) as -> by congruence.
        exists t0, th0'. rewrite Hg, list_lookup_insert_eq by done.
        split; [done|]. split; [congruence|]. split; [congruence|].
        split; [rewrite Hid; done|]. apply Hkeep; [congruence|done].
      * exists t, th. rewrite Hg, list_lookup_insert_ne by done. done.
    + injection Hkey as -> -> ->. exists t0, th0'.
      rewrite Hg, list_lookup_insert_eq by done. done.
  - destruct (Hinv p f mid ch) as (t & th & Ht & Hrest).
    { by eapply step_slots_kept. }
    exists t, th. split; [|done].
    eapply other_step_gthread; [done..|]. intros i0. apply Hl.
Qed.

Lemma reachable_own_inv (s : State) : reach s → own_inv s.
Proof.
  apply reachable_ind.
  - intros p f mid ch (c & Hc & _). by destruct p.
  - intros s0 l s' _ Hinv Hstep. by eapply own_inv_step.
Qed.

(** X13.  Every slot of a pending table in a reachable state has an owner: a
    GQueryFunc call on that session, for that action and that id, which is
    between its insert (line 40) and its deferred delete (line 51).  The
    channel of the slot is not the result channel of that call. *)
Theorem pending_slot_has_owner (s : State) (p : nat) (c : Clients)
    (f mid : string) (ch : nat) :
  reach s → clients s !! p = Some c → readFromMap c f mid = Some ch →
  ∃ t th,
    gthreads s !! t = Some th ∧ g_client th = p ∧ g_funcName th = f ∧
    g_MessageId th = mid ∧ holds_slot (g_pc th) = true ∧
    g_resChan th ≠ ch.
Proof.
  intros Hr Hc Hs.
  destruct (reachable_own_inv s Hr p f mid ch) as (t & th & Ht & E1 & E2 & E3 & Ha);
    [by exists c|].
  exists t, th. do 5 (split; [done|]). intros E.
  destruct (reachable_chan_inv _ _ _ s Hr) as (_ & _ & K3 & _).
  assert (Hcl : closable s (g_resChan th)) by (left; eauto).
  apply (proj2 (K3 _ Hcl) p f mid). rewrite E. by exists c.
Qed.

End SlotOwners.

(** ** What is written to a connection *)

Section Wire.
Context (json_marshal : Message → option string).
Context (json_unmarshal_response : string → option MessageResponse).
Context (json_unmarshal_strings : string → option (list string)).

Local Abbreviation gstep := (g_step json_marshal).
Local Abbreviation wstep :=
  (w_step json_unmarshal_response json_unmarshal_strings).
Local Abbreviation mstep :=
  (step json_marshal json_unmarshal_response json_unmarshal_strings).
Local Abbreviation reach :=
  (reachable json_marshal json_unmarshal_response json_unmarshal_strings).

Lemma step_wthread_fwd (s s' : State) (l : Label) (t : nat) (th : WThread) :
  mstep s l = Some s' → wthreads s !! t = Some th →
  ∃ th', wthreads s' !! t = Some th' ∧ w_conn th' = w_conn th ∧
         w_clientId th' = w_clientId th ∧
         (w_pc th ≠ W_Ack → w_pc th' ≠ W_Ack).
Proof.
  intros Hstep Ht.
  pose proof (step_keeps_registry _ _ _ _ _ _ Hstep) as Hkeep.
  destruct l as [g cid ip u now|t0 i|t0 i|g cid a prm rnd|t0 i|g cid];
    [| |destruct Hkeep as [_ Hw]; rewrite Hw; by exists th ..].
  - simpl in Hstep. injection Hstep as <-. unfold ws_connect.
    case_decide; [by exists th|]. fields. exists th.
    split; [by apply lookup_app_l_Some|done].
  - simpl in Hstep. destruct (decide (t0 = t)) as [->|Hne].
    + unfold w_step, deliver in Hstep. rewrite Ht in Hstep. simpl in Hstep.
      destruct (clients s !! w_client th) as [c0|]; [simpl in Hstep|done].
      destruct (w_pc th) eqn:Hpc, i; try done; step_cases; fields;
        rewrite ?list_lookup_alter_eq, ?Ht; simpl;
        first [ by exists th; rewrite Hpc
              | eexists; split; [reflexivity|]; simpl; by auto ].
    + destruct (w_step_thread _ _ _ _ _ _ Hstep) as (th0 & th1 & _ & Hw & _).
      exists th. rewrite Hw, list_lookup_insert_ne by done. done.
Qed.

Lemma step_gthread_fwd (s s' : State) (l : Label) (t : nat) (th : GThread) :
  mstep s l = Some s' → gthreads s !! t = Some th →
  ∃ th', gthreads s' !! t = Some th' ∧ g_client th' = g_client th ∧
         g_funcName th' = g_funcName th ∧ g_param th' = g_param th ∧
         (sent_pc (g_pc th) = true →
          g_MessageId th' = g_MessageId th ∧ sent_pc (g_pc th') = true).
Proof.
  intros Hstep Ht.
  assert (Hdec : (∃ i, l = GStep t i) ∨ (∀ i, l ≠ GStep t i)).
  { destruct l as [| | | |t0 i|]; try (right; intros ?; discriminate).
    destruct (decide (t0 = t)) as [->|Hne]; [left; eauto|].
    right. intros ? [= ? ?]. done. }
  destruct Hdec as [[i ->]|Hl];
    [|exists th; split; [by eapply other_step_gthread|done]].
  simpl in Hstep. unfold g_step in Hstep. rewrite Ht in Hstep.
  simpl in Hstep.
  destruct (clients s !! g_client th) as [c0|]; [simpl in Hstep|done].
  destruct (g_pc th) eqn:Hpc, i; try done; step_cases; fields;
    rewrite ?list_lookup_alter_eq, ?Ht; simpl;
    eexists; (split; [reflexivity|]); simpl; by auto.
Qed.

Lemma frame_ok_step (s s' : State) (l : Label) (r : nat) (fr : Frame) :
  mstep s l = Some s' → frame_ok json_marshal s r fr →
  frame_ok json_marshal s' r fr.
Proof.
  intros Hstep [->|[(t & th & Ht & Hcn & Hpc & ->)|
                    (t & th & c & data & Ht & Hc & Hws & Hpc & Hd & ->)]].
  - by left.
  - right. left.
    destruct (step_wthread_fwd _ _ _ _ _ Hstep Ht) as (th' & Ht' & E1 & E2 & E3).
    exists t, th'. split; [done|]. split; [congruence|].
    split; [by apply E3|]. by rewrite E2.
  - right. right.
    destruct (step_gthread_fwd _ _ _ _ _ Hstep Ht)
      as (th' & Ht' & E1 & E2 & E3 & E4).
    destruct (E4 Hpc) as [E5 E6].
    destruct (step_extends _ _ _ _ _ _ Hstep) as [Hcl _].
    destruct (Hcl _ _ Hc) as (c' & Hc' & _ & _ & Hws').
    exists t, th', c', data. rewrite E1, E2, E3, E5.
    split; [done|]. split; [done|]. split; [congruence|]. done.
Qed.

(** The frames of a connection after one transition: those it had, or one
    new frame written by the transition. *)
Lemma step_wire (s s' : State) (l : Label) (r : nat) (cn' : Conn)
    (fr : Frame) :
  mstep s l = Some s' → conns s' !! r = Some cn' → fr ∈ conn_out cn' →
  (∃ cn, conns s !! r = Some cn ∧ fr ∈ conn_out cn) ∨
  frame_ok json_marshal s' r fr.
Proof.
  intros Hstep Hr Hfr.
  assert (Hsame : conns s' = conns s →
            ∃ cn, conns s !! r = Some cn ∧ fr ∈ conn_out cn).
  { intros E. rewrite E in Hr. by exists cn'. }
  assert (Hclose : ∀ q, conns s' = alter conn_close q (conns s) →
            ∃ cn, conns s !! r = Some cn ∧ fr ∈ conn_out cn).
  { intros q E. rewrite E in Hr.
    apply lookup_alter_inv in Hr as (cn & Hcn & ->). exists cn.
    split; [done|]. by case_decide. }
  destruct l as [g cid ip u now|t i|t i|g cid a prm rnd|t i|g cid];
    simpl in Hstep.
  - left. injection Hstep as <-. unfold ws_connect in *.
    case_decide; [by apply Hsame|]. fields.
    apply lookup_app_Some in Hr as [Hr|[_ Hr]]; [by exists cn'|].
    apply list_lookup_singleton_Some in Hr as [_ <-].
    by apply elem_of_nil in Hfr.
  - unfold w_step in Hstep.
    destruct (wthreads s !! t) as [th|] eqn:Ht; [simpl in Hstep|done].
    destruct (clients s !! w_client th) as [c0|] eqn:Hc0; [simpl in Hstep|done].
    destruct (w_pc th) eqn:Hpc, i; try done.
    + (* W_Ack *)
      destruct (conns s !! w_conn th) as [cn|] eqn:Hcn; [simpl in Hstep|done].
      unfold conn_write in Hstep.
      destruct (conn_closed cn) eqn:Hclosed;
        [injection Hstep as <-; left; by apply Hsame|].
      destruct o; injection Hstep as <-; try (left; by apply Hsame).
      fields. apply lookup_alter_inv in Hr as (cn0 & Hcn0 & ->).
      case_decide; [subst r|left; by exists cn0].
      assert (cn0 = cn) as -> by congruence. simpl in Hfr.
      apply elem_of_app in Hfr as [Hfr|Hfr]; [left; by exists cn|].
      apply list_elem_of_singleton in Hfr as ->. right. right. left.
      eexists t, _. fields. rewrite list_lookup_alter_eq, Ht. simpl.
      split; [reflexivity|]. done.
    + left. apply Hsame. step_cases; done.
    + left. apply Hsame. step_cases; done.
    + left. apply Hsame. unfold deliver in Hstep. step_cases; done.
    + left. apply Hsame. unfold deliver in Hstep. step_cases; done.
    + left. apply Hsame. step_cases; done.
    + left. injection Hstep as <-. by eapply Hclose.
    + left. apply Hsame. step_cases; done.
  - unfold h_step in Hstep.
    destruct (hthreads s !! t) as [h|]; [simpl in Hstep|done].
    destruct (h_done h); [done|]. destruct i as [ok|];
      [|left; apply Hsame; step_cases; done].
    destruct (clients s !! h_client h) as [c0|]; [simpl in Hstep|done].
    destruct (wsMu c0); [done|].
    destruct (conns s !! h_conn h) as [cn|] eqn:Hcn; [simpl in Hstep|done].
    unfold conn_write in Hstep.
    destruct (conn_closed cn);
      [injection Hstep as <-; left; by apply Hsame|].
    destruct ok; injection Hstep as <-; [|left; by apply Hsame].
    fields. apply lookup_alter_inv in Hr as (cn0 & Hcn0 & ->).
    case_decide; [subst r|left; by exists cn0].
    assert (cn0 = cn) as -> by congruence. simpl in Hfr.
    apply elem_of_app in Hfr as [Hfr|Hfr]; [left; by exists cn|].
    apply list_elem_of_singleton in Hfr as ->. right. by left.
  - left. apply Hsame. injection Hstep as <-. unfold getResult.
    by repeat case_match.
  - unfold g_step in Hstep.
    destruct (gthreads s !! t) as [th|] eqn:Ht; [simpl in Hstep|done].
    destruct (clients s !! g_client th) as [c0|] eqn:Hc0; [simpl in Hstep|done].
    destruct (g_pc th) eqn:Hpc, i; try done;
      try (left; apply Hsame; step_cases; done).
    destruct (json_marshal _) as [data|] eqn:Hdata;
      [|left; apply Hsame; step_cases; done].
    destruct (wsMu c0); [done|].
    destruct (conns s !! clientWs c0) as [cn|] eqn:Hcn; [simpl in Hstep|done].
    unfold conn_write in Hstep.
    destruct (conn_closed cn);
      [injection Hstep as <-; left; by apply Hsame|].
    destruct o; injection Hstep as <-; try (left; by apply Hsame).
    fields. apply lookup_alter_inv in Hr as (cn0 & Hcn0 & ->).
    case_decide; [subst r|left; by exists cn0].
    assert (cn0 = cn) as -> by congruence. simpl in Hfr.
    apply elem_of_app in Hfr as [Hfr|Hfr]; [left; by exists cn|].
    apply list_elem_of_singleton in Hfr as ->. right. right. right.
    exists t, (g_at G_Lookup th), c0, data. fields.
    rewrite list_lookup_alter_eq, Ht. simpl. done.
  - left. injection Hstep as <-.
    assert (E : conns (kickClient g cid s).1 = conns s ∨
                ∃ q, conns (kickClient g cid s).1
                     = alter conn_close q (conns s)).
    { unfold kickClient. repeat case_match; simpl; eauto. }
    destruct E as [E|[q E]]; [by apply Hsame|by eapply Hclose].
Qed.

Lemma wire_inv_step (s s' : State) (l : Label) :
  wire_inv json_marshal s → mstep s l = Some s' → wire_inv json_marshal s'.
Proof.
  intros Hinv Hstep r cn' fr Hr Hfr.
  destruct (step_wire _ _ _ _ _ _ Hstep Hr Hfr) as [(cn & Hcn & Hin)|H];
    [|done].
  eapply frame_ok_step; [done|]. by eapply Hinv.
Qed.

Lemma reachable_wire_inv (s : State) : reach s → wire_inv json_marshal s.
Proof.
  apply reachable_ind.
  - intros r cn fr Hr. by destruct r.
  - intros s0 l s' _ Hinv Hstep. by eapply wire_inv_step.
Qed.

End Wire.

Section WireFrames.
Context (json_marshal : Message → option string).
Context (json_unmarshal_response : string → option MessageResponse).
Context (json_unmarshal_strings : string → option (list string)).

Local Abbreviation reach :=
  (reachable json_marshal json_unmarshal_response json_unmarshal_strings).

(** X14.  Every frame written to a connection of a reachable state is a
    ping, the handshake text of the handler of that connection, or the
    encoding of the Message (action, id, param) of a call on the session
    of that connection which is past its write.  Nothing else is written
    to an agent, and no request is written to the socket of another
    session. *)
Theorem wire_frames_accounted (s : State) (r : nat) (cn : Conn) (fr : Frame) :
  reach s → conns s !! r = Some cn → fr ∈ conn_out cn →
  fr = PingFrame ∨
  (∃ th, wthreads s !! r = Some th ∧ w_pc th ≠ W_Ack ∧
         fr = TextFrame (clientNameJson (w_clientId th))) ∨
  (∃ t th data,
     gthreads s !! t = Some th ∧ g_client th = r ∧
     sent_pc (g_pc th) = true ∧
     json_marshal (mkMessage (g_funcName th) (g_MessageId th) (g_param th))
     = Some data ∧
     fr = TextFrame data).
Proof.
  intros Hr Hcn Hfr.
  destruct (reachable_sess_inv _ _ _ s Hr) as ((_ & _ & Hal) & Hsess).
  destruct (reachable_wire_inv _ _ _ s Hr r cn fr Hcn Hfr)
    as [->|[(t & th & Ht & Hc & Hpc & ->)|
            (t & th & c & data & Ht & Hc & Hws & Hpc & Hd & ->)]].
  - by left.
  - right. left. destruct (Hal _ _ Ht) as [_ E].
    assert (t = r) as -> by congruence. by exists th.
  - right. right. destruct (Hsess _ _ Hc) as [E _].
    exists t, th, data. split; [done|]. split; [congruence|]. done.
Qed.

End WireFrames.

(** ** A second connection under the same id *)

Section Reconnect.
Context (json_marshal : Message → option string).
Context (json_unmarshal_response : string → option MessageResponse).
Context (json_unmarshal_strings : string → option (list string)).

Local Abbreviation mstep :=
  (step json_marshal json_unmarshal_response json_unmarshal_strings).
Local Abbreviation run :=
  (exec json_marshal json_unmarshal_response json_unmarshal_strings).

Lemma run_handler_alone (s s' : State) (t : nat) (ins : list WInput)
    (t' : nat) :
  run s (WStep t <$> ins) = Some s' → t' ≠ t →
  wthreads s' !! t' = wthreads s !! t'.
Proof.
  revert s. induction ins as [|i ins IH]; intros s Hrun Hne; simpl in Hrun.
  - by injection Hrun as <-.
  - destruct (w_step json_unmarshal_response json_unmarshal_strings t i s)
      as [s1|] eqn:Hs1; [simpl in Hrun|done].
    rewrite (IH s1 Hrun Hne).
    destruct (w_step_thread _ _ _ _ _ _ Hs1) as (th & th' & _ & Hw & _).
    by rewrite Hw, list_lookup_insert_ne.
Qed.

(** X15.  ws deletes the registry key of its (group, clientId) on its way
    out, whoever stored the entry.  When two handlers have the same key
    and the one that is reading gets a read error, or finds its connection
    closed, its teardown leaves the key without an entry while the other
    handler is where it was, with its connection untouched: a session that
    connected again under the same id is unregistered by the teardown of
    the older one, and a lookup by that id finds no session. *)
Theorem stale_teardown_unregisters (s : State) (t1 t2 : nat)
    (th1 th2 : WThread) (c1 : Clients) (cn1 : Conn) (ev : ReadEvent) :
  wthreads s !! t1 = Some th1 → wthreads s !! t2 = Some th2 → t1 ≠ t2 →
  w_key th1 = w_key th2 → w_pc th1 = W_Read →
  clients s !! w_client th1 = Some c1 → conns s !! w_conn th1 = Some cn1 →
  ev = RE_error ∨ conn_closed cn1 = true →
  ∃ s',
    run s [WStep t1 (WI_read ev); WStep t1 WI_run; WStep t1 WI_run;
           WStep t1 WI_run] = Some s' ∧
    hlSyncMap s' !! w_key th2 = None ∧
    wthreads s' !! t2 = Some th2 ∧
    (w_conn th2 ≠ w_conn th1 →
     conns s' !! w_conn th2 = conns s !! w_conn th2) ∧
    (w_clientId th2 ≠ "" →
     ∀ Intn, getRandomClient Intn (w_group th2) (w_clientId th2) s' = None).
Proof.
  intros Ht1 Ht2 Hne Hkey Hpc Hc1 Hcn1 Hfail.
  destruct (teardown_from_read json_marshal json_unmarshal_response
              json_unmarshal_strings s t1 th1 c1 cn1 ev Ht1 Hpc Hc1 Hcn1 Hfail)
    as (s' & Hrun & Hmap & Hconns & _ & _).
  exists s'. split; [exact Hrun|].
  assert (Hnone : hlSyncMap s' !! w_key th2 = None)
    by by rewrite Hmap, Hkey, lookup_delete_eq.
  split; [exact Hnone|]. split; [|split].
  - rewrite <- Ht2.
    apply (run_handler_alone s s' t1
             [WI_read ev; WI_run; WI_run; WI_run] t2 Hrun).
    congruence.
  - intros Hc. rewrite Hconns. by rewrite list_lookup_alter_ne.
  - intros Hid Intn. unfold getRandomClient.
    rewrite decide_True by done. exact Hnone.
Qed.

End Reconnect.

Lemma stale_teardown_unregisters_witness :
  hlSyncMap s_twice !! reg_key "g" "A" = Some 1 ∧
  ∃ s',
    demo_exec s_twice
      [WStep 0 (WI_read RE_error); WStep 0 WI_run; WStep 0 WI_run;
       WStep 0 WI_run] = Some s' ∧
    hlSyncMap s' !! reg_key "g" "A" = None ∧
    wthreads s' !! 1
    = Some (mkWThread "g" "A" "10.0.0.9" 1 1 (Some 1) W_Read).
Proof.
  destruct (stale_teardown_unregisters demo_marshal demo_unmarshal_response
              demo_unmarshal_strings s_twice 0 1
              (mkWThread "g" "A" "10.0.0.1" 0 0 (Some 0) W_Read)
              (mkWThread "g" "A" "10.0.0.9" 1 1 (Some 1) W_Read)
              (NewClient "g" "A" 0 "10.0.0.1" 100)
              (mkConn false [TextFrame (clientNameJson "A")]) RE_error)
    as (s' & H1 & H2 & H3 & _);
    [reflexivity|reflexivity|discriminate|reflexivity|reflexivity
    |reflexivity|reflexivity|left; reflexivity|].
  split; [reflexivity|].
  exists s'. split; [exact H1|]. split; [exact H2|exact H3].
Defined.

(** ** The reply of a call, end to end *)

Lemma w_goto_view (s : State) (t : nat) (pc : WPc) :
  hlSyncMap (w_goto t pc s) = hlSyncMap s ∧ rwMu (w_goto t pc s) = rwMu s ∧
  clients (w_goto t pc s) = clients s ∧ chans (w_goto t pc s) = chans s ∧
  conns (w_goto t pc s) = conns s ∧ gthreads (w_goto t pc s) = gthreads s.
Proof. done. Qed.

Lemma g_goto_view (s : State) (t : nat) (pc : GPc) :
  hlSyncMap (g_goto t pc s) = hlSyncMap s ∧ rwMu (g_goto t pc s) = rwMu s ∧
  clients (g_goto t pc s) = clients s ∧ chans (g_goto t pc s) = chans s ∧
  conns (g_goto t pc s) = conns s ∧ wthreads (g_goto t pc s) = wthreads s.
Proof. done. Qed.

Lemma upd_chan_view (s : State) (r : nat) (f : Chan → Chan) :
  hlSyncMap (upd_chan r f s) = hlSyncMap s ∧ rwMu (upd_chan r f s) = rwMu s ∧
  clients (upd_chan r f s) = clients s ∧
  chans (upd_chan r f s) = alter f r (chans s) ∧
  conns (upd_chan r f s) = conns s ∧
  gthreads (upd_chan r f s) = gthreads s ∧
  wthreads (upd_chan r f s) = wthreads s.
Proof. done. Qed.

Lemma upd_client_view (s : State) (p : nat) (f : Clients → Clients) :
  hlSyncMap (upd_client p f s) = hlSyncMap s ∧
  rwMu (upd_client p f s) = rwMu s ∧
  clients (upd_client p f s) = alter f p (clients s) ∧
  chans (upd_client p f s) = chans s ∧ conns (upd_client p f s) = conns s ∧
  gthreads (upd_client p f s) = gthreads s ∧
  wthreads (upd_client p f s) = wthreads s.
Proof. done. Qed.

Section RoundTrip.
Context (json_marshal : Message → option string).
Context (json_unmarshal_response : string → option MessageResponse).
Context (json_unmarshal_strings : string → option (list string)).

Local Abbreviation gstep := (g_step json_marshal).
Local Abbreviation wstep :=
  (w_step json_unmarshal_response json_unmarshal_strings).
Local Abbreviation mstep :=
  (step json_marshal json_unmarshal_response json_unmarshal_strings).
Local Abbreviation run :=
  (exec json_marshal json_unmarshal_response json_unmarshal_strings).
Local Abbreviation reach :=
  (reachable json_marshal json_unmarshal_response json_unmarshal_strings).

Lemma w_read_message_step (s : State) (t : nat) (th : WThread) (c : Clients)
    (cn : Conn) (m : string) (r : MessageResponse) :
  wthreads s !! t = Some th → clients s !! w_client th = Some c →
  w_pc th = W_Read → conns s !! w_conn th = Some cn →
  conn_closed cn = false → json_unmarshal_response m = Some r →
  is_announcement r = false →
  wstep t (WI_read (RE_message m)) s = Some (w_goto t (W_Lookup r) s).
Proof.
  intros Ht Hc Hpc Hcn Hopen Hm Hann. unfold w_step. rewrite Ht.
  cbn [mbind option_bind]. rewrite Hc. cbn [mbind option_bind].
  rewrite Hpc, Hcn. cbn [mbind option_bind]. by rewrite Hopen, Hm, Hann.
Qed.

Lemma w_lookup_hit_step (s : State) (t : nat) (th : WThread) (c : Clients)
    (r : MessageResponse) (ch : nat) :
  wthreads s !! t = Some th → clients s !! w_client th = Some c →
  w_pc th = W_Lookup r → rwMu s = false →
  readFromMap c (rAction r) (rMessageId r) = Some ch →
  wstep t WI_run s = Some (w_goto t (W_Deliver r) s).
Proof.
  intros Ht Hc Hpc Hmu Hs. unfold w_step. rewrite Ht.
  cbn [mbind option_bind]. rewrite Hc. cbn [mbind option_bind].
  by rewrite Hpc, Hmu, Hs.
Qed.

Lemma w_deliver_send_step (s : State) (t : nat) (th : WThread) (c : Clients)
    (r : MessageResponse) (ch : nat) (rc : Chan) :
  wthreads s !! t = Some th → clients s !! w_client th = Some c →
  w_pc th = W_Deliver r → rwMu s = false →
  readFromMap c (rAction r) (rMessageId r) = Some ch →
  chans s !! ch = Some rc → closed rc = false →
  length (buf rc) < cap rc →
  wstep t WI_run s
  = Some (w_goto t W_Read
            (upd_chan ch
               (λ _, mkChan (buf rc ++ [ResponseData r]) (cap rc) false) s)).
Proof.
  intros Ht Hc Hpc Hmu Hs Hrc Hop Hroom. unfold w_step. rewrite Ht.
  cbn [mbind option_bind]. rewrite Hc. cbn [mbind option_bind].
  rewrite Hpc, Hmu, Hs. unfold deliver. rewrite Hrc. unfold chan_send.
  by rewrite Hop, decide_True.
Qed.

Lemma g_wait_recv_step (s : State) (t : nat) (th : GThread) (c : Clients)
    (ch : nat) (rc : Chan) (v : string) (rest : list string) :
  gthreads s !! t = Some th → clients s !! g_client th = Some c →
  g_pc th = G_Wait ch → chans s !! ch = Some rc → buf rc = v :: rest →
  gstep t GI_recv s
  = Some (g_goto t (G_Reply v)
            (upd_client (g_client th) on_success
               (upd_chan ch (λ _, mkChan rest (cap rc) (closed rc)) s))).
Proof.
  intros Ht Hc Hpc Hrc Hbuf. unfold g_step. rewrite Ht.
  cbn [mbind option_bind]. rewrite Hc. cbn [mbind option_bind].
  rewrite Hpc, Hrc. cbn [mbind option_bind]. unfold chan_recv.
  by rewrite Hbuf.
Qed.

(** X16.  The reply of a call, end to end.  In a reachable state with rwMu
    free, let a call wait in its select on the channel of its slot, the
    channel be empty, and the handler of the same session be reading from
    an open connection.  If the next frame decodes to a response with the
    action and the id of the call that is not an announcement, then the
    three transitions of the read loop (decode, readFromMap, writeToMap)
    and the four of the call (receive, send of the result, deferred
    cleanup, close) run, and afterwards the call has finished, its result
    channel is closed and holds exactly response_data, the slot is removed
    and its channel closed and empty, the session has failCount 0 and
    isHealthy true, the handler is back in ReadMessage, rwMu is free, and
    the connections and the registry are as they were. *)
Theorem reply_round_trip (s : State) (t tw ch : nat) (th : GThread)
    (wt : WThread) (c : Clients) (cn : Conn) (rc : Chan) (m : string)
    (r : MessageResponse) :
  reach s → rwMu s = false →
  gthreads s !! t = Some th → g_pc th = G_Wait ch →
  clients s !! g_client th = Some c →
  readFromMap c (g_funcName th) (g_MessageId th) = Some ch →
  chans s !! ch = Some rc → buf rc = [] →
  wthreads s !! tw = Some wt → w_client wt = g_client th →
  w_pc wt = W_Read →
  conns s !! w_conn wt = Some cn → conn_closed cn = false →
  json_unmarshal_response m = Some r → is_announcement r = false →
  rAction r = g_funcName th → rMessageId r = g_MessageId th →
  ∃ s' c',
    run s [WStep tw (WI_read (RE_message m)); WStep tw WI_run;
           WStep tw WI_run;
           GStep t GI_recv; GStep t GI_run; GStep t GI_run; GStep t GI_run]
    = Some s' ∧
    gthreads s' !! t = Some (g_at G_Done th) ∧
    chans s' !! g_resChan th = Some (mkChan [ResponseData r] 1 true) ∧
    chans s' !! ch = Some (mkChan [] 1 true) ∧
    clients s' !! g_client th = Some c' ∧
    failCount c' = 0%Z ∧ isHealthy c' = true ∧
    readFromMap c' (g_funcName th) (g_MessageId th) = None ∧
    wthreads s' !! tw = Some (w_at W_Read wt) ∧
    rwMu s' = false ∧ conns s' = conns s ∧ hlSyncMap s' = hlSyncMap s.
Proof.
  intros Hr Hmu Ht Hpc Hc Hslot Hrc Hbuf Htw Hwc Hwpc Hcn Hopen Hm Hann
    Hact Hid.
  destruct (reachable_res_inv _ _ _ s Hr) as ((K1 & _ & K3 & _) & _ & R1 & _).
  destruct (K1 (g_client th) (g_funcName th) (g_MessageId th) ch)
    as (rc0 & Hrc0 & Hop & Hcap & _); [by exists c|].
  assert (rc0 = rc) as -> by congruence.
  assert (Erc : rc = mkChan [] 1 false).
  { destruct rc as [b k cl]. simpl in *. by subst. }
  subst rc. clear Hop Hcap Hbuf Hrc0.
  destruct (R1 t th Ht) as (rr & Hrr & Hrcap & Hrst).
  rewrite Hpc in Hrst. destruct Hrst as [Hrop Hrbuf].
  assert (Err : rr = mkChan [] 1 false).
  { destruct rr as [b k cl]. simpl in *. by subst. }
  subst rr. clear Hrop Hrbuf Hrcap.
  assert (Hne : g_resChan th ≠ ch).
  { intros E. assert (Hcl : closable s (g_resChan th)) by (left; eauto).
    apply (proj2 (K3 _ Hcl) (g_client th) (g_funcName th) (g_MessageId th)).
    rewrite E. by exists c. }
  clear K1 K3 R1 Hr.
  pose proof Hslot as Hslot'. unfold readFromMap in Hslot'.
  destruct (actionData c !! g_funcName th) as [inner|] eqn:Hin; [|done].
  cbn [mbind option_bind] in Hslot'.
  rewrite <- Hwc in Hc.
  (* ReadMessage and Unmarshal *)
  pose proof (w_read_message_step s tw wt c cn m r Htw Hc Hwpc Hcn Hopen Hm
                Hann) as H1.
  set (s1 := w_goto tw (W_Lookup r) s) in *.
  pose proof (w_goto_thread s tw wt (W_Lookup r) Htw) as Htw1. fold s1 in Htw1.
  destruct (w_goto_view s tw (W_Lookup r)) as (A1 & B1 & C1 & D1 & E1 & F1).
  fold s1 in A1, B1, C1, D1, E1, F1. clearbody s1.
  (* readFromMap *)
  assert (H2 : wstep tw WI_run s1 = Some (w_goto tw (W_Deliver r) s1)).
  { eapply (w_lookup_hit_step s1 tw _ c r ch Htw1);
      [by rewrite C1|done|congruence|by rewrite Hact, Hid]. }
  set (s2 := w_goto tw (W_Deliver r) s1) in *.
  pose proof (w_goto_thread s1 tw _ (W_Deliver r) Htw1) as Htw2.
  fold s2 in Htw2.
  destruct (w_goto_view s1 tw (W_Deliver r)) as (A2 & B2 & C2 & D2 & E2 & F2).
  fold s2 in A2, B2, C2, D2, E2, F2. clearbody s2.
  (* writeToMap *)
  assert (H3 : wstep tw WI_run s2
               = Some (w_goto tw W_Read
                         (upd_chan ch
                            (λ _, mkChan [ResponseData r] 1 false) s2))).
  { eapply (w_deliver_send_step s2 tw _ c r ch (mkChan [] 1 false) Htw2);
      [by rewrite C2, C1|done|congruence|by rewrite Hact, Hid
      |by rewrite D2, D1|done|simpl; lia]. }
  set (u3 := upd_chan ch (λ _, mkChan [ResponseData r] 1 false) s2) in *.
  destruct (upd_chan_view s2 ch (λ _, mkChan [ResponseData r] 1 false))
    as (A3 & B3 & C3 & D3 & E3 & F3 & G3).
  fold u3 in A3, B3, C3, D3, E3, F3, G3. clearbody u3.
  set (s3 := w_goto tw W_Read u3) in *.
  assert (Htw3 : wthreads s3 !! tw = Some (w_at W_Read wt)).
  { apply (w_goto_thread u3 tw (w_at (W_Deliver r) (w_at (W_Lookup r) wt))).
    by rewrite G3. }
  destruct (w_goto_view u3 tw W_Read) as (A3' & B3' & C3' & D3' & E3' & F3').
  fold s3 in A3', B3', C3', D3', E3', F3'. clearbody s3.
  assert (Ht3 : gthreads s3 !! t = Some th) by congruence.
  assert (Hc3 : clients s3 !! g_client th = Some c) by congruence.
  assert (Hch3 : chans s3 !! ch = Some (mkChan [ResponseData r] 1 false)).
  { rewrite D3', D3, list_lookup_alter_eq, D2, D1, Hrc. done. }
  assert (Hres3 : chans s3 !! g_resChan th = Some (mkChan [] 1 false)).
  { rewrite D3', D3, list_lookup_alter_ne by done. by rewrite D2, D1. }
  assert (Hmu3 : rwMu s3 = false) by congruence.
  assert (Hcn3 : conns s3 = conns s) by congruence.
  assert (Hm3 : hlSyncMap s3 = hlSyncMap s) by congruence.
  clear A1 B1 C1 D1 E1 F1 A2 B2 C2 D2 E2 F2 A3 B3 C3 D3 E3 F3 G3
    A3' B3' C3' D3' E3' F3' Htw1 Htw2.
  (* the receive branch of the select *)
  pose proof (g_wait_recv_step s3 t th c ch _ (ResponseData r) [] Ht3 Hc3 Hpc
                Hch3 eq_refl) as H4.
  cbn [cap closed] in H4.
  set (u4 := upd_chan ch (λ _, mkChan [] 1 false) s3) in *.
  destruct (upd_chan_view s3 ch (λ _, mkChan [] 1 false))
    as (A4 & B4 & C4 & D4 & E4 & F4 & G4).
  fold u4 in A4, B4, C4, D4, E4, F4, G4. clearbody u4.
  set (v4 := upd_client (g_client th) on_success u4) in *.
  destruct (upd_client_view u4 (g_client th) on_success)
    as (A4' & B4' & C4' & D4' & E4' & F4' & G4').
  fold v4 in A4', B4', C4', D4', E4', F4', G4'. clearbody v4.
  set (s4 := g_goto t (G_Reply (ResponseData r)) v4) in *.
  assert (Ht4 : gthreads s4 !! t = Some (g_at (G_Reply (ResponseData r)) th)).
  { apply (g_goto_thread v4 t th). congruence. }
  destruct (g_goto_view v4 t (G_Reply (ResponseData r)))
    as (A4'' & B4'' & C4'' & D4'' & E4'' & F4'').
  fold s4 in A4'', B4'', C4'', D4'', E4'', F4''. clearbody s4.
  assert (Hc4 : clients s4 !! g_client th = Some (on_success c)).
  { rewrite C4'', C4', list_lookup_alter_eq, C4, Hc3. done. }
  assert (Hch4 : chans s4 !! ch = Some (mkChan [] 1 false)).
  { rewrite D4'', D4', D4, list_lookup_alter_eq, Hch3. done. }
  assert (Hres4 : chans s4 !! g_resChan th = Some (mkChan [] 1 false)).
  { rewrite D4'', D4', D4, list_lookup_alter_ne by done. done. }
  assert (Htw4 : wthreads s4 !! tw = Some (w_at W_Read wt)) by congruence.
  assert (Hmu4 : rwMu s4 = false) by congruence.
  assert (Hcn4 : conns s4 = conns s) by congruence.
  assert (Hm4 : hlSyncMap s4 = hlSyncMap s) by congruence.
  clear A4 B4 C4 D4 E4 F4 G4 A4' B4' C4' D4' E4' F4' G4'
    A4'' B4'' C4'' D4'' E4'' F4'' Ht3 Hc3 Hch3 Hres3 Htw3 Hmu3.
  (* the send of the result *)
  pose proof (g_reply_step json_marshal s4 t _ (on_success c) Ht4 Hc4
                (ResponseData r) (mkChan [] 1 false) eq_refl Hres4 eq_refl)
    as H5.
  cbn [buf cap app length g_resChan g_at] in H5.
  specialize (H5 ltac:(lia)).
  set (u5 := upd_chan (g_resChan th)
               (λ _, mkChan [ResponseData r] 1 false) s4) in *.
  destruct (upd_chan_view s4 (g_resChan th)
              (λ _, mkChan [ResponseData r] 1 false))
    as (A5 & B5 & C5 & D5 & E5 & F5 & G5).
  fold u5 in A5, B5, C5, D5, E5, F5, G5. clearbody u5.
  set (s5 := g_goto t (G_Cleanup false) u5) in *.
  assert (Ht5 : gthreads s5 !! t = Some (g_at (G_Cleanup false) th)).
  { apply (g_goto_thread u5 t (g_at (G_Reply (ResponseData r)) th)).
    congruence. }
  destruct (g_goto_view u5 t (G_Cleanup false))
    as (A5' & B5' & C5' & D5' & E5' & F5').
  fold s5 in A5', B5', C5', D5', E5', F5'. clearbody s5.
  assert (Hc5 : clients s5 !! g_client th = Some (on_success c))
    by congruence.
  assert (Hch5 : chans s5 !! ch = Some (mkChan [] 1 false)).
  { rewrite D5', D5, list_lookup_alter_ne by done. done. }
  assert (Hres5 : chans s5 !! g_resChan th
                  = Some (mkChan [ResponseData r] 1 false)).
  { rewrite D5', D5, list_lookup_alter_eq, Hres4. done. }
  assert (Htw5 : wthreads s5 !! tw = Some (w_at W_Read wt)) by congruence.
  assert (Hmu5 : rwMu s5 = false) by congruence.
  assert (Hcn5 : conns s5 = conns s) by congruence.
  assert (Hm5 : hlSyncMap s5 = hlSyncMap s) by congruence.
  clear A5 B5 C5 D5 E5 F5 G5 A5' B5' C5' D5' E5' F5'
    Ht4 Hc4 Hch4 Hres4 Htw4 Hmu4 Hcn4 Hm4.
  (* the deferred cleanup *)
  pose proof (g_cleanup_step json_marshal s5 t _ (on_success c) Ht5 Hc5 false
                eq_refl Hmu5) as H6.
  cbn [g_funcName g_MessageId g_client g_at actionData on_success
       set_health] in H6.
  rewrite Hin, Hslot' in H6.
  set (tbl := set_actionData
                (<[g_funcName th := delete (g_MessageId th) inner]>
                   (actionData c))) in *.
  set (v6 := upd_client (g_client th) tbl s5) in *.
  destruct (upd_client_view s5 (g_client th) tbl)
    as (A6 & B6 & C6 & D6 & E6 & F6 & G6).
  fold v6 in A6, B6, C6, D6, E6, F6, G6. clearbody v6.
  set (u6 := upd_chan ch chan_close_recover v6) in *.
  destruct (upd_chan_view v6 ch chan_close_recover)
    as (A6' & B6' & C6' & D6' & E6' & F6' & G6').
  fold u6 in A6', B6', C6', D6', E6', F6', G6'. clearbody u6.
  set (s6 := g_goto t (G_CloseRes false) u6) in *.
  assert (Ht6 : gthreads s6 !! t = Some (g_at (G_CloseRes false) th)).
  { apply (g_goto_thread u6 t (g_at (G_Cleanup false) th)). congruence. }
  destruct (g_goto_view u6 t (G_CloseRes false))
    as (A6'' & B6'' & C6'' & D6'' & E6'' & F6'').
  fold s6 in A6'', B6'', C6'', D6'', E6'', F6''. clearbody s6.
  assert (Hc6 : clients s6 !! g_client th = Some (tbl (on_success c))).
  { rewrite C6'', C6', C6, list_lookup_alter_eq, Hc5. done. }
  assert (Hch6 : chans s6 !! ch = Some (mkChan [] 1 true)).
  { rewrite D6'', D6', list_lookup_alter_eq, D6, Hch5. done. }
  assert (Hres6 : chans s6 !! g_resChan th
                  = Some (mkChan [ResponseData r] 1 false)).
  { rewrite D6'', D6', list_lookup_alter_ne by done. by rewrite D6. }
  assert (Htw6 : wthreads s6 !! tw = Some (w_at W_Read wt)) by congruence.
  assert (Hmu6 : rwMu s6 = false) by congruence.
  assert (Hcn6 : conns s6 = conns s) by congruence.
  assert (Hm6 : hlSyncMap s6 = hlSyncMap s) by congruence.
  clear A6 B6 C6 D6 E6 F6 G6 A6' B6' C6' D6' E6' F6' G6'
    A6'' B6'' C6'' D6'' E6'' F6'' Ht5 Hc5 Hch5 Hres5 Htw5 Hmu5 Hcn5 Hm5.
  (* the deferred close of the result channel *)
  pose proof (g_closeres_step json_marshal s6 t _ _ Ht6 Hc6 false eq_refl)
    as H7.
  cbn [g_resChan g_at] in H7.
  set (u7 := upd_chan (g_resChan th) chan_close_recover s6) in *.
  destruct (upd_chan_view s6 (g_resChan th) chan_close_recover)
    as (A7 & B7 & C7 & D7 & E7 & F7 & G7).
  fold u7 in A7, B7, C7, D7, E7, F7, G7. clearbody u7.
  set (s7 := g_goto t G_Done u7) in *.
  assert (Ht7 : gthreads s7 !! t = Some (g_at G_Done th)).
  { apply (g_goto_thread u7 t (g_at (G_CloseRes false) th)). congruence. }
  destruct (g_goto_view u7 t G_Done) as (A7' & B7' & C7' & D7' & E7' & F7').
  fold s7 in A7', B7', C7', D7', E7', F7'. clearbody s7.
  exists s7, (tbl (on_success c)). split.
  { cbn [exec step]. rewrite H1. cbn [mbind option_bind]. rewrite H2.
    cbn [mbind option_bind]. rewrite H3. cbn [mbind option_bind].
    rewrite H4. cbn [mbind option_bind]. rewrite H5.
    cbn [mbind option_bind]. rewrite H6. cbn [mbind option_bind].
    by rewrite H7. }
  split; [exact Ht7|].
  split; [rewrite D7', D7, list_lookup_alter_eq, Hres6; done|].
  split; [rewrite D7', D7, list_lookup_alter_ne by done; done|].
  split; [congruence|]. split; [done|]. split; [done|].
  split.
  { unfold readFromMap, tbl. cbn [actionData set_actionData].
    rewrite lookup_insert_eq. cbn [mbind option_bind].
    by rewrite lookup_delete_eq. }
  split; [congruence|]. split; [congruence|]. split; congruence.
Qed.

End RoundTrip.

Lemma reply_round_trip_witness :
  ∃ s' c',
    demo_exec s_wait
      [WStep 0 (WI_read (RE_message wire_reply)); WStep 0 WI_run;
       WStep 0 WI_run;
       GStep 0 GI_recv; GStep 0 GI_run; GStep 0 GI_run; GStep 0 GI_run]
    = Some s' ∧
    chans s' !! 1 = Some (mkChan ["x"] 1 true) ∧
    clients s' !! 0 = Some c' ∧ readFromMap c' "act" "id" = None.
Proof.
  destruct (reply_round_trip demo_marshal demo_unmarshal_response
              demo_unmarshal_strings s_wait 0 0 2
              (mkGThread 0 "act" "p" 1 "10.0.0.1" "id" (G_Wait 2))
              (mkWThread "g" "A" "10.0.0.1" 0 0 (Some 0) W_Read)
              (default (NewClient "g" "A" 0 "10.0.0.1" 100)
                 (clients s_wait !! 0))
              (default (mkConn true []) (conns s_wait !! 0))
              (mkChan [] 1 false) wire_reply
              (mkMessageResponse "act" "id" "x"))
    as (s' & c' & H1 & _ & H3 & _ & H5 & _ & _ & H8 & _);
    [exists to_wait; vm_compute; reflexivity|reflexivity..|].
  exists s', c'. split; [exact H1|]. split; [exact H3|].
  split; [exact H5|exact H8].
Defined.

(** ** Witnesses of the further properties *)

Lemma pending_channels_open_witness :
  ∃ rc, chans s_wait !! 2 = Some rc ∧ closed rc = false ∧ cap rc = 1 ∧
        length (buf rc) ≤ 1.
Proof.
  destruct (pending_channels_open demo_marshal demo_unmarshal_response
              demo_unmarshal_strings s_wait) as (H & _ & _);
    [exists to_wait; vm_compute; reflexivity|].
  refine (H 0 _ "act" "id" 2 _ _); reflexivity.
Defined.

Lemma write_lock_discipline_witness :
  rwMu s_parked = true ↔
  ∃ t th ch m, wthreads s_parked !! t = Some th ∧ w_pc th = W_Parked ch m.
Proof.
  destruct (write_lock_discipline demo_marshal demo_unmarshal_response
              demo_unmarshal_strings s_parked) as (_ & H & _);
    [exists (to_wait ++ late_reply); vm_compute; reflexivity|].
  exact H.
Defined.

Lemma call_answers_once_witness :
  (∃ rc, chans s_wait !! 1 = Some rc ∧ cap rc = 1 ∧
         res_state (G_Wait 2) rc ∧ caller_recv 0 s_wait = None) ∧
  (g_pc <$> gthreads s_sent !! 0 = Some (G_Cleanup false) ∧
   chans s_sent !! 1 = Some (mkChan ["x"] 1 false) ∧
   caller_recv 0 s_sent = Some (s_answered, "x")) ∧
  (∃ rc, chans s_answered !! 1 = Some rc ∧
         res_state (G_Cleanup false) rc ∧ buf rc = [] ∧
         caller_recv 0 s_answered = None).
Proof.
  split; [|split].
  - destruct (call_answers_once demo_marshal demo_unmarshal_response
                demo_unmarshal_strings s_wait 0
                (mkGThread 0 "act" "p" 1 "10.0.0.1" "id" (G_Wait 2)))
      as (rc & H1 & H2 & H3 & _ & _ & _ & H7 & _);
      [exists (Ev <$> to_wait); vm_compute; reflexivity|reflexivity|].
    exists rc. split; [exact H1|]. split; [exact H2|]. split; [exact H3|].
    apply H7. exact H3.
  - destruct (call_answers_once demo_marshal demo_unmarshal_response
                demo_unmarshal_strings s_sent 0
                (mkGThread 0 "act" "p" 1 "10.0.0.1" "id" (G_Cleanup false)))
      as (rc & H1 & _ & _ & _ & _ & _ & _ & H8 & _);
      [exists to_sent; vm_compute; reflexivity|reflexivity|].
    split; [reflexivity|]. split; [reflexivity|].
    vm_compute in H1. injection H1 as <-.
    destruct (H8 "x" eq_refl) as (s' & Hs' & _). rewrite Hs'.
    vm_compute in Hs'. injection Hs' as <-. reflexivity.
  - destruct (call_answers_once demo_marshal demo_unmarshal_response
                demo_unmarshal_strings s_answered 0
                (mkGThread 0 "act" "p" 1 "10.0.0.1" "id" (G_Cleanup false)))
      as (rc & H1 & _ & H3 & _ & _ & _ & H7 & _);
      [exists (to_sent ++ [Recv 0]); vm_compute; reflexivity|reflexivity|].
    exists rc. split; [exact H1|]. split; [exact H3|].
    assert (Hb : buf rc = [])
      by (vm_compute in H1; injection H1 as <-; reflexivity).
    split; [exact Hb|]. apply H7. split; [exact (proj1 H3)|exact Hb].
Defined.

Lemma pending_slot_has_owner_witness :
  ∃ t th, gthreads s_wait !! t = Some th ∧ g_client th = 0 ∧
          g_funcName th = "act" ∧ g_MessageId th = "id" ∧
          holds_slot (g_pc th) = true ∧ g_resChan th ≠ 2.
Proof.
  refine (pending_slot_has_owner demo_marshal demo_unmarshal_response
            demo_unmarshal_strings s_wait 0 _ "act" "id" 2 _ _ _);
    [exists to_wait; vm_compute; reflexivity|reflexivity|reflexivity].
Defined.

Lemma getRandomClient_draws_candidate_witness :
  ∃ p, getRandomClient first_candidate "g" "" s_open = Some p ∧
       p ∈ candidates_of (partition_group "g" "" s_open).
Proof.
  destruct (getRandomClient_draws_candidate demo_marshal
              demo_unmarshal_response demo_unmarshal_strings s_open "g")
    as (_ & _ & H & _); [exists boot; vm_compute; reflexivity|].
  apply (H first_candidate). vm_compute. lia.
Defined.

Lemma write_panic_wedges_session_witness :
  ws_locked s_panicked 0 ∧
  h_step 0 (HI_tick true) s_panicked = None.
Proof.
  destruct (write_panic_wedges_session demo_marshal demo_unmarshal_response
              demo_unmarshal_strings) as [_ H].
  destruct (H s_panicking [GStep 0 GI_run; GStep 0 GI_run; GStep 0 GI_run]
              s_panicked 0) as (H1 & _ & H3);
    [eexists; split; reflexivity|reflexivity|].
  split; [exact H1|]. eapply (H3 0); reflexivity.
Defined.

Lemma call_makes_progress_witness :
  ∃ i s', g_step demo_marshal 0 i s_wait = Some s'.
Proof.
  refine (call_makes_progress demo_marshal demo_unmarshal_response
            demo_unmarshal_strings s_wait 0
            (mkGThread 0 "act" "p" 1 "10.0.0.1" "id" (G_Wait 2)) _ _ _ _ _);
    [exists to_wait; vm_compute; reflexivity|reflexivity|discriminate
    |reflexivity|].
  intros (c & Hc & Hmu). vm_compute in Hc. injection Hc as <-.
  discriminate Hmu.
Defined.

Lemma handler_makes_progress_witness :
  ∃ i s', w_step demo_unmarshal_response demo_unmarshal_strings 0 i s_open
          = Some s'.
Proof.
  refine (handler_makes_progress demo_marshal demo_unmarshal_response
            demo_unmarshal_strings s_open 0
            (mkWThread "g" "A" "10.0.0.1" 0 0 (Some 0) W_Read) _ _ _ _);
    [exists boot; vm_compute; reflexivity|reflexivity|discriminate
    |reflexivity].
Defined.

Lemma heartbeat_lifetime_witness :
  ∃ t th rc,
    wthreads s_open !! t = Some th ∧ w_stop th = Some 0 ∧
    chans s_open !! 0 = Some rc ∧ closed rc = after_stop (w_pc th).
Proof.
  destruct (heartbeat_lifetime demo_marshal demo_unmarshal_response
              demo_unmarshal_strings s_open 0 (mkHThread 0 0 0 false))
    as (t & th & rc & H1 & (H2 & _) & _ & H4 & H5 & _);
    [exists boot; vm_compute; reflexivity|reflexivity|].
  exists t, th, rc. split; [exact H1|]. split; [exact H2|].
  split; [exact H4|exact H5].
Defined.

Lemma wire_frames_accounted_witness :
  TextFrame (clientNameJson "A") = PingFrame ∨
  (∃ th, wthreads s_wait !! 0 = Some th ∧ w_pc th ≠ W_Ack ∧
         TextFrame (clientNameJson "A")
         = TextFrame (clientNameJson (w_clientId th))) ∨
  (∃ t th data,
     gthreads s_wait !! t = Some th ∧ g_client th = 0 ∧
     sent_pc (g_pc th) = true ∧
     demo_marshal (mkMessage (g_funcName th) (g_MessageId th) (g_param th))
     = Some data ∧
     TextFrame (clientNameJson "A") = TextFrame data).
Proof.
  refine (wire_frames_accounted demo_marshal demo_unmarshal_response
            demo_unmarshal_strings s_wait 0 _ _ _ _ _);
    [exists to_wait; vm_compute; reflexivity|reflexivity|].
  vm_compute. left.
Defined.

Lemma unhealthy_until_reply_witness :
  ∃ t th ch,
    GStep 0 GI_recv = GStep t GI_recv ∧ gthreads s_unhealthy !! t = Some th ∧
    g_client th = 0 ∧ g_pc th = G_Wait ch.
Proof.
  set (s' := default init (demo_exec s_unhealthy [GStep 0 GI_recv])).
  destruct (unhealthy_until_reply demo_marshal demo_unmarshal_response
              demo_unmarshal_strings s_unhealthy s' (GStep 0 GI_recv) 0
              (default (NewClient "g" "A" 0 "10.0.0.1" 100)
                 (clients s_unhealthy !! 0))
              (default (NewClient "g" "A" 0 "10.0.0.1" 100)
                 (clients s' !! 0)))
    as (t & th & ch & H1 & H2 & H3 & H4 & _);
    [reflexivity|reflexivity|reflexivity|reflexivity|reflexivity
    |vm_compute; split; [discriminate|reflexivity]|].
  exists t, th, ch. split; [exact H1|]. split; [exact H2|].
  split; [exact H3|exact H4].
Defined.

Lemma getList_lists_registry_witness :
  ∃ k p c, hlSyncMap s_open !! k = Some p ∧ clients s_open !! p = Some c ∧
           clientGroup c = "g" ∧ clientId c = "A".
Proof.
  destruct (getList_lists_registry demo_marshal demo_unmarshal_response
              demo_unmarshal_strings s_open "g") as [_ H];
    [exists boot; vm_compute; reflexivity|].
  destruct (H ["A"] eq_refl) as (_ & _ & Hin).
  apply (Hin "A"). left.
Defined.

Lemma getClientDetails_lists_registry_witness :
  getClientDetails s_open !! "g" = None ↔ getList s_open !! "g" = None.
Proof.
  refine (proj1 (getClientDetails_lists_registry demo_marshal
                   demo_unmarshal_response demo_unmarshal_strings s_open "g"
                   _)).
  exists boot. vm_compute. reflexivity.
Defined.

Lemma execjs_is_getResult_witness :
  ((execjs "g" "A" "1+1" first_candidate s_open).1
   = getResult "g" "A" "_execjs" "1+1" first_candidate s_open ∧
   (execjs "g" "A" "1+1" first_candidate s_open).2 = None ∧
   caller_recv 0 (execjs "g" "A" "1+1" first_candidate s_open).1 = None) ∧
  ((execjs "g" "A" "" first_candidate s_open).2 = Some 400%Z ∧
   (execjs "g" "A" "" first_candidate s_open).1 = s_open) ∧
  ((execjs "g" "B" "1+1" first_candidate s_open).2 = Some 400%Z ∧
   (execjs "g" "B" "1+1" first_candidate s_open).1 = s_open).
Proof.
  assert (Hr : reachable demo_marshal demo_unmarshal_response
                 demo_unmarshal_strings s_open)
    by (exists boot; vm_compute; reflexivity).
  split; [|split].
  - destruct (execjs_is_getResult demo_marshal demo_unmarshal_response
                demo_unmarshal_strings s_open "g" "A" "1+1"
                first_candidate Hr) as (H1 & _ & _ & H4 & _).
    split; [apply H1; discriminate|].
    destruct H4 as (Hnone & p & c & _ & _ & _ & _ & Hblocked);
      [discriminate|].
    split; [exact Hnone|exact Hblocked].
  - destruct (execjs_is_getResult demo_marshal demo_unmarshal_response
                demo_unmarshal_strings s_open "g" "A" ""
                first_candidate Hr) as (_ & H2 & H3 & _).
    assert (H400 : (execjs "g" "A" "" first_candidate s_open).2
                   = Some 400%Z) by (apply H2; left; reflexivity).
    split; [exact H400|exact (H3 H400)].
  - destruct (execjs_is_getResult demo_marshal demo_unmarshal_response
                demo_unmarshal_strings s_open "g" "B" "1+1"
                first_candidate Hr) as (_ & H2 & H3 & _).
    assert (H400 : (execjs "g" "B" "1+1" first_candidate s_open).2
                   = Some 400%Z) by (apply H2; right; reflexivity).
    split; [exact H400|exact (H3 H400)].
Defined.
